(** * data-cleaner: the cleaning pipeline and the grouping engine

    A shallow embedding of [cleanData] (src/index.js) and of the grouper
    module ([groupByMultiple], [aggregateGroup], [calculatePercentile],
    [groupAndAggregate], [pivotTable]), with the part of the ECMAScript
    runtime these functions rely on. Further modules embed [groupBy]
    and [getGroupStats] of the grouper, [getStats] and the option
    parsing of the [clean] and [group] commands (src/index.js), and the
    engine of the validator ([validateField], [validate], [getErrors] in
    src/validator.js). [groupByTime] and the validation rules built on
    dates, URLs and regular expressions depend on the host and are not
    embedded.

    Conventions of the model.
    - A JavaScript number is [NaN], an infinity or an exact rational:
      rounding to binary64, overflow and the sign of zero are not modelled.
    - A JavaScript string is a Rocq [string]; the case and white-space
      functions are the ASCII ones.
    - Field values are primitive values; a record is the list of its own
      properties in insertion order. Reading a name finds own properties
      only; the objects the grouper and the validator build store
      nothing under the name ['__proto__'], as the assignments of the
      code do.
    - A call that throws is a result of its own in [aggregateGroup] and
      [groupAndAggregate] ([ThrewTypeError]) and in [cleanData].
    - [cleanData] runs over a store of records and arrays, because two of
      its stages write to objects the caller can still reach. *)

From Stdlib Require Import ZArith QArith Qcanon Qround Lia Bool Sorted.
From Stdlib Require Import Permutation Lqa.
From Stdlib Require Import Ascii String DecimalString.
From stdpp Require Import base list.

Local Open Scope string_scope.

(* ================================================================== *)
(** * The runtime                                                      *)
(* ================================================================== *)

Module JS.

(** ** Numbers *)

Inductive number : Type :=
| NaN
| PosInf
| NegInf
| Fin (q : Qc).

Definition of_Z (z : Z) : number := Fin (Q2Qc (inject_Z z)).

Definition Qc_sign (q : Qc) : comparison := (q ?= 0)%Qc.

Definition Qc_ltb (a b : Qc) : bool :=
  match (a ?= b)%Qc with Lt => true | _ => false end.

Definition Qc_eqb (a b : Qc) : bool :=
  match (a ?= b)%Qc with Eq => true | _ => false end.

(** [x + y] *)
Definition add (x y : number) : number :=
  match x, y with
  | NaN, _ | _, NaN => NaN
  | PosInf, NegInf | NegInf, PosInf => NaN
  | PosInf, _ | _, PosInf => PosInf
  | NegInf, _ | _, NegInf => NegInf
  | Fin a, Fin b => Fin (a + b)%Qc
  end.

(** unary minus *)
Definition neg (x : number) : number :=
  match x with
  | NaN => NaN
  | PosInf => NegInf
  | NegInf => PosInf
  | Fin a => Fin (- a)%Qc
  end.

(** [x - y] *)
Definition sub (x y : number) : number := add x (neg y).

Definition signed_inf (c : comparison) : number :=
  match c with Lt => NegInf | Gt => PosInf | Eq => NaN end.

(** [x * y]: an infinity times zero is [NaN]. *)
Definition mul (x y : number) : number :=
  match x, y with
  | NaN, _ | _, NaN => NaN
  | PosInf, PosInf | NegInf, NegInf => PosInf
  | PosInf, NegInf | NegInf, PosInf => NegInf
  | PosInf, Fin a | Fin a, PosInf => signed_inf (Qc_sign a)
  | NegInf, Fin a | Fin a, NegInf => signed_inf (CompOpp (Qc_sign a))
  | Fin a, Fin b => Fin (a * b)%Qc
  end.

(** [x / y]: a non-zero number over zero is an infinity, [0 / 0] is
    [NaN], a finite number over an infinity is zero. *)
Definition div (x y : number) : number :=
  match x, y with
  | NaN, _ | _, NaN => NaN
  | (PosInf | NegInf), (PosInf | NegInf) => NaN
  | PosInf, Fin b =>
      match Qc_sign b with Lt => NegInf | _ => PosInf end
  | NegInf, Fin b =>
      match Qc_sign b with Lt => PosInf | _ => NegInf end
  | Fin _, (PosInf | NegInf) => Fin 0%Qc
  | Fin a, Fin b =>
      match Qc_sign b with
      | Eq => signed_inf (Qc_sign a)
      | _ => Fin (a / b)%Qc
      end
  end.

(** [x < y] on numbers; every comparison with [NaN] is false. *)
Definition ltb (x y : number) : bool :=
  match x, y with
  | NaN, _ | _, NaN => false
  | _, NegInf => false
  | NegInf, _ => true
  | PosInf, _ => false
  | Fin _, PosInf => true
  | Fin a, Fin b => Qc_ltb a b
  end.

(** [x === y] on numbers; [NaN] differs from itself. *)
Definition eqb (x y : number) : bool :=
  match x, y with
  | PosInf, PosInf | NegInf, NegInf => true
  | Fin a, Fin b => Qc_eqb a b
  | _, _ => false
  end.

(** [x <= y] is true when [x < y] or [x == y]. *)
Definition leb (x y : number) : bool := ltb x y || eqb x y.

(** ToBoolean on a number: false for zero and [NaN]. *)
Definition truthy_number (x : number) : bool :=
  match x with
  | NaN => false
  | Fin a => negb (Qc_eqb a 0%Qc)
  | _ => true
  end.

(** [Number.isFinite] *)
Definition is_finite (n : number) : bool :=
  match n with Fin _ => true | _ => false end.

Definition allFinite (l : list number) : Prop :=
  forall v, In v l -> is_finite v = true.

(** [a <= b] for two numbers other than [NaN]. *)
Definition notAbove (a b : number) : Prop := ltb b a = false.

(** [Math.floor] and [Math.ceil] *)
Definition floor (x : number) : number :=
  match x with Fin a => of_Z (Qfloor a) | _ => x end.

Definition ceil (x : number) : number :=
  match x with Fin a => of_Z (Qceiling a) | _ => x end.

(** [Math.min(...xs)]: [Infinity] for no argument, [NaN] as soon as one
    argument is [NaN]. *)
Definition min2 (x y : number) : number :=
  match x, y with
  | NaN, _ | _, NaN => NaN
  | _, _ => if ltb y x then y else x
  end.

Definition max2 (x y : number) : number :=
  match x, y with
  | NaN, _ | _, NaN => NaN
  | _, _ => if ltb x y then y else x
  end.

Definition Math_min (xs : list number) : number := fold_left min2 xs PosInf.
Definition Math_max (xs : list number) : number := fold_left max2 xs NegInf.

(** ** Strings *)

Definition code (c : ascii) : nat := nat_of_ascii c.

Definition in_range (lo hi : nat) (c : ascii) : bool :=
  (lo <=? code c)%nat && (code c <=? hi)%nat.

(** White space and line terminators below U+0080. *)
Definition is_space (c : ascii) : bool :=
  in_range 9 13 c || (code c =? 32)%nat.

Definition is_digit (c : ascii) : bool := in_range 48 57 c.
Definition is_upper (c : ascii) : bool := in_range 65 90 c.
Definition is_lower (c : ascii) : bool := in_range 97 122 c.

(** The class [\w] of regular expressions. *)
Definition is_word (c : ascii) : bool :=
  is_digit c || is_upper c || is_lower c || (code c =? 95)%nat.

Definition upper_char (c : ascii) : ascii :=
  if is_lower c then ascii_of_nat (code c - 32) else c.

Definition lower_char (c : ascii) : ascii :=
  if is_upper c then ascii_of_nat (code c + 32) else c.

Fixpoint map_string (f : ascii -> ascii) (s : string) : string :=
  match s with
  | EmptyString => EmptyString
  | String c s' => String (f c) (map_string f s')
  end.

Definition toUpperCase : string -> string := map_string upper_char.
Definition toLowerCase : string -> string := map_string lower_char.

Definition rev_string (s : string) : string :=
  string_of_list_ascii (List.rev (list_ascii_of_string s)).

Fixpoint trimStart (s : string) : string :=
  match s with
  | String c s' => if is_space c then trimStart s' else s
  | EmptyString => EmptyString
  end.

Definition trimEnd (s : string) : string :=
  rev_string (trimStart (rev_string s)).

Definition trim (s : string) : string := trimEnd (trimStart s).

(** [s.startsWith(v)], [s.endsWith(v)] and [s.includes(v)] *)
Definition startsWith (s v : string) : bool := String.prefix v s.

Definition endsWith (s v : string) : bool :=
  String.prefix (rev_string v) (rev_string s).

Fixpoint includes (s v : string) : bool :=
  String.prefix v s ||
  match s with
  | EmptyString => false
  | String _ s' => includes s' v
  end.

(** [s.charAt(0)] and [s.slice(1)] *)
Definition charAt0 (s : string) : string :=
  match s with String c _ => String c EmptyString | EmptyString => EmptyString end.

Definition slice1 (s : string) : string :=
  match s with String _ s' => s' | EmptyString => EmptyString end.

(** [s.split(sep)]. [skip] counts the characters of the separator
    occurrence still to be passed over; [cur] is the current piece,
    reversed. An empty separator splits into single characters. *)
Fixpoint split_at (sep : string) (skip : nat) (cur : string) (s : string)
  : list string :=
  match s with
  | EmptyString => [rev_string cur]
  | String c s' =>
      match skip with
      | S k => split_at sep k cur s'
      | O =>
          if String.prefix sep s
          then rev_string cur :: split_at sep (String.length sep - 1) EmptyString s'
          else split_at sep 0 (String c cur) s'
      end
  end.

Definition split (sep s : string) : list string :=
  match sep with
  | EmptyString =>
      List.map (fun c => String c EmptyString) (list_ascii_of_string s)
  | _ => split_at sep 0 EmptyString s
  end.

(** [parts.join(sep)] on an array of strings *)
Definition join (sep : string) (parts : list string) : string :=
  String.concat sep parts.

(** [s.replace(/\w\S*/g, t => t.charAt(0).toUpperCase() +
    t.substr(1).toLowerCase())]: [inside] tells whether the scan is
    within a match. *)
Fixpoint title_from (inside : bool) (s : string) : string :=
  match s with
  | EmptyString => EmptyString
  | String c s' =>
      if inside then
        if is_space c then String c (title_from false s')
        else String (lower_char c) (title_from true s')
      else
        if is_word c then String (upper_char c) (title_from true s')
        else String c (title_from false s')
  end.

Definition titleCase (s : string) : string := title_from false s.

(** ** Numeric literals: [Number(s)] on a string *)

Fixpoint span {A} (p : A -> bool) (l : list A) : list A * list A :=
  match l with
  | x :: l' =>
      if p x then let (a, b) := span p l' in (x :: a, b) else ([], l)
  | [] => ([], [])
  end.

Definition digit_value (c : ascii) : Z :=
  if is_digit c then Z.of_nat (code c - 48)
  else if in_range 97 102 c then Z.of_nat (code c - 87)
  else Z.of_nat (code c - 55).

Definition is_hex (c : ascii) : bool :=
  is_digit c || in_range 97 102 c || in_range 65 70 c.

Definition digits_value (base : Z) (ds : list ascii) : Z :=
  fold_left (fun acc c => acc * base + digit_value c)%Z ds 0%Z.

Definition pow10 (e : Z) : Qc :=
  if (0 <=? e)%Z then Q2Qc (inject_Z (10 ^ e))
  else (/ Q2Qc (inject_Z (10 ^ (- e))))%Qc.

(** An optional sign in front of a digit string. *)
Definition take_sign (l : list ascii) : bool * list ascii :=
  match l with
  | "-"%char :: r => (true, r)
  | "+"%char :: r => (false, r)
  | _ => (false, l)
  end.

(** The exponent part of a decimal literal; [None] when malformed. *)
Definition exponent_part (l : list ascii) : option Z :=
  match l with
  | [] => Some 0%Z
  | c :: r =>
      if (code c =? 101)%nat || (code c =? 69)%nat then
        let (negative, ds) := take_sign r in
        match span is_digit ds with
        | (d :: e, []) =>
            let v := digits_value 10 (d :: e) in
            Some (if negative then - v else v)%Z
        | _ => None
        end
      else None
  end.

(** [digits [. digits] [exponent]] or [. digits [exponent]] *)
Definition unsigned_decimal (l : list ascii) : option Qc :=
  let (ip, r1) := span is_digit l in
  let (fp, r2) :=
    match r1 with
    | "."%char :: r => span is_digit r
    | _ => ([], r1)
    end in
  match (ip ++ fp)%list with
  | [] => None
  | ds =>
      match exponent_part r2 with
      | Some e =>
          Some (Q2Qc (inject_Z (digits_value 10 ds))
                * pow10 (e - Z.of_nat (List.length fp)))%Qc
      | None => None
      end
  end.

Definition radix_literal (base : Z) (ok : ascii -> bool) (ds : list ascii)
  : number :=
  match ds with
  | [] => NaN
  | _ => if forallb ok ds then of_Z (digits_value base ds) else NaN
  end.

Definition StringToNumber (s : string) : number :=
  let t := trim s in
  if String.eqb t EmptyString then of_Z 0
  else if String.eqb t "Infinity" || String.eqb t "+Infinity" then PosInf
  else if String.eqb t "-Infinity" then NegInf
  else
    match list_ascii_of_string t with
    | "0"%char :: x :: ds =>
        if (code x =? 120)%nat || (code x =? 88)%nat
        then radix_literal 16 is_hex ds
        else if (code x =? 111)%nat || (code x =? 79)%nat
        then radix_literal 8 (in_range 48 55) ds
        else if (code x =? 98)%nat || (code x =? 66)%nat
        then radix_literal 2 (in_range 48 49) ds
        else match unsigned_decimal (list_ascii_of_string t) with
             | Some q => Fin q
             | None => NaN
             end
    | l =>
        let (negative, r) := take_sign l in
        match unsigned_decimal r with
        | Some q => Fin (if negative then - q else q)%Qc
        | None => NaN
        end
    end.

(** ** Primitive values *)

Inductive prim : Type :=
| Undefined
| Null
| Bool (b : bool)
| Num (n : number)
| Str (s : string).

(** What the model leaves to the host: the digits of a number that is
    not a plain integer, and regular-expression matching
    ([RegExp_test p s] is [new RegExp(p).test(s)], [None] when the
    pattern does not compile). *)
Class Host : Type := {
  fraction_to_string : Qc -> string;
  RegExp_test : string -> string -> option bool
}.

Definition is_integer (q : Qc) : bool := Qc_eqb (Q2Qc (inject_Z (Qfloor q))) q.

Section Coercions.
Context `{Host}.

(** [Number.prototype.toString]: integers below 10^21 print in
    decimal. *)
Definition NumberToString (n : number) : string :=
  match n with
  | NaN => "NaN"
  | PosInf => "Infinity"
  | NegInf => "-Infinity"
  | Fin q =>
      if is_integer q && (Z.abs (Qfloor q) <? 10 ^ 21)%Z
      then NilZero.string_of_int (Z.to_int (Qfloor q))
      else fraction_to_string q
  end.

(** [String(v)] *)
Definition ToString (v : prim) : string :=
  match v with
  | Undefined => "undefined"
  | Null => "null"
  | Bool true => "true"
  | Bool false => "false"
  | Num n => NumberToString n
  | Str s => s
  end.

End Coercions.

(** [Number(v)] *)
Definition ToNumber (v : prim) : number :=
  match v with
  | Undefined => NaN
  | Null => of_Z 0
  | Bool true => of_Z 1
  | Bool false => of_Z 0
  | Num n => n
  | Str s => StringToNumber s
  end.

(** [x === y] *)
Definition strict_eq (x y : prim) : bool :=
  match x, y with
  | Undefined, Undefined | Null, Null => true
  | Bool a, Bool b => Bool.eqb a b
  | Num a, Num b => eqb a b
  | Str a, Str b => String.eqb a b
  | _, _ => false
  end.

(** SameValueZero, the equality of [Set]: as [===] but [NaN] equals
    itself. *)
Definition same_value_zero (x y : prim) : bool :=
  match x, y with
  | Num NaN, Num NaN => true
  | _, _ => strict_eq x y
  end.

(** [x == y]: [null] and [undefined] equal each other and nothing else;
    two strings and two booleans compare as such; every other pair
    compares as numbers. *)
Definition loose_eq (x y : prim) : bool :=
  match x, y with
  | (Undefined | Null), (Undefined | Null) => true
  | (Undefined | Null), _ | _, (Undefined | Null) => false
  | Str a, Str b => String.eqb a b
  | Bool a, Bool b => Bool.eqb a b
  | _, _ => eqb (ToNumber x) (ToNumber y)
  end.

Definition is_NaN (n : number) : bool :=
  match n with NaN => true | _ => false end.

(** The abstract relational comparison [x < y]: two strings compare by
    code units, every other pair as numbers; [None] is the undefined
    outcome, reached when either side is [NaN]. *)
Definition less_than (x y : prim) : option bool :=
  match x, y with
  | Str a, Str b => Some (String.ltb a b)
  | _, _ =>
      let nx := ToNumber x in
      let ny := ToNumber y in
      if is_NaN nx || is_NaN ny then None else Some (ltb nx ny)
  end.

Definition js_lt (x y : prim) : bool :=
  match less_than x y with Some true => true | _ => false end.
Definition js_gt (x y : prim) : bool :=
  match less_than y x with Some true => true | _ => false end.
Definition js_le (x y : prim) : bool :=
  match less_than y x with Some false => true | _ => false end.
Definition js_ge (x y : prim) : bool :=
  match less_than x y with Some false => true | _ => false end.

(** [parseInt(s)]: leading white space, a sign, then the longest run of
    digits (hexadecimal after [0x]); [NaN] when there is none. *)
Definition parseInt (s : string) : number :=
  let (negative, r) := take_sign (list_ascii_of_string (trimStart s)) in
  let (base, body) :=
    match r with
    | "0"%char :: x :: ds =>
        if (code x =? 120)%nat || (code x =? 88)%nat then (16%Z, ds) else (10%Z, r)
    | _ => (10%Z, r)
    end in
  let (ds, _) := span (if (base =? 16)%Z then is_hex else is_digit) body in
  match ds with
  | [] => NaN
  | _ => let v := digits_value base ds in of_Z (if negative then - v else v)
  end.

(** ** Objects used as maps and arrays

    An object is the list of its own properties in insertion order
    (integer-like keys are not moved to the front). *)

Definition object (V : Type) : Type := list (string * V).

(** [o[k]], [None] standing for [undefined] *)
Fixpoint prop_get {V} (k : string) (o : object V) : option V :=
  match o with
  | [] => None
  | (k', v) :: o' => if String.eqb k k' then Some v else prop_get k o'
  end.

(** [o[k] = v]: an existing property keeps its place. *)
Fixpoint prop_set {V} (k : string) (v : V) (o : object V) : object V :=
  match o with
  | [] => [(k, v)]
  | (k', v') :: o' =>
      if String.eqb k k' then (k, v) :: o' else (k', v') :: prop_set k v o'
  end.

(** [k in o] *)
Definition has_prop {V} (k : string) (o : object V) : bool :=
  match prop_get k o with Some _ => true | None => false end.

(** A record of the table. *)
Definition record : Type := object prim.

(** [item[field]] *)
Definition field (item : record) (name : string) : prim :=
  match prop_get name item with Some v => v | None => Undefined end.

(** [xs.sort(cmp)]: the sort is stable; [x] stays in front of [y]
    unless [cmp x y] is positive. With a comparator that is not a
    consistent order the standard leaves the outcome to the engine, and
    this is one of the permitted ones. *)
Fixpoint sort_insert {A} (cmp : A -> A -> number) (x : A) (l : list A)
  : list A :=
  match l with
  | [] => [x]
  | y :: l' =>
      if ltb (of_Z 0) (cmp x y) then y :: sort_insert cmp x l' else x :: l
  end.

Definition Array_sort {A} (cmp : A -> A -> number) (l : list A) : list A :=
  fold_right (sort_insert cmp) [] l.

(** [xs[i]] read as a number: [NaN] (from [undefined]) unless [i] is an
    index of [xs]. *)
Definition element (xs : list number) (i : number) : number :=
  match i with
  | Fin q =>
      if is_integer q && (0 <=? Qfloor q)%Z
      then nth (Z.to_nat (Qfloor q)) xs NaN
      else NaN
  | _ => NaN
  end.

(** [new Set(xs)] in insertion order *)
Fixpoint set_add (x : prim) (s : list prim) : list prim :=
  match s with
  | [] => [x]
  | y :: s' => if same_value_zero x y then s else y :: set_add x s'
  end.

Definition Set_of (xs : list prim) : list prim :=
  fold_left (fun s x => set_add x s) xs [].

End JS.

(* ================================================================== *)
(** * The grouper module                                               *)
(* ================================================================== *)

Module Grouper.
Import JS.

(** A result, or the [TypeError] thrown on the way to it. *)
Inductive attempt (A : Type) : Type :=
| Returned (a : A)
| ThrewTypeError.
Arguments Returned {A} a.
Arguments ThrewTypeError {A}.

Section WithHost.
Context `{Host}.

(** The callback of [groupByFields.map] in [groupByMultiple]. *)
Definition keyPart (item : record) (name : string) : string :=
  let value := field item name in
  match value with
  | Undefined | Null => "__null__"
  | _ => ToString value
  end.

Definition compositeKey (groupByFields : list string) (item : record)
  : string :=
  join "|" (List.map (keyPart item) groupByFields).

(** The body of the loop of [groupByMultiple]: create the group when
    [groups[key]] is undefined, then push the item. *)
Definition pushItem (key : string) (item : record)
    (groups : object (list record)) : object (list record) :=
  match prop_get key groups with
  | None => prop_set key [item] groups
  | Some members => prop_set key (members ++ [item])%list groups
  end.

Definition groupByMultiple (data : list record) (groupByFields : list string)
  : object (list record) :=
  fold_left (fun groups item => pushItem (compositeKey groupByFields item) item groups)
            data [].

(** Two records are placed in the same group. *)
Definition sameGroup (groups : object (list record)) (r1 r2 : record) : Prop :=
  exists key members,
    prop_get key groups = Some members /\ In r1 members /\ In r2 members.

(** The string holds no separator ['|']. *)
Fixpoint noSeparator (s : string) : bool :=
  match s with
  | EmptyString => true
  | String c s' => negb (code c =? 124)%nat && noSeparator s'
  end.

(** The single-field [groupBy]: the key is the raw value, turned into a
    property name. *)
Definition groupBy (data : list record) (groupByField : string)
  : object (list record) :=
  fold_left (fun groups item =>
               pushItem (ToString (field item groupByField)) item groups)
            data [].

(** [calculatePercentile(values, percentile)] *)
Definition calculatePercentile (values : list number) (percentile : number)
  : number :=
  match values with
  | [] => of_Z 0
  | _ =>
      let sorted := Array_sort sub values in
      let len := of_Z (Z.of_nat (List.length sorted)) in
      let index := mul (div percentile (of_Z 100)) (sub len (of_Z 1)) in
      let lower := floor index in
      let upper := ceil index in
      let weight := sub index lower in
      if leb len upper
      then element sorted (sub len (of_Z 1))
      else add (mul (element sorted lower) (sub (of_Z 1) weight))
               (mul (element sorted upper) weight)
  end.

(** What an aggregation stores in the result: a value or, for [array],
    the list of values. *)
Inductive aggregate : Type :=
| One (v : prim)
| Many (vs : list prim).

Definition is_blank (v : prim) : bool :=
  match v with
  | Null | Undefined => true
  | Str s => String.eqb s EmptyString
  | _ => false
  end.

(** [Number(v) || fallback] *)
Definition number_or (fallback : number) (v : prim) : number :=
  if truthy_number (ToNumber v) then ToNumber v else fallback.

(** [values.reduce((sum, v) => sum + (Number(v) || 0), 0)] *)
Definition sumValues (values : list prim) : number :=
  fold_left (fun sum v => add sum (number_or (of_Z 0) v)) values (of_Z 0).

Definition count (A : Type) (xs : list A) : number :=
  of_Z (Z.of_nat (List.length xs)).
Arguments count {A} xs.

(** One turn of the loop of [aggregateGroup]. [aggType] is what
    [aggregations[fieldName]] holds: a string, or [None] for a value
    that is no string, such as the [undefined] the [group] command
    stores for a part without colon; no [case] matches it and the
    default branch calls [aggType.startsWith], which throws. For a
    string the result is the value stored under [fieldName], or [None]
    when the [switch] stores nothing. *)
Definition aggregateField (group : list record) (fieldName : string)
    (aggType : option string) : attempt (option aggregate) :=
  let values :=
    List.filter (fun v => negb (is_blank v))
                (List.map (fun item => field item fieldName) group) in
  match aggType with
  | None => ThrewTypeError
  | Some aggType =>
      Returned (
      if String.eqb aggType "sum" then
        Some (One (Num (sumValues values)))
      else if String.eqb aggType "avg" then
        Some (One (Num (match values with
                        | [] => of_Z 0
                        | _ => div (sumValues values) (count values)
                        end)))
      else if String.eqb aggType "min" then
        Some (One (Num (Math_min (List.map (number_or PosInf) values))))
      else if String.eqb aggType "max" then
        Some (One (Num (Math_max (List.map (number_or NegInf) values))))
      else if String.eqb aggType "count" then
        Some (One (Num (count values)))
      else if String.eqb aggType "count_distinct" then
        Some (One (Num (count (Set_of values))))
      else if String.eqb aggType "first" then
        Some (One (hd Undefined values))
      else if String.eqb aggType "last" then
        Some (One (List.last values Undefined))
      else if String.eqb aggType "concat" then
        Some (One (Str (join ", " (List.map ToString values))))
      else if String.eqb aggType "array" then
        Some (Many values)
      else if startsWith aggType "percentile:" then
        let p := parseInt (nth 1 (split ":" aggType) EmptyString) in
        Some (One (Num (calculatePercentile (List.map ToNumber values) p)))
      else None)
  end.

(** The labels of the [switch] and the prefix tested in its default
    branch. *)
Definition knownAggregation (aggType : string) : bool :=
  existsb (String.eqb aggType)
          ["sum"; "avg"; "min"; "max"; "count"; "count_distinct";
           "first"; "last"; "concat"; "array"]
  || startsWith aggType "percentile:".

(** The aggregations name their kinds by strings. *)
Definition kindsAreStrings (aggregations : object (option string)) : bool :=
  forallb (fun '(_, aggType) =>
             match aggType with Some _ => true | None => false end)
          aggregations.

(** [result[fieldName] = ...] stores an own property, except under the
    name ['__proto__'], where the assignment stores none. *)
Definition aggregateGroup (group : list record)
    (aggregations : object (option string)) : attempt (object aggregate) :=
  fold_left (fun result '(fieldName, aggType) =>
               match result with
               | Returned stored =>
                   match aggregateField group fieldName aggType with
                   | Returned (Some v) =>
                       Returned (if String.eqb fieldName "__proto__" then stored
                                 else prop_set fieldName v stored)
                   | Returned None => Returned stored
                   | ThrewTypeError => ThrewTypeError
                   end
               | ThrewTypeError => ThrewTypeError
               end)
            aggregations (Returned []).

(** [groupAndAggregate(data, groupBy, aggregations)], with [groupBy]
    already an array. Each row is [{_group, _count, ...fields,
    ...aggregates}]. [keyPartValue] is the value given to a grouping
    field. *)
Definition keyPartValue (keyParts : list string) (index : nat) : prim :=
  match nth_error keyParts index with
  | None => Undefined
  | Some part => if String.eqb part "__null__" then Null else Str part
  end.

(** The body of the loop of [groupAndAggregate]. The assignment
    [groupResult[field] = ...] stores no property under ['__proto__']. *)
Definition groupRow (groupByFields : list string)
    (aggregations : object (option string))
    (key : string) (group : list record) : attempt (object aggregate) :=
  let keyParts := split "|" key in
  let groupResult := [("_group", One (Str key)); ("_count", One (Num (count group)))] in
  let withFields :=
    fold_left (fun row '(index, name) =>
                 if String.eqb name "__proto__" then row
                 else prop_set name (One (keyPartValue keyParts index)) row)
              (combine (seq 0 (List.length groupByFields)) groupByFields)
              groupResult in
  match aggregateGroup group aggregations with
  | Returned aggResults =>
      Returned (fold_left (fun row '(name, v) => prop_set name v row)
                          aggResults withFields)
  | ThrewTypeError => ThrewTypeError
  end.

(** The loop over [Object.entries(groups)]: the first group whose
    aggregation throws ends it. *)
Fixpoint groupRows (groupByFields : list string)
    (aggregations : object (option string))
    (groups : object (list record)) : attempt (list (object aggregate)) :=
  match groups with
  | [] => Returned []
  | (key, group) :: rest =>
      match groupRow groupByFields aggregations key group with
      | Returned row =>
          match groupRows groupByFields aggregations rest with
          | Returned rows => Returned (row :: rows)
          | ThrewTypeError => ThrewTypeError
          end
      | ThrewTypeError => ThrewTypeError
      end
  end.

Definition groupAndAggregate (data : list record) (groupByFields : list string)
    (aggregations : object (option string))
  : attempt (list (object aggregate)) :=
  groupRows groupByFields aggregations (groupByMultiple data groupByFields).

(** [pivotTable(data, rowField, columnField, valueField, aggFunction)] *)

Definition cellKey (rowKey colKey : prim) : string :=
  ToString rowKey ++ "::" ++ ToString colKey.

(** The state of the first loop: the two sets and the [values] object. *)
Record collected : Type := {
  rowSet : list prim;
  columnSet : list prim;
  cellValues : object (list number)
}.

Definition collectItem (rowField columnField valueField : string)
    (acc : collected) (item : record) : collected :=
  let rowKey := field item rowField in
  let colKey := field item columnField in
  let val := number_or (of_Z 0) (field item valueField) in
  let key := cellKey rowKey colKey in
  {| rowSet := set_add rowKey (rowSet acc);
     columnSet := set_add colKey (columnSet acc);
     cellValues :=
       match prop_get key (cellValues acc) with
       | None => prop_set key [val] (cellValues acc)
       | Some vals => prop_set key (vals ++ [val])%list (cellValues acc)
       end |}.

Definition collect (data : list record)
    (rowField columnField valueField : string) : collected :=
  fold_left (collectItem rowField columnField valueField) data
            {| rowSet := []; columnSet := []; cellValues := [] |}.

Definition total (vals : list number) : number :=
  fold_left add vals (of_Z 0).

(** The [switch] on [aggFunction]. *)
Definition aggregateCell (aggFunction : string) (vals : list number) : number :=
  if String.eqb aggFunction "sum" then total vals
  else if String.eqb aggFunction "avg" then
    match vals with [] => of_Z 0 | _ => div (total vals) (count vals) end
  else if String.eqb aggFunction "count" then count vals
  else if String.eqb aggFunction "min" then
    match vals with [] => of_Z 0 | _ => Math_min vals end
  else if String.eqb aggFunction "max" then
    match vals with [] => of_Z 0 | _ => Math_max vals end
  else total vals.

(** [values[key] || []] *)
Definition collectedFor (values : object (list number)) (key : string)
  : list number :=
  match prop_get key values with Some vals => vals | None => [] end.

(** The inner loop: [pivot[row][col] = aggValue] stores the cell as an
    own property, except for the column ['__proto__'], where the
    assignment of a number stores nothing (and [pivot[row]['__proto__']]
    reads [Object.prototype]). *)
Definition pivotRow (aggFunction : string) (values : object (list number))
    (columns : list prim) (row : prim) : object number :=
  fold_left (fun cells col =>
               if String.eqb (ToString col) "__proto__" then cells
               else
                 prop_set (ToString col)
                          (aggregateCell aggFunction
                                         (collectedFor values (cellKey row col)))
                          cells)
            columns [].

(** The outer loop: [pivot[row] = {}] stores the row as an own
    property, except for the row ['__proto__'], where the assignment
    sets the prototype of [pivot]. *)
Definition pivotData (aggFunction : string) (c : collected)
  : object (object number) :=
  fold_left (fun pivot row =>
               if String.eqb (ToString row) "__proto__" then pivot
               else
                 prop_set (ToString row)
                          (pivotRow aggFunction (cellValues c) (columnSet c) row)
                          pivot)
            (rowSet c) [].

(** [xs.sort()]: [undefined] goes last, the rest is ordered by the code
    units of the string forms. *)
Definition defaultCompare (x y : prim) : number :=
  if String.ltb (ToString x) (ToString y) then of_Z (-1)
  else if String.ltb (ToString y) (ToString x) then of_Z 1
  else of_Z 0.

Definition is_undefined (v : prim) : bool :=
  match v with Undefined => true | _ => false end.

Definition sortDefault (xs : list prim) : list prim :=
  (Array_sort defaultCompare (List.filter (fun v => negb (is_undefined v)) xs)
   ++ List.filter is_undefined xs)%list.

Record pivot : Type := {
  rows : list prim;
  columns : list prim;
  data : object (object number)
}.

(** [aggFunction] is [None] when the argument is left out; the default
    is ['sum']. *)
Definition pivotTable (table : list record)
    (rowField columnField valueField : string) (aggFunction : option string)
  : pivot :=
  let agg := match aggFunction with Some f => f | None => "sum" end in
  let c := collect table rowField columnField valueField in
  {| rows := sortDefault (rowSet c);
     columns := sortDefault (columnSet c);
     data := pivotData agg c |}.

End WithHost.
End Grouper.

(* ================================================================== *)
(** * The cleaning pipeline                                            *)
(* ================================================================== *)

Module Cleaner.
Import JS.

(** ** The store

    An element of a table is a primitive value or a reference to a
    record; a table is a reference to an array or a value that is not an
    array. References index the two components of the store. *)

Inductive item : Type :=
| Prim (v : prim)
| Ref (r : nat).

Inductive table : Type :=
| Array (a : nat)
| NotArray (v : item).

Record store : Type := {
  records : list record;
  arrays : list (list item)
}.

Inductive error : Type :=
| TypeError
| SyntaxError.

Inductive outcome (A : Type) : Type :=
| Return (a : A) (s : store)
| Throw (e : error) (s : store).
Arguments Return {A} a s.
Arguments Throw {A} e s.

(** Computations that read and write the store and may throw. *)
Definition M (A : Type) : Type := store -> outcome A.

Definition ret {A} (a : A) : M A := fun s => Return a s.

Definition bind {A B} (m : M A) (k : A -> M B) : M B :=
  fun s =>
    match m s with
    | Return a s' => k a s'
    | Throw e s' => Throw e s'
    end.

Definition throw {A} (e : error) : M A := fun s => Throw e s.

Notation "x <- m ;; k" := (bind m (fun x => k))
  (at level 100, m at next level, right associativity).

Definition recordAt (s : store) (r : nat) : record :=
  match records s !! r with Some p => p | None => [] end.

Definition arrayAt (s : store) (a : nat) : list item :=
  match arrays s !! a with Some xs => xs | None => [] end.

Definition readRecord (r : nat) : M record := fun s => Return (recordAt s r) s.
Definition readArray (a : nat) : M (list item) := fun s => Return (arrayAt s a) s.

(** A fresh object or array literal. *)
Definition newRecord (p : record) : M nat :=
  fun s => Return (List.length (records s))
                  {| records := (records s ++ [p])%list; arrays := arrays s |}.

Definition newArray (xs : list item) : M nat :=
  fun s => Return (List.length (arrays s))
                  {| records := records s; arrays := (arrays s ++ [xs])%list |}.

(** [item[k] = v] on the record [r] *)
Definition writeField (r : nat) (k : string) (v : prim) : M unit :=
  fun s => Return tt
                  {| records := <[r := prop_set k v (recordAt s r)]> (records s);
                     arrays := arrays s |}.

(** Overwriting the elements of the array [a] in place. *)
Definition writeArray (a : nat) (xs : list item) : M unit :=
  fun s => Return tt
                  {| records := records s; arrays := <[a := xs]> (arrays s) |}.

(** [item[k]]: a [TypeError] on [null] and [undefined]; [undefined] on
    the other primitive values. *)
Definition getProp (x : item) (k : string) : M prim :=
  match x with
  | Ref r => p <- readRecord r ;; ret (field p k)
  | Prim (Undefined | Null) => throw TypeError
  | Prim _ => ret Undefined
  end.

Fixpoint mapM {A B} (f : A -> M B) (l : list A) : M (list B) :=
  match l with
  | [] => ret []
  | x :: l' => y <- f x ;; ys <- mapM f l' ;; ret (y :: ys)
  end.

Fixpoint filterM {A} (keep : A -> M bool) (l : list A) : M (list A) :=
  match l with
  | [] => ret []
  | x :: l' =>
      b <- keep x ;; ys <- filterM keep l' ;; ret (if b then x :: ys else ys)
  end.

(** [if (Array.isArray(cleaned)) cleaned = cleaned.filter(keep)] *)
Definition filterTable (keep : item -> M bool) (cleaned : table) : M table :=
  match cleaned with
  | Array a =>
      xs <- readArray a ;; ys <- filterM keep xs ;;
      a' <- newArray ys ;; ret (Array a')
  | NotArray _ => ret cleaned
  end.

(** [if (Array.isArray(cleaned)) cleaned = cleaned.map(f)] *)
Definition mapTable (f : item -> M item) (cleaned : table) : M table :=
  match cleaned with
  | Array a =>
      xs <- readArray a ;; ys <- mapM f xs ;;
      a' <- newArray ys ;; ret (Array a')
  | NotArray _ => ret cleaned
  end.

(** ** The options *)

Record filterSpec : Type := {
  filterColumn : string;
  operator : string;
  value : string
}.

Record transformSpec : Type := {
  transformColumn : string;
  transformFn : string
}.

Record sortSpec : Type := {
  sortColumn : string;
  order : option string
}.

(** [None] is an option left out. *)
Record options : Type := {
  removeEmpty : bool;
  deduplicate : bool;
  key : option string;
  trim : bool;
  case : option string;
  columns : option (list string);
  filter : option filterSpec;
  transform : option transformSpec;
  sort : option sortSpec;
  limit : option number
}.

Definition nonEmpty (s : string) : bool := negb (String.eqb s EmptyString).

Definition is_blank (v : prim) : bool :=
  match v with
  | Null | Undefined => true
  | Str s => String.eqb s EmptyString
  | _ => false
  end.

Section WithHost.
Context `{Host}.

(** ** Stage 1: empty rows *)

Definition keepNonEmpty (x : item) : M bool :=
  match x with
  | Prim (Str s) => ret (nonEmpty (JS.trim s))
  | Ref r =>
      p <- readRecord r ;;
      ret (existsb (fun '(_, v) => negb (is_blank v)) p)
  | Prim _ => ret true
  end.

(** ** Stage 2: duplicates *)

Definition quote : string := String (ascii_of_nat 34) EmptyString.

Definition hexDigit (n : nat) : string :=
  String (ascii_of_nat (if (n <? 10)%nat then 48 + n else 87 + n)) EmptyString.

Definition escapeChar (c : ascii) : string :=
  let n := code c in
  if (n =? 34)%nat then "\" ++ quote
  else if (n =? 92)%nat then "\\"
  else if (n =? 8)%nat then "\b"
  else if (n =? 9)%nat then "\t"
  else if (n =? 10)%nat then "\n"
  else if (n =? 12)%nat then "\f"
  else if (n =? 13)%nat then "\r"
  else if (n <? 32)%nat then "\u00" ++ hexDigit (n / 16) ++ hexDigit (n mod 16)
  else String c EmptyString.

Definition quoteString (s : string) : string :=
  quote ++ String.concat EmptyString (List.map escapeChar (list_ascii_of_string s))
        ++ quote.

(** [JSON.stringify(v)] on a primitive value; [None] is [undefined]. *)
Definition stringifyPrim (v : prim) : option string :=
  match v with
  | Undefined => None
  | Null => Some "null"
  | Bool true => Some "true"
  | Bool false => Some "false"
  | Num (Fin q) => Some (NumberToString (Fin q))
  | Num _ => Some "null"
  | Str s => Some (quoteString s)
  end.

Definition stringifyRecord (p : record) : string :=
  "{" ++ join ","
           (List.flat_map
              (fun '(k, v) =>
                 match stringifyPrim v with
                 | Some j => [quoteString k ++ ":" ++ j]
                 | None => []
                 end) p)
      ++ "}".

Definition JSON_stringify (x : item) : M prim :=
  match x with
  | Prim v =>
      ret (match stringifyPrim v with Some j => Str j | None => Undefined end)
  | Ref r => p <- readRecord r ;; ret (Str (stringifyRecord p))
  end.

(** [options.key ? item[options.key] : JSON.stringify(item)] *)
Definition dedupKey (k : option string) (x : item) : M prim :=
  match k with
  | Some name => if nonEmpty name then getProp x name else JSON_stringify x
  | None => JSON_stringify x
  end.

(** The [filter] callback with its [seen] set. *)
Fixpoint dedupFrom (k : option string) (seen : list prim) (xs : list item)
  : M (list item) :=
  match xs with
  | [] => ret []
  | x :: xs' =>
      id <- dedupKey k x ;;
      if existsb (same_value_zero id) seen then dedupFrom k seen xs'
      else ys <- dedupFrom k (set_add id seen) xs' ;; ret (x :: ys)
  end.

Definition dedupTable (k : option string) (cleaned : table) : M table :=
  match cleaned with
  | Array a =>
      xs <- readArray a ;; ys <- dedupFrom k [] xs ;;
      a' <- newArray ys ;; ret (Array a')
  | NotArray _ => ret cleaned
  end.

(** ** Stages 3 to 5: a fresh record for every record *)

Definition rebuild (f : record -> record) (x : item) : M item :=
  match x with
  | Ref r => p <- readRecord r ;; r' <- newRecord (f p) ;; ret (Ref r')
  | Prim _ => ret x
  end.

Definition trimRecord (p : record) : record :=
  fold_left (fun result '(k, v) =>
               prop_set k (match v with Str s => Str (JS.trim s) | _ => v end)
                        result)
            p [].

(** A string value under a case that is none of the three is not
    copied. *)
Definition caseRecord (c : string) (p : record) : record :=
  fold_left (fun result '(k, v) =>
               match v with
               | Str s =>
                   if String.eqb c "upper" then prop_set k (Str (toUpperCase s)) result
                   else if String.eqb c "lower" then prop_set k (Str (toLowerCase s)) result
                   else if String.eqb c "title" then prop_set k (Str (titleCase s)) result
                   else result
               | _ => prop_set k v result
               end)
            p [].

Definition selectColumns (cols : list string) (p : record) : record :=
  fold_left (fun result col =>
               if has_prop col p then prop_set col (field p col) result
               else result)
            cols [].

(** ** Stage 6: filter *)

Definition matches (f : filterSpec) (x : item) : M bool :=
  itemValue <- getProp x (filterColumn f) ;;
  let op := operator f in
  if String.eqb op "eq" then ret (loose_eq itemValue (Str (value f)))
  else if String.eqb op "neq" then ret (negb (loose_eq itemValue (Str (value f))))
  else if String.eqb op "gt" then ret (js_gt itemValue (Str (value f)))
  else if String.eqb op "lt" then ret (js_lt itemValue (Str (value f)))
  else if String.eqb op "gte" then ret (js_ge itemValue (Str (value f)))
  else if String.eqb op "lte" then ret (js_le itemValue (Str (value f)))
  else if String.eqb op "contains" then
    ret (includes (ToString itemValue) (value f))
  else if String.eqb op "startsWith" then
    ret (startsWith (ToString itemValue) (value f))
  else if String.eqb op "endsWith" then
    ret (endsWith (ToString itemValue) (value f))
  else if String.eqb op "regex" then
    match RegExp_test (value f) (ToString itemValue) with
    | Some b => ret b
    | None => throw SyntaxError
    end
  else ret true.

(** The labels of the [switch]. *)
Definition knownOperator (op : string) : bool :=
  existsb (String.eqb op)
          ["eq"; "neq"; "gt"; "lt"; "gte"; "lte";
           "contains"; "startsWith"; "endsWith"; "regex"].

(** ** Stage 7: field transform *)

(** The value assigned to [item[column]], [None] when the [switch]
    assigns nothing. *)
Definition transformed (fn : string) (v : prim) : option prim :=
  if String.eqb fn "uppercase" then Some (Str (toUpperCase (ToString v)))
  else if String.eqb fn "lowercase" then Some (Str (toLowerCase (ToString v)))
  else if String.eqb fn "capitalize" then
    Some (Str (toUpperCase (charAt0 (ToString v))
               ++ toLowerCase (slice1 (ToString v))))
  else if String.eqb fn "trim" then Some (Str (JS.trim (ToString v)))
  else if String.eqb fn "number" then Some (Num (ToNumber v))
  else if String.eqb fn "string" then Some (Str (ToString v))
  else if startsWith fn "replace:" then
    let args := split "," (nth 1 (split ":" fn) EmptyString) in
    let from := nth 0 args EmptyString in
    let to := nth 1 args "," in
    Some (Str (join to (split from (ToString v))))
  else if startsWith fn "multiply:" then
    let factor := StringToNumber (nth 1 (split ":" fn) EmptyString) in
    Some (Num (mul (ToNumber v) factor))
  else if startsWith fn "divide:" then
    let divisor := StringToNumber (nth 1 (split ":" fn) EmptyString) in
    Some (Num (div (ToNumber v) divisor))
  else None.

(** The labels of the [switch] and the prefixes tested in its default
    branch. *)
Definition knownTransform (fn : string) : bool :=
  existsb (String.eqb fn)
          ["uppercase"; "lowercase"; "capitalize"; "trim"; "number"; "string"]
  || existsb (startsWith fn) ["replace:"; "multiply:"; "divide:"].

(** The [map] callback: it writes to the record it is given and
    returns that same record. *)
Definition transformItem (t : transformSpec) (x : item) : M item :=
  if nonEmpty (transformColumn t) then
    v <- getProp x (transformColumn t) ;;
    match v, x with
    | Undefined, _ => ret x
    | _, Ref r =>
        match transformed (transformFn t) v with
        | Some v' => _ <- writeField r (transformColumn t) v' ;; ret x
        | None => ret x
        end
    | _, Prim _ => ret x
    end
  else ret x.

(** ** Stage 8: sort *)

Definition compareItems (o : sortSpec) (a b : item) : M number :=
  let asc := match order o with
             | Some d => String.eqb d "asc"
             | None => true
             end in
  aVal <- getProp a (sortColumn o) ;;
  bVal <- getProp b (sortColumn o) ;;
  if js_lt aVal bVal then ret (of_Z (if asc then -1 else 1))
  else if js_gt aVal bVal then ret (of_Z (if asc then 1 else -1))
  else ret (of_Z 0).

Fixpoint insertM {A} (cmp : A -> A -> M number) (x : A) (l : list A)
  : M (list A) :=
  match l with
  | [] => ret [x]
  | y :: l' =>
      c <- cmp x y ;;
      if ltb (of_Z 0) c then r <- insertM cmp x l' ;; ret (y :: r)
      else ret (x :: l)
  end.

Fixpoint sortM {A} (cmp : A -> A -> M number) (l : list A) : M (list A) :=
  match l with
  | [] => ret []
  | x :: l' => sorted <- sortM cmp l' ;; insertM cmp x sorted
  end.

Definition is_undefined (x : item) : bool :=
  match x with Prim Undefined => true | _ => false end.

Definition is_nullish (x : item) : bool :=
  match x with Prim (Undefined | Null) => true | _ => false end.

(** [cleaned.sort(cmp)]: the array itself is reordered and returned;
    [undefined] elements go last without being compared. *)
Definition sortTable (o : sortSpec) (cleaned : table) : M table :=
  match cleaned with
  | Array a =>
      xs <- readArray a ;;
      sorted <- sortM (compareItems o)
                      (List.filter (fun x => negb (is_undefined x)) xs) ;;
      _ <- writeArray a (sorted ++ List.filter is_undefined xs)%list ;;
      ret (Array a)
  | NotArray _ => ret cleaned
  end.

(** ** Stage 9: limit *)

Definition truncate (q : Qc) : Z :=
  if Qc_ltb q 0%Qc then Qceiling q else Qfloor q.

(** The number of elements [xs.slice(0, n)] keeps out of [len]. *)
Definition sliceEnd (len : nat) (n : number) : nat :=
  match n with
  | NaN | NegInf => 0
  | PosInf => len
  | Fin q =>
      let z := truncate q in
      if (z <? 0)%Z then Z.to_nat (Z.max (Z.of_nat len + z) 0)
      else Z.to_nat (Z.min z (Z.of_nat len))
  end.

Definition sliceTable (n : number) (cleaned : table) : M table :=
  match cleaned with
  | Array a =>
      xs <- readArray a ;;
      a' <- newArray (firstn (sliceEnd (List.length xs) n) xs) ;;
      ret (Array a')
  | NotArray _ => ret cleaned
  end.

(** ** [cleanData(data, options)] *)

Definition stage {A} (enabled : option A) (run : A -> table -> M table)
    (cleaned : table) : M table :=
  match enabled with
  | Some a => run a cleaned
  | None => ret cleaned
  end.

(** The truthiness test in front of each stage. *)
Definition flag (b : bool) : option unit := if b then Some tt else None.
Definition givenString (o : option string) : option string :=
  match o with Some s => if nonEmpty s then Some s else None | None => None end.
Definition givenNumber (o : option number) : option number :=
  match o with Some n => if truthy_number n then Some n else None | None => None end.

Definition cleanData (data : table) (o : options) : M table :=
  cleaned <- stage (flag (removeEmpty o)) (fun _ => filterTable keepNonEmpty) data ;;
  cleaned <- stage (flag (deduplicate o)) (fun _ => dedupTable (key o)) cleaned ;;
  cleaned <- stage (flag (trim o)) (fun _ => mapTable (rebuild trimRecord)) cleaned ;;
  cleaned <- stage (givenString (case o))
                   (fun c => mapTable (rebuild (caseRecord c))) cleaned ;;
  cleaned <- stage (columns o)
                   (fun cols => mapTable (rebuild (selectColumns cols))) cleaned ;;
  cleaned <- stage (filter o) (fun f => filterTable (matches f)) cleaned ;;
  cleaned <- stage (transform o) (fun t => mapTable (transformItem t)) cleaned ;;
  cleaned <- stage (sort o) sortTable cleaned ;;
  cleaned <- stage (givenNumber (limit o)) sliceTable cleaned ;;
  ret cleaned.

End WithHost.
End Cleaner.

(* ================================================================== *)
(** * A host and sample tables                                         *)
(* ================================================================== *)

Module Samples.
Import JS.

(** The digits after the decimal point of [num / den], at most [n]. *)
Fixpoint decimals (n : nat) (num den : Z) : string :=
  match n with
  | O => EmptyString
  | S n' =>
      if (num =? 0)%Z then EmptyString
      else String (ascii_of_nat (48 + Z.to_nat (num * 10 / den)))
                  (decimals n' ((num * 10) mod den) den)
  end.

(** A host to run the samples on. It prints a fraction with at most
    twenty decimals and matches the patterns made of word characters
    only, which stand for themselves. No sample below has a fraction to
    print or a pattern to match. *)
Definition sampleHost : Host := {|
  fraction_to_string q :=
    let num := Z.abs (Qnum q) in
    let den := Z.pos (Qden q) in
    (if (Qnum q <? 0)%Z then "-" else EmptyString)
    ++ NilZero.string_of_int (Z.to_int (num / den))
    ++ "." ++ decimals 20 (num mod den) den;
  RegExp_test pattern s :=
    if forallb is_word (list_ascii_of_string pattern)
    then Some (includes s pattern) else None
|}.

Definition int (z : Z) : prim := Num (of_Z z).

(** Options with one stage and every other stage left out. *)
Definition withLimit (n : number) : Cleaner.options := {|
  Cleaner.removeEmpty := false;
  Cleaner.deduplicate := false;
  Cleaner.key := None;
  Cleaner.trim := false;
  Cleaner.case := None;
  Cleaner.columns := None;
  Cleaner.filter := None;
  Cleaner.transform := None;
  Cleaner.sort := None;
  Cleaner.limit := Some n
|}.

Definition condition (column op operand : string) : Cleaner.filterSpec :=
  {| Cleaner.filterColumn := column;
     Cleaner.operator := op;
     Cleaner.value := operand |}.

Definition withFilter (column op operand : string) : Cleaner.options := {|
  Cleaner.removeEmpty := false;
  Cleaner.deduplicate := false;
  Cleaner.key := None;
  Cleaner.trim := false;
  Cleaner.case := None;
  Cleaner.columns := None;
  Cleaner.filter := Some (condition column op operand);
  Cleaner.transform := None;
  Cleaner.sort := None;
  Cleaner.limit := None
|}.

Definition withTransform (column fn : string) : Cleaner.options := {|
  Cleaner.removeEmpty := false;
  Cleaner.deduplicate := false;
  Cleaner.key := None;
  Cleaner.trim := false;
  Cleaner.case := None;
  Cleaner.columns := None;
  Cleaner.filter := None;
  Cleaner.transform :=
    Some {| Cleaner.transformColumn := column; Cleaner.transformFn := fn |};
  Cleaner.sort := None;
  Cleaner.limit := None
|}.

Definition withSort (column : string) (direction : option string)
  : Cleaner.options := {|
  Cleaner.removeEmpty := false;
  Cleaner.deduplicate := false;
  Cleaner.key := None;
  Cleaner.trim := false;
  Cleaner.case := None;
  Cleaner.columns := None;
  Cleaner.filter := None;
  Cleaner.transform := None;
  Cleaner.sort :=
    Some {| Cleaner.sortColumn := column; Cleaner.order := direction |};
  Cleaner.limit := None
|}.

(** [[{name: "bob", age: "18"}, {name: "amy", age: "9"}]], the way a
    CSV file is decoded: every value is a string. *)
Definition people : Cleaner.store := {|
  Cleaner.records :=
    [ [("name", Str "bob"); ("age", Str "18")];
      [("name", Str "amy"); ("age", Str "9")] ];
  Cleaner.arrays := [ [Cleaner.Ref 0; Cleaner.Ref 1] ]
|}.

(** [[{n: 2}, {n: 1}]] *)
Definition twoOne : Cleaner.store := {|
  Cleaner.records := [ [("n", int 2)]; [("n", int 1)] ];
  Cleaner.arrays := [ [Cleaner.Ref 0; Cleaner.Ref 1] ]
|}.

(** [{name: ' bob ', note: 'x ', age: 18}] *)
Definition padded : record :=
  [("name", Str " bob "); ("note", Str "x "); ("age", int 18)].

(** A table for the pivot with a column value ['__proto__']. *)
Definition protoSales : list record :=
  [ [("r", Str "x"); ("c", Str "__proto__"); ("v", Str "1")];
    [("r", Str "y"); ("c", Str "p"); ("v", Str "3")] ].

(** Records for the grouper. *)
Definition nullF : record := [("f", Null)].
Definition emptyF : record := [("f", Str EmptyString)].
Definition sentinelF : record := [("f", Str "__null__")].

Definition leftBar : record := [("f", Str "a|b"); ("g", Str "c")].
Definition rightBar : record := [("f", Str "a"); ("g", Str "b|c")].

Definition nullG : record := [("f", Str "a"); ("g", Null); ("h", Str "|b")].
Definition emptyG : record :=
  [("f", Str "a|__null__"); ("g", Str EmptyString); ("h", Str "b")].

(** The table of the pivot scenario of the specification. *)
Definition sales : list record :=
  [ [("r", Str "x"); ("c", Str "p"); ("v", Str "1")];
    [("r", Str "x"); ("c", Str "q"); ("v", Str "2")];
    [("r", Str "y"); ("c", Str "p"); ("v", Str "3")] ].

End Samples.

(* ================================================================== *)
(** * The names every object inherits                                  *)
(* ================================================================== *)

Module Prototype.

(** The property names of [Object.prototype]. The model reads a name
    a record lacks as [undefined]; the code agrees with it on the names
    that are none of these, and finds the inherited property on these
    ([groups[key]] is then no array, and [col in item] holds). The
    statements below that depend on it are about names outside this
    list. *)
Definition inherited (k : string) : bool :=
  existsb (String.eqb k)
          ["__proto__"; "constructor"; "hasOwnProperty"; "isPrototypeOf";
           "propertyIsEnumerable"; "toLocaleString"; "toString"; "valueOf";
           "__defineGetter__"; "__defineSetter__";
           "__lookupGetter__"; "__lookupSetter__"].

Definition ownNames (names : list string) : bool :=
  forallb (fun k => negb (inherited k)) names.

End Prototype.

(* ================================================================== *)
(** * Group statistics                                                 *)
(* ================================================================== *)

Module GroupStats.
Import JS.

(** The number of records held by all the groups together. *)
Definition sizes (groups : object (list record)) : nat :=
  list_sum (List.map (fun g => List.length (snd g)) groups).

(** One entry of the result of [getGroupStats]. *)
Record groupStat : Type := {
  group : string;
  count : number;
  sum : number;
  avg : number;
  min : number;
  max : number
}.

(** [group.map(item => Number(item[statField])).filter(v => !isNaN(v))] *)
Definition numericValues (statField : string) (members : list record)
  : list number :=
  List.filter (fun v => negb (is_NaN v))
              (List.map (fun item => ToNumber (field item statField)) members).

(** The body of the loop of [getGroupStats]. *)
Definition statsOf (statField : string) (key : string) (members : list record)
  : groupStat :=
  let values := numericValues statField members in
  match values with
  | [] =>
      {| group := key; count := of_Z 0; sum := of_Z 0; avg := of_Z 0;
         min := of_Z 0; max := of_Z 0 |}
  | _ =>
      {| group := key;
         count := Grouper.count _ values;
         sum := Grouper.total values;
         avg := div (Grouper.total values) (Grouper.count _ values);
         min := Math_min values;
         max := Math_max values |}
  end.

(** [getGroupStats(groups, statField)]. The order of the result is
    that of [String.prototype.localeCompare], which depends on the
    locale of the host and is a parameter here. *)
Definition getGroupStats (localeCompare : string -> string -> number)
    (groups : object (list record)) (statField : string) : list groupStat :=
  Array_sort (fun a b => localeCompare (group a) (group b))
             (List.map (fun '(key, members) => statsOf statField key members)
                       groups).

End GroupStats.

(* ================================================================== *)
(** * The command line                                                 *)
(* ================================================================== *)

Module Cli.
Import JS.

(** The string holds no occurrence of the character. *)
Fixpoint lacks (c : ascii) (s : string) : bool :=
  match s with
  | EmptyString => true
  | String a s' => negb (Ascii.eqb a c) && lacks c s'
  end.

(** The string made of one character. *)
Definition one (c : ascii) : string := String c EmptyString.

(** The [clean] command on [--filter]: an expression of three parts
    becomes a filter, any other is left as the string it was. *)
Definition parseFilter (expr : string) : Cleaner.filterSpec + string :=
  match split ":" expr with
  | [column; operator; value] =>
      inl {| Cleaner.filterColumn := column;
             Cleaner.operator := operator;
             Cleaner.value := value |}
  | _ => inr expr
  end.

(** The [clean] command on [--transform]: with two parts or more, the
    first two become the transform. *)
Definition parseTransform (expr : string) : Cleaner.transformSpec + string :=
  match split ":" expr with
  | column :: transform :: _ =>
      inl {| Cleaner.transformColumn := column;
             Cleaner.transformFn := transform |}
  | _ => inr expr
  end.

(** [options.columns.split(',')] *)
Definition parseColumns (expr : string) : list string := split "," expr.

(** The [group] command on [--aggregate]: each part [field:aggType]
    sets [aggregations[field] = aggType]; [None] is the [undefined] a
    part without colon gives. *)
Definition parseAggregate (expr : string) : object (option string) :=
  fold_left (fun aggregations part =>
               let pieces := split ":" part in
               prop_set (nth 0 pieces EmptyString) (nth_error pieces 1)
                        aggregations)
            (split "," expr) [].

End Cli.

(* ================================================================== *)
(** * src/index.js: [getStats]                                         *)
(* ================================================================== *)

Module Stats.
Import JS Cleaner.

(** [typeof x] *)
Definition typeof (x : item) : string :=
  match x with
  | Prim Undefined => "undefined"
  | Prim Null => "object"
  | Prim (Bool _) => "boolean"
  | Prim (Num _) => "number"
  | Prim (Str _) => "string"
  | Ref _ => "object"
  end.

(** The statistics of an array. *)
Record arrayStats : Type := {
  count : nat;
  fields : list string;
  nullCount : nat;
  emptyCount : nat
}.

(** [{type: typeof data, count: 1}] for a value that is no array, and
    the statistics with [type: 'array'] for an array. *)
Inductive stats : Type :=
| OfValue (type : string)
| OfArray (st : arrayStats).

(** The values of [Object.entries(item)]: the fields of a record, the
    characters of a string, nothing for a number or a boolean, and a
    [TypeError] for [null] and [undefined]. *)
Definition entryValues (x : item) : M (list prim) :=
  match x with
  | Ref r => p <- readRecord r ;; ret (List.map snd p)
  | Prim (Undefined | Null) => throw TypeError
  | Prim (Str s) =>
      ret (List.map (fun c => Str (String c EmptyString)) (list_ascii_of_string s))
  | Prim _ => ret []
  end.

(** The two counters, [nullCount] first. *)
Definition countCell (counts : nat * nat) (v : prim) : nat * nat :=
  match v with
  | Null | Undefined => (S (fst counts), snd counts)
  | Str s => if String.eqb s EmptyString then (fst counts, S (snd counts))
             else counts
  | _ => counts
  end.

Fixpoint countRows (xs : list item) (counts : nat * nat) : M (nat * nat) :=
  match xs with
  | [] => ret counts
  | x :: xs' =>
      vs <- entryValues x ;; countRows xs' (fold_left countCell vs counts)
  end.

Definition getStats (data : table) : M stats :=
  match data with
  | NotArray v => ret (OfValue (typeof v))
  | Array a =>
      xs <- readArray a ;;
      match xs with
      | Ref r :: _ =>
          p <- readRecord r ;;
          counts <- countRows xs (0, 0)%nat ;;
          ret (OfArray {| count := List.length xs;
                          fields := List.map fst p;
                          nullCount := fst counts;
                          emptyCount := snd counts |})
      | _ =>
          ret (OfArray {| count := List.length xs;
                          fields := [];
                          nullCount := 0;
                          emptyCount := 0 |})
      end
  end.

End Stats.

(* ================================================================== *)
(** * src/validator.js: the validation engine                          *)
(* ================================================================== *)

Module Validator.
Import JS.

(** What the [validator] of a rule does on a value: it returns, and
    [!isValid] reads the result as a boolean, or it throws an error
    with a message (an unknown rule name, a pattern that is no regular
    expression). *)
Definition verdict : Type := (bool + string)%type.

(** [new ValidationRule(name, validator, errorMessage)]; [None] is an
    [errorMessage] left out. *)
Record ValidationRule : Type := {
  name : string;
  validator : prim -> verdict;
  errorMessage : option string
}.

(** The built-in rule [required]. *)
Definition required (value : prim) : bool :=
  match value with
  | Null | Undefined => false
  | Str s => negb (String.eqb s EmptyString)
  | _ => true
  end.

(** The message of an error: [rule.errorMessage], or one of the two
    templates of [validateField], which are kept as constructors (the
    first for a rule that fails, the second for a rule that throws,
    with the message of what it threw). *)
Inductive messageText : Type :=
| Custom (text : string)
| Failed (fieldName ruleName : string)
| Threw (fieldName text : string).

(** [{rule, message}] *)
Record fieldError : Type := {
  rule : string;
  message : messageText
}.

(** [{valid, errors}] *)
Record fieldResult : Type := {
  valid : bool;
  errors : list fieldError
}.

(** One turn of the loop of [validateField], with its [try]. *)
Definition ruleErrors (fieldName : string) (value : prim) (r : ValidationRule)
  : list fieldError :=
  match validator r value with
  | inl true => []
  | inl false =>
      [{| rule := name r;
          message := match errorMessage r with
                     | Some text =>
                         if String.eqb text EmptyString
                         then Failed fieldName (name r) else Custom text
                     | None => Failed fieldName (name r)
                     end |}]
  | inr text => [{| rule := name r; message := Threw fieldName text |}]
  end.

(** [this.rules.get(fieldName) || []]; [this.rules] is a [Map] from
    field names to arrays of rules. *)
Definition rulesOf (rules : object (list ValidationRule)) (fieldName : string)
  : list ValidationRule :=
  match prop_get fieldName rules with Some rs => rs | None => [] end.

Definition validateField (rules : object (list ValidationRule))
    (fieldName : string) (value : prim) : fieldResult :=
  let errors := List.flat_map (ruleErrors fieldName value) (rulesOf rules fieldName) in
  {| valid := (List.length errors =? 0)%nat; errors := errors |}.

(** [{valid, fieldResults}], the first under the name of the local
    variable it is read from. *)
Record validation : Type := {
  isValid : bool;
  fieldResults : object fieldResult
}.

(** [validate(data)] on a record. [fieldResults] is a plain object:
    the assignment [fieldResults['__proto__'] = result] sets its
    prototype and stores no property. *)
Definition validate (rules : object (list ValidationRule)) (data : record)
  : validation :=
  fold_left (fun acc '(fieldName, _) =>
               let result := validateField rules fieldName (field data fieldName) in
               {| isValid := isValid acc && valid result;
                  fieldResults :=
                    if String.eqb fieldName "__proto__" then fieldResults acc
                    else prop_set fieldName result (fieldResults acc) |})
            rules {| isValid := true; fieldResults := [] |}.

(** [{row, field, rule: error.rule, message: error.message, value}] *)
Record rowError : Type := {
  row : nat;
  fieldName : string;
  error : fieldError;
  value : prim
}.

(** The body of the loop of [getErrors]. *)
Definition rowErrors (rules : object (list ValidationRule)) (i : nat)
    (data : record) : list rowError :=
  let validation := validate rules data in
  if isValid validation then []
  else
    List.flat_map
      (fun '(name, result) =>
         if valid result then []
         else List.map (fun e => {| row := i; fieldName := name; error := e;
                                    value := field data name |})
                       (errors result))
      (fieldResults validation).

(** [getErrors(dataArray)] on an array of records. *)
Definition getErrors (rules : object (list ValidationRule))
    (dataArray : list record) : list rowError :=
  List.flat_map (fun '(i, data) => rowErrors rules i data)
                (combine (seq 0 (List.length dataArray)) dataArray).

(** The rules [addRule('age', 'required')] leaves in a new validator. *)
Definition ageRequired : object (list ValidationRule) :=
  [("age", [{| name := "required";
               validator := fun value => inl (required value);
               errorMessage := None |}])].

(** A rule on the field ['__proto__'] that no value passes. *)
Definition protoRule : object (list ValidationRule) :=
  [("__proto__", [{| name := "never";
                     validator := fun _ => inl false;
                     errorMessage := None |}])].

End Validator.

(* ================================================================== *)
(** * Statements about computations over the store                     *)
(* ================================================================== *)

Module Frames.
Import JS Cleaner.

(** The store an outcome leaves, returned or thrown. *)
Definition finalStore {A} (o : outcome A) : store :=
  match o with
  | Return _ s => s
  | Throw _ s => s
  end.

(** [s'] holds every record and array of [s], unchanged and at the
    same reference, and maybe more. *)
Definition extends (s s' : store) : Prop :=
  exists newRecords newArrays,
    records s' = (records s ++ newRecords)%list
    /\ arrays s' = (arrays s ++ newArrays)%list.

(** A computation that only adds to the store. *)
Definition appendOnly {A} (m : M A) : Prop :=
  forall s, extends s (finalStore (m s)).

(** A computation that leaves the store as it is. *)
Definition readOnly {A} (m : M A) : Prop :=
  forall s, finalStore (m s) = s.

(** What holds of the result when the computation returns. *)
Definition returns {A} (m : M A) (s : store) (Q : A -> store -> Prop) : Prop :=
  match m s with
  | Return a s' => Q a s'
  | Throw _ _ => True
  end.

(** A stage that never adds a row, and one that keeps the number of
    rows, when it returns. *)
Definition rowCountOf (s : store) (t : table) : nat :=
  match t with
  | Array a => List.length (arrayAt s a)
  | NotArray _ => 1
  end.

Definition shrinks (st : table -> M table) : Prop :=
  forall t s, returns (st t) s (fun t' s' => rowCountOf s' t' <= rowCountOf s t).

Definition keepsRows (st : table -> M table) : Prop :=
  forall t s, returns (st t) s (fun t' s' => rowCountOf s' t' = rowCountOf s t).

(** The rows of a table that is an array. *)
Definition rowsOf (s : store) (t : table) : list item :=
  match t with
  | Array a => arrayAt s a
  | NotArray _ => []
  end.

(** A stage that only picks rows: the rows it returns are rows of its
    input, in the order they had there. *)
Definition selects (st : table -> M table) : Prop :=
  forall t s, returns (st t) s (fun t' s' => sublist (rowsOf s' t') (rowsOf s t)).

(** A stage that leaves every record as it is and returns an array for
    an array. *)
Definition is_array (t : table) : bool :=
  match t with Array _ => true | NotArray _ => false end.

Definition steady (st : table -> M table) : Prop :=
  forall t s, returns (st t) s
                (fun t' s' => records s' = records s /\ is_array t' = is_array t).

(** An element that is a record, and the cells of the records among
    some rows. *)
Definition is_record (x : item) : bool :=
  match x with Ref _ => true | Prim _ => false end.

Definition cellsOf (s : store) (xs : list item) : list prim :=
  List.flat_map (fun x => match x with
                          | Ref r => List.map snd (recordAt s r)
                          | Prim _ => []
                          end) xs.

Definition is_null (v : prim) : bool :=
  match v with Null | Undefined => true | _ => false end.

Definition is_empty (v : prim) : bool :=
  match v with Str s => String.eqb s EmptyString | _ => false end.

(** What the trim stage does to a value, and what the case stage does
    to it ([None]: the field is not copied). *)
Definition trimmed (v : prim) : option prim :=
  Some (match v with Str s => Str (JS.trim s) | _ => v end).

Definition cased (c : string) (v : prim) : option prim :=
  match v with
  | Str s =>
      if String.eqb c "upper" then Some (Str (toUpperCase s))
      else if String.eqb c "lower" then Some (Str (toLowerCase s))
      else if String.eqb c "title" then Some (Str (titleCase s))
      else None
  | _ => Some v
  end.

(** A record built field by field, [g] giving the value to store. *)
Definition fieldByField (g : prim -> option prim) (p : record) : record :=
  List.flat_map (fun '(k, v) =>
                   match g v with Some v' => [(k, v')] | None => [] end) p.

Definition is_text (v : prim) : bool :=
  match v with Str _ => true | _ => false end.

(** The labels of the [switch] of the case stage. *)
Definition knownCase (c : string) : bool :=
  existsb (String.eqb c) ["upper"; "lower"; "title"].

End Frames.

(* ================================================================== *)
(** * Facts about the runtime                                          *)
(* ================================================================== *)

Module JSFacts.
Import JS.

(** Two numbers with equal values are equal. *)
Lemma Fin_ext (a b : Qc) : (a == b)%Q -> Fin a = Fin b.
Proof. intros E. f_equal. now apply Qc_is_canon. Qed.

Lemma Qc_compare_of_Z (a b : Z) :
  (Q2Qc (inject_Z a) ?= Q2Qc (inject_Z b))%Qc = (a ?= b)%Z.
Proof.
  unfold Qccompare, Q2Qc; cbn [this].
  rewrite <- Qred_compare. unfold Qcompare; cbn. now rewrite !Z.mul_1_r.
Qed.

Lemma Qfloor_of_Z (z : Z) : Qfloor (Q2Qc (inject_Z z)) = z.
Proof.
  unfold Q2Qc; cbn [this].
  rewrite (Qfloor_comp _ _ (Qred_correct (inject_Z z))). apply Qfloor_Z.
Qed.

Lemma Qceiling_of_Z (z : Z) : Qceiling (Q2Qc (inject_Z z)) = z.
Proof.
  unfold Qceiling, Q2Qc; cbn [this].
  rewrite (Qfloor_comp (- Qred (inject_Z z)) (inject_Z (- z))).
  - rewrite Qfloor_Z. lia.
  - rewrite Qred_correct. unfold Qeq; cbn. lia.
Qed.

Lemma floor_of_Z (z : Z) : floor (of_Z z) = of_Z z.
Proof. unfold floor, of_Z at 1. now rewrite Qfloor_of_Z. Qed.

Lemma ceil_of_Z (z : Z) : ceil (of_Z z) = of_Z z.
Proof. unfold ceil, of_Z at 1. now rewrite Qceiling_of_Z. Qed.

Lemma ltb_of_Z (a b : Z) : ltb (of_Z a) (of_Z b) = (a <? b)%Z.
Proof.
  unfold ltb, of_Z, Qc_ltb. rewrite Qc_compare_of_Z.
  unfold Z.ltb. now destruct (a ?= b)%Z.
Qed.

Lemma eqb_of_Z (a b : Z) : eqb (of_Z a) (of_Z b) = (a =? b)%Z.
Proof.
  unfold eqb, of_Z, Qc_eqb. rewrite Qc_compare_of_Z.
  destruct (Z.compare_spec a b), (Z.eqb_spec a b); try reflexivity; lia.
Qed.

Lemma leb_of_Z (a b : Z) : leb (of_Z a) (of_Z b) = (a <=? b)%Z.
Proof.
  unfold leb. rewrite ltb_of_Z, eqb_of_Z.
  destruct (Z.ltb_spec a b), (Z.eqb_spec a b), (Z.leb_spec a b); try reflexivity; lia.
Qed.

Lemma truthy_of_Z (z : Z) : truthy_number (of_Z z) = negb (z =? 0)%Z.
Proof.
  unfold truthy_number, of_Z, Qc_eqb.
  change 0%Qc with (Q2Qc (inject_Z 0)). rewrite Qc_compare_of_Z.
  destruct (Z.compare_spec z 0), (Z.eqb_spec z 0); try reflexivity; lia.
Qed.

Lemma is_integer_of_Z (z : Z) : is_integer (Q2Qc (inject_Z z)) = true.
Proof.
  unfold is_integer, Qc_eqb. rewrite Qfloor_of_Z, Qc_compare_of_Z.
  now rewrite Z.compare_refl.
Qed.

Lemma add_of_Z (a b : Z) : add (of_Z a) (of_Z b) = of_Z (a + b).
Proof.
  unfold add, of_Z. apply Fin_ext. cbn.
  rewrite !Qred_correct. rewrite inject_Z_plus. reflexivity.
Qed.

Lemma sub_of_Z (a b : Z) : sub (of_Z a) (of_Z b) = of_Z (a - b).
Proof.
  unfold sub, neg, add, of_Z. apply Fin_ext. cbn.
  rewrite !Qred_correct. unfold Z.sub. rewrite inject_Z_plus, inject_Z_opp.
  reflexivity.
Qed.

Lemma element_of_Z (xs : list number) (z : Z) :
  (0 <= z)%Z -> element xs (of_Z z) = nth (Z.to_nat z) xs NaN.
Proof.
  intros Hz. unfold element, of_Z.
  rewrite is_integer_of_Z, Qfloor_of_Z.
  destruct (Z.leb_spec 0 z); [reflexivity | lia].
Qed.

Lemma mul_of_Z (a b : Z) : mul (of_Z a) (of_Z b) = of_Z (a * b).
Proof.
  unfold mul, of_Z. apply Fin_ext. cbn.
  rewrite !Qred_correct. rewrite inject_Z_mult. reflexivity.
Qed.

(** ** The order of numbers *)

Lemma Qc_ltb_lt (a b : Qc) : Qc_ltb a b = true <-> (a < b)%Qc.
Proof.
  unfold Qc_ltb, Qccompare, Qclt. rewrite Qlt_alt.
  destruct (a ?= b)%Q; split; congruence.
Qed.

Lemma Qc_ltb_ge (a b : Qc) : Qc_ltb a b = false <-> (b <= a)%Qc.
Proof.
  split.
  - intros F. apply Qcnot_lt_le. intros L. apply Qc_ltb_lt in L. congruence.
  - intros L. destruct (Qc_ltb a b) eqn:E; [| reflexivity].
    apply Qc_ltb_lt in E. exfalso. exact (Qcle_not_lt _ _ L E).
Qed.

Lemma ltb_irrefl (a : number) : ltb a a = false.
Proof.
  destruct a; try reflexivity. cbn. apply Qc_ltb_ge. apply Qcle_refl.
Qed.

Lemma ltb_asym (a b : number) : ltb a b = true -> ltb b a = false.
Proof.
  destruct a, b; cbn; try reflexivity; try discriminate.
  intros L. apply Qc_ltb_lt in L. apply Qc_ltb_ge. now apply Qclt_le_weak.
Qed.

Lemma notAbove_refl (a : number) : notAbove a a.
Proof. apply ltb_irrefl. Qed.

Lemma notAbove_trans (a b c : number) :
  is_NaN b = false -> notAbove a b -> notAbove b c -> notAbove a c.
Proof.
  unfold notAbove.
  destruct a, b, c; cbn; intros N; try reflexivity; try discriminate.
  rewrite !Qc_ltb_ge. intros L1 L2. eapply Qcle_trans; eassumption.
Qed.

Lemma notAbove_antisym (a b : Qc) :
  notAbove (Fin a) (Fin b) -> notAbove (Fin b) (Fin a) -> Fin a = Fin b.
Proof.
  unfold notAbove; cbn. rewrite !Qc_ltb_ge. intros L1 L2.
  f_equal. now apply Qcle_antisym.
Qed.

(** The comparator [(a, b) => a - b] is positive exactly when [b < a]. *)
Lemma difference_positive (a b : Qc) :
  ltb (of_Z 0) (sub (Fin a) (Fin b)) = ltb (Fin b) (Fin a).
Proof.
  cbn. apply eq_true_iff_eq. rewrite !Qc_ltb_lt.
  symmetry. apply Qclt_minus_iff.
Qed.

(** Interpolating between a value and itself gives the value. *)
Lemma blend_same (h w : Qc) :
  add (mul (Fin h) (sub (of_Z 1) (Fin w))) (mul (Fin h) (Fin w)) = Fin h.
Proof.
  cbn. f_equal. change (Q2Qc (inject_Z 1)) with 1%Qc. ring.
Qed.

End JSFacts.

(* ================================================================== *)
(** * Facts about the grouper                                          *)
(* ================================================================== *)

Module GrouperFacts.
Import JS Grouper Samples.

Section WithHost.
Context `{Host}.

(** ** Objects *)

Lemma prop_get_set {V} (k k' : string) (v : V) (o : object V) :
  prop_get k (prop_set k' v o)
  = if String.eqb k k' then Some v else prop_get k o.
Proof.
  induction o as [| [k0 v0] o IH]; cbn.
  - reflexivity.
  - destruct (String.eqb_spec k' k0) as [-> | N]; cbn.
    + destruct (String.eqb_spec k k0); reflexivity.
    + rewrite IH. destruct (String.eqb_spec k k0) as [-> | N'].
      * destruct (String.eqb_spec k0 k'); [congruence | reflexivity].
      * reflexivity.
Qed.

(** A property that holds of the start and is kept by every step holds
    of the outcome of a loop. *)
Lemma fold_left_invariant {A B} (P : A -> Prop) (step : A -> B -> A)
    (xs : list B) (init : A) :
  P init -> (forall acc x, P acc -> P (step acc x)) ->
  P (fold_left step xs init).
Proof.
  revert init. induction xs as [| x xs IH]; intros init P0 K; cbn.
  - exact P0.
  - apply IH; [apply K; exact P0 | exact K].
Qed.

(** ** Group keys *)

(** C10: the separator is not escaped. With the grouping fields
    [f; g], the records [{f: 'a|b', g: 'c'}] and [{f: 'a', g: 'b|c'}]
    have different values for both fields, the same composite key
    'a|b|c', and end up in one group. *)
Theorem separator_in_values_merges_groups :
  field leftBar "f" <> field rightBar "f"
  /\ field leftBar "g" <> field rightBar "g"
  /\ compositeKey ["f"; "g"] leftBar = "a|b|c"
  /\ compositeKey ["f"; "g"] rightBar = "a|b|c"
  /\ groupByMultiple [leftBar; rightBar] ["f"; "g"]
     = [("a|b|c", [leftBar; rightBar])]
  /\ sameGroup (groupByMultiple [leftBar; rightBar] ["f"; "g"])
               leftBar rightBar.
Proof.
  repeat split; try reflexivity; try discriminate.
  exists "a|b|c", [leftBar; rightBar].
  repeat split; cbn; tauto.
Qed.

(** Every member of a group has the key of the group. *)
Lemma members_have_the_key (data : list record) (fields : list string)
    (key : string) (members : list record) (r : record) :
  prop_get key (groupByMultiple data fields) = Some members ->
  In r members -> compositeKey fields r = key.
Proof.
  unfold groupByMultiple. revert key members r.
  apply (fold_left_invariant
           (fun groups => forall key members r,
                prop_get key groups = Some members ->
                In r members -> compositeKey fields r = key)).
  - intros key members r G. discriminate G.
  - intros groups item Inv key members r G I.
    unfold pushItem in G.
    destruct (prop_get (compositeKey fields item) groups) as [old |] eqn:O;
      rewrite prop_get_set in G;
      destruct (String.eqb_spec key (compositeKey fields item)) as [-> | N];
      try (eapply Inv; eassumption).
    + injection G as <-. apply in_app_or in I as [I | [<- | []]].
      * eapply Inv; eassumption.
      * reflexivity.
    + injection G as <-. destruct I as [<- | []]. reflexivity.
Qed.

Lemma sameGroup_same_key (data : list record) (fields : list string)
    (r1 r2 : record) :
  sameGroup (groupByMultiple data fields) r1 r2 ->
  compositeKey fields r1 = compositeKey fields r2.
Proof.
  intros (key & members & G & I1 & I2).
  rewrite (members_have_the_key _ _ _ _ _ G I1).
  now rewrite (members_have_the_key _ _ _ _ _ G I2).
Qed.

(** Segments without separator can be read back from the key. *)
Lemma segment_inj (a b x y : string) :
  noSeparator a = true -> noSeparator b = true ->
  a ++ String "|" x = b ++ String "|" y -> a = b /\ x = y.
Proof.
  revert b. induction a as [| c a IH]; intros [| d b] Na Nb E; cbn in *.
  - injection E as <-. now split.
  - injection E as <- _. discriminate Nb.
  - injection E as -> _. discriminate Na.
  - injection E as <- E.
    apply andb_true_iff in Na as [_ Na]. apply andb_true_iff in Nb as [_ Nb].
    destruct (IH b Na Nb E) as [-> ->]. now split.
Qed.

Lemma join_inj (l1 l2 : list string) :
  List.length l1 = List.length l2 ->
  (forall s, In s l1 -> noSeparator s = true) ->
  (forall s, In s l2 -> noSeparator s = true) ->
  join "|" l1 = join "|" l2 -> l1 = l2.
Proof.
  revert l2. induction l1 as [| a l1 IH]; intros [| b l2] L N1 N2 E;
    try discriminate L; [reflexivity |].
  destruct l1 as [| a' l1], l2 as [| b' l2]; try discriminate L.
  - cbn in E. now subst.
  - unfold join in *. cbn [String.concat] in E.
    apply segment_inj in E as [-> E];
      [| apply N1; now left | apply N2; now left].
    f_equal. apply IH.
    + cbn in L |- *. lia.
    + intros s I. apply N1. now right.
    + intros s I. apply N2. now right.
    + exact E.
Qed.

Lemma map_eq_at {A B} (f g : A -> B) (l : list A) (x : A) :
  List.map f l = List.map g l -> In x l -> f x = g x.
Proof.
  induction l as [| y l IH]; intros E I; [destruct I |].
  injection E as E0 E1. destruct I as [-> | I]; auto.
Qed.

(** C6, as the code has it: a missing or null value gives the key
    segment '__null__' and the empty string gives the empty segment, so
    the two differ. A record with a missing or null grouping value and a
    record with the empty string for the same field are never in one
    group when that field is the only grouping field, or when no key
    segment of either record holds the separator. *)
Theorem null_and_empty_string_are_kept_apart
    (data : list record) (fields : list string) (f : string)
    (r1 r2 : record) :
  In f fields ->
  field r1 f = Null \/ field r1 f = Undefined ->
  field r2 f = Str EmptyString ->
  fields = [f]
  \/ (forall g, In g fields ->
                noSeparator (keyPart r1 g) = true
                /\ noSeparator (keyPart r2 g) = true) ->
  keyPart r1 f = "__null__"
  /\ keyPart r2 f = EmptyString
  /\ ~ sameGroup (groupByMultiple data fields) r1 r2.
Proof.
  intros If N1 E2 Shape.
  assert (K1 : keyPart r1 f = "__null__").
  { unfold keyPart. now destruct N1 as [-> | ->]. }
  assert (K2 : keyPart r2 f = EmptyString).
  { unfold keyPart. now rewrite E2. }
  repeat split; try assumption.
  intros S. apply sameGroup_same_key in S. unfold compositeKey in S.
  destruct Shape as [-> | Free].
  - cbn in S. rewrite K1, K2 in S. discriminate S.
  - apply join_inj in S.
    + apply (map_eq_at _ _ _ f) in S; [| exact If].
      rewrite K1, K2 in S. discriminate S.
    + now rewrite !length_map.
    + intros s I. apply in_map_iff in I as (g & <- & Ig). now apply Free.
    + intros s I. apply in_map_iff in I as (g & <- & Ig). now apply Free.
Qed.

(** ** Aggregates *)

(** C2: a value that coerces to 0 is replaced by an infinity before
    the minimum or the maximum is taken, since [Number(v) || Infinity]
    takes 0 for a missing number. For the values [0, 5] the minimum
    comes out as 5, and for [0, -5] the maximum comes out as -5. *)
Theorem min_and_max_pass_over_zero :
  aggregateGroup [ [("v", int 0)]; [("v", int 5)] ] [("v", Some "min")]
  = Returned [("v", One (int 5))]
  /\ aggregateGroup [ [("v", int 0)]; [("v", int (-5))] ] [("v", Some "max")]
     = Returned [("v", One (int (-5)))].
Proof. split; reflexivity. Qed.

(** The pivot table reduces the same values without the fallback and
    finds the zero. *)
Lemma pivot_min_finds_zero :
  aggregateCell "min" [of_Z 0; of_Z 5] = of_Z 0
  /\ aggregateCell "max" [of_Z 0; of_Z (-5)] = of_Z 0.
Proof. split; reflexivity. Qed.

(** ** Sorting keeps the elements *)

Lemma sort_insert_In {A} (cmp : A -> A -> number) (x y : A) (l : list A) :
  In y (sort_insert cmp x l) <-> y = x \/ In y l.
Proof.
  induction l as [| z l IH]; cbn [sort_insert In].
  - intuition congruence.
  - destruct (ltb (of_Z 0) (cmp x z)); cbn [In]; rewrite ?IH;
      intuition congruence.
Qed.

Lemma Array_sort_In {A} (cmp : A -> A -> number) (y : A) (l : list A) :
  In y (Array_sort cmp l) <-> In y l.
Proof.
  induction l as [| x l IH]; cbn [Array_sort fold_right In]; [reflexivity |].
  fold (Array_sort cmp l). rewrite sort_insert_In, IH. intuition congruence.
Qed.

Lemma sortDefault_In (y : prim) (l : list prim) :
  In y (sortDefault l) <-> In y l.
Proof.
  unfold sortDefault. rewrite in_app_iff, Array_sort_In, !filter_In.
  destruct (is_undefined y); cbn; intuition congruence.
Qed.

(** ** The pivot table *)

(** After a loop of assignments, a key assigned at least once holds
    the value its assignments agree on. *)
Lemma assigned_value {A V} (name : A -> string) (val : A -> V)
    (xs : list A) (init : object V) (k : string) (v : V) :
  prop_get k init = Some v \/ (exists x, In x xs /\ name x = k) ->
  (forall x, In x xs -> name x = k -> val x = v) ->
  prop_get k (fold_left (fun acc x => prop_set (name x) (val x) acc) xs init)
  = Some v.
Proof.
  revert init. induction xs as [| x xs IH]; intros init Start Agree; cbn.
  - destruct Start as [G | (x & [] & _)]. exact G.
  - apply IH.
    + rewrite prop_get_set.
      destruct (String.eqb_spec k (name x)) as [E | N].
      * left. f_equal. apply Agree; [now left | now symmetry].
      * destruct Start as [G | (y & [<- | I] & E)].
        -- now left.
        -- now symmetry in E.
        -- right. now exists y.
    + intros y I. apply Agree. now right.
Qed.

Lemma aggregateCell_nothing (aggFunction : string) :
  aggregateCell aggFunction [] = of_Z 0.
Proof.
  unfold aggregateCell.
  repeat match goal with |- context [String.eqb ?a ?b] =>
                           destruct (String.eqb a b) end;
    reflexivity.
Qed.

(** The same for a loop that stores nothing under ['__proto__']. *)
Lemma assigned_own {A V} (name : A -> string) (val : A -> V)
    (xs : list A) (init : object V) (k : string) (v : V) :
  k <> "__proto__" ->
  prop_get k init = Some v \/ (exists x, In x xs /\ name x = k) ->
  (forall x, In x xs -> name x = k -> val x = v) ->
  prop_get k (fold_left (fun acc x =>
                           if String.eqb (name x) "__proto__" then acc
                           else prop_set (name x) (val x) acc) xs init)
  = Some v.
Proof.
  intros Own. revert init.
  induction xs as [| x xs IH]; intros init Start Agree; cbn.
  - destruct Start as [G | (x & [] & _)]. exact G.
  - apply IH.
    + destruct (String.eqb_spec (name x) "__proto__") as [P | NP].
      * destruct Start as [G | (y & [<- | I] & E)].
        -- now left.
        -- congruence.
        -- right. now exists y.
      * rewrite prop_get_set.
        destruct (String.eqb_spec k (name x)) as [E | N].
        -- left. f_equal. apply Agree; [now left | now symmetry].
        -- destruct Start as [G | (y & [<- | I] & E)].
           ++ now left.
           ++ now symmetry in E.
           ++ right. now exists y.
    + intros y I. apply Agree. now right.
Qed.

(** No cell is stored under ['__proto__']. *)
Lemma proto_cell_is_not_stored (aggFunction : string)
    (values : object (list number)) (columns : list prim) (row : prim) :
  prop_get "__proto__" (pivotRow aggFunction values columns row) = None.
Proof.
  unfold pivotRow.
  apply (fold_left_invariant
           (fun cells : object number => prop_get "__proto__" cells = None)).
  - reflexivity.
  - intros cells col None_yet.
    destruct (String.eqb_spec (ToString col) "__proto__") as [E | N];
      [exact None_yet |].
    rewrite prop_get_set.
    destruct (String.eqb_spec "__proto__" (ToString col)); [congruence | exact None_yet].
Qed.

(** Away from the key ['__proto__'], in the object [pivotTable]
    returns, the cell of a row key and a column key of the emitted lists
    for which the first loop collected no value holds 0, whatever the
    aggregation function ([sum], [avg], [count], [min], [max], any other
    name, or none). *)
Lemma unseen_cell_is_zero
    (table : list record) (rowField columnField valueField : string)
    (aggFunction : option string) (row col : prim) :
  ToString row <> "__proto__" ->
  ToString col <> "__proto__" ->
  In row (rows (pivotTable table rowField columnField valueField aggFunction)) ->
  In col (columns (pivotTable table rowField columnField valueField aggFunction)) ->
  prop_get (cellKey row col)
           (cellValues (collect table rowField columnField valueField)) = None ->
  exists cells,
    prop_get (ToString row)
             (data (pivotTable table rowField columnField valueField aggFunction))
    = Some cells
    /\ prop_get (ToString col) cells = Some (of_Z 0).
Proof.
  intros OwnRow OwnCol.
  unfold pivotTable; cbn [rows columns data].
  set (c := collect table rowField columnField valueField).
  set (agg := match aggFunction with Some f => f | None => "sum" end).
  rewrite !sortDefault_In. intros Irow Icol Unseen.
  exists (pivotRow agg (cellValues c) (columnSet c) row). split.
  - unfold pivotData.
    apply (assigned_own ToString
             (fun row => pivotRow agg (cellValues c) (columnSet c) row));
      [exact OwnRow | |].
    + right. now exists row.
    + intros row' _ E. unfold pivotRow, cellKey. now rewrite E.
  - unfold pivotRow.
    apply (assigned_own ToString
             (fun col => aggregateCell agg
                           (collectedFor (cellValues c) (cellKey row col))));
      [exact OwnCol | |].
    + right. now exists col.
    + intros col' _ E. unfold cellKey in *. rewrite E.
      unfold collectedFor. rewrite Unseen. apply aggregateCell_nothing.
Qed.

(** C9: the cell of a column named ['__proto__'] is not 0: it is not
    stored. In the table [protoSales] the row [y] and the column
    ['__proto__'] are both in the emitted lists and no record has the
    two, so no value was collected for the pair; the object of the row
    [y] holds the cell of the column [p] and none for ['__proto__'],
    whose assignment [pivot[row][col] = aggValue] stores no property. *)
Theorem proto_column_holds_no_cell :
  let pivoted := pivotTable protoSales "r" "c" "v" (Some "min") in
  In (Str "y") (rows pivoted)
  /\ In (Str "__proto__") (columns pivoted)
  /\ prop_get (cellKey (Str "y") (Str "__proto__"))
              (cellValues (collect protoSales "r" "c" "v")) = None
  /\ exists cells,
       prop_get "y" (data pivoted) = Some cells
       /\ prop_get "p" cells = Some (of_Z 3)
       /\ prop_get "__proto__" cells = None.
Proof.
  cbn zeta. split; [right; now left |]. split; [now left |].
  split; [reflexivity |].
  eexists. split; [reflexivity |]. split; [| reflexivity].
  vm_compute. reflexivity.
Qed.

(** ** Percentiles *)

Lemma allFinite_cons (x : number) (l : list number) :
  allFinite (x :: l) -> is_finite x = true /\ allFinite l.
Proof.
  intros F. split; [apply F; now left | intros v I; apply F; now right].
Qed.

Lemma allFinite_map (qs : list Qc) : allFinite (List.map Fin qs).
Proof. intros v I. apply in_map_iff in I as (q & <- & _). reflexivity. Qed.

Lemma finite_not_NaN (v : number) : is_finite v = true -> is_NaN v = false.
Proof. now destruct v. Qed.

Lemma sort_insert_length {A} (cmp : A -> A -> number) (x : A) (l : list A) :
  List.length (sort_insert cmp x l) = S (List.length l).
Proof.
  induction l as [| y l IH]; cbn [sort_insert]; [reflexivity |].
  destruct (ltb (of_Z 0) (cmp x y)); cbn; now rewrite ?IH.
Qed.

Lemma Array_sort_length {A} (cmp : A -> A -> number) (l : list A) :
  List.length (Array_sort cmp l) = List.length l.
Proof.
  induction l as [| x l IH]; [reflexivity |].
  cbn [Array_sort fold_right]. fold (Array_sort cmp l).
  rewrite sort_insert_length, IH. reflexivity.
Qed.

Lemma sort_insert_sorted (x : number) (l : list number) :
  is_finite x = true -> allFinite l ->
  StronglySorted notAbove l ->
  StronglySorted notAbove (sort_insert sub x l).
Proof.
  intros Fx. induction l as [| y l IH]; intros Fl S.
  - cbn. repeat constructor.
  - apply allFinite_cons in Fl as [Fy Fl].
    apply StronglySorted_inv in S as [S Low].
    cbn [sort_insert].
    destruct x as [| | | a]; try discriminate Fx.
    destruct y as [| | | b]; try discriminate Fy.
    rewrite JSFacts.difference_positive.
    destruct (ltb (Fin b) (Fin a)) eqn:L.
    + constructor; [now apply IH |].
      apply List.Forall_forall. intros z Iz.
      apply sort_insert_In in Iz as [-> | Iz].
      * now apply JSFacts.ltb_asym.
      * rewrite List.Forall_forall in Low. now apply Low.
    + constructor; [now constructor |].
      constructor; [exact L |].
      rewrite List.Forall_forall in Low. apply List.Forall_forall.
      intros z Iz. apply (JSFacts.notAbove_trans _ (Fin b));
        [reflexivity | exact L | now apply Low].
Qed.

Lemma Array_sort_sorted (l : list number) :
  allFinite l -> StronglySorted notAbove (Array_sort sub l).
Proof.
  induction l as [| x l IH]; intros F.
  - constructor.
  - apply allFinite_cons in F as [Fx F].
    cbn [Array_sort fold_right]. fold (Array_sort sub l).
    apply sort_insert_sorted; [exact Fx | | now apply IH].
    intros v I. apply F. now apply Array_sort_In in I.
Qed.

Lemma first_is_lowest (l : list number) (v : number) :
  StronglySorted notAbove l -> In v l -> notAbove (nth 0 l NaN) v.
Proof.
  intros S I. destruct l as [| h t]; [destruct I |].
  apply StronglySorted_inv in S as [_ Low]. cbn.
  destruct I as [<- | I]; [apply JSFacts.notAbove_refl |].
  rewrite List.Forall_forall in Low. now apply Low.
Qed.

Lemma last_is_highest (l : list number) (v : number) :
  StronglySorted notAbove l -> In v l ->
  notAbove v (nth (List.length l - 1) l NaN).
Proof.
  induction l as [| x t IH]; intros S I; [destruct I |].
  apply StronglySorted_inv in S as [S Low].
  destruct t as [| y t'].
  - destruct I as [<- | []]. apply JSFacts.notAbove_refl.
  - change (nth (List.length (x :: y :: t') - 1) (x :: y :: t') NaN)
      with (nth (List.length t') (y :: t') NaN).
    replace (List.length t') with (List.length (y :: t') - 1)%nat by (cbn; lia).
    destruct I as [<- | I].
    + rewrite List.Forall_forall in Low. apply Low.
      apply nth_In. cbn. lia.
    + now apply IH.
Qed.

Lemma min2_choice (acc y : number) :
  is_NaN acc = false -> is_finite y = true ->
  min2 acc y = if ltb y acc then y else acc.
Proof. destruct acc, y; intros; try discriminate; reflexivity. Qed.

Lemma max2_choice (acc y : number) :
  is_NaN acc = false -> is_finite y = true ->
  max2 acc y = if ltb acc y then y else acc.
Proof. destruct acc, y; intros; try discriminate; reflexivity. Qed.

Lemma fold_min_lowest (l : list number) (acc : number) :
  allFinite l -> is_NaN acc = false ->
  (fold_left min2 l acc = acc \/ In (fold_left min2 l acc) l)
  /\ notAbove (fold_left min2 l acc) acc
  /\ forall v, In v l -> notAbove (fold_left min2 l acc) v.
Proof.
  revert acc. induction l as [| y l IH]; intros acc F N.
  - cbn. repeat split; [now left | apply JSFacts.notAbove_refl | tauto].
  - apply allFinite_cons in F as [Fy F]. cbn [fold_left].
    assert (C := min2_choice acc y N Fy).
    assert (N' : is_NaN (min2 acc y) = false).
    { rewrite C. destruct (ltb y acc); [now apply finite_not_NaN | exact N]. }
    assert (A1 : notAbove (min2 acc y) acc).
    { rewrite C. destruct (ltb y acc) eqn:L;
        [now apply JSFacts.ltb_asym | apply JSFacts.notAbove_refl]. }
    assert (A2 : notAbove (min2 acc y) y).
    { rewrite C. destruct (ltb y acc) eqn:L;
        [apply JSFacts.notAbove_refl | exact L]. }
    destruct (IH (min2 acc y) F N') as (Where & Below & Low).
    repeat split.
    + destruct Where as [E | I].
      * rewrite E, C. destruct (ltb y acc); [right; now left | now left].
      * right. now right.
    + exact (JSFacts.notAbove_trans _ _ _ N' Below A1).
    + intros v [<- | I]; [| now apply Low].
      exact (JSFacts.notAbove_trans _ _ _ N' Below A2).
Qed.

Lemma fold_max_highest (l : list number) (acc : number) :
  allFinite l -> is_NaN acc = false ->
  (fold_left max2 l acc = acc \/ In (fold_left max2 l acc) l)
  /\ notAbove acc (fold_left max2 l acc)
  /\ forall v, In v l -> notAbove v (fold_left max2 l acc).
Proof.
  revert acc. induction l as [| y l IH]; intros acc F N.
  - cbn. repeat split; [now left | apply JSFacts.notAbove_refl | tauto].
  - apply allFinite_cons in F as [Fy F]. cbn [fold_left].
    assert (C := max2_choice acc y N Fy).
    assert (N' : is_NaN (max2 acc y) = false).
    { rewrite C. destruct (ltb acc y); [now apply finite_not_NaN | exact N]. }
    assert (A1 : notAbove acc (max2 acc y)).
    { rewrite C. destruct (ltb acc y) eqn:L;
        [now apply JSFacts.ltb_asym | apply JSFacts.notAbove_refl]. }
    assert (A2 : notAbove y (max2 acc y)).
    { rewrite C. destruct (ltb acc y) eqn:L;
        [apply JSFacts.notAbove_refl | exact L]. }
    destruct (IH (max2 acc y) F N') as (Where & Above & High).
    repeat split.
    + destruct Where as [E | I].
      * rewrite E, C. destruct (ltb acc y); [right; now left | now left].
      * right. now right.
    + exact (JSFacts.notAbove_trans _ _ _ N' A1 Above).
    + intros v [<- | I]; [| now apply High].
      exact (JSFacts.notAbove_trans _ _ _ N' A2 Above).
Qed.

(** [Math.min] of finite numbers is one of them and none is below. *)
Lemma Math_min_lowest (l : list number) :
  l <> [] -> allFinite l ->
  In (Math_min l) l /\ forall v, In v l -> notAbove (Math_min l) v.
Proof.
  intros NE F. unfold Math_min.
  destruct (fold_min_lowest l PosInf F eq_refl) as (Where & _ & Low).
  split; [| exact Low].
  destruct Where as [E | I]; [| exact I].
  destruct l as [| x l]; [congruence |].
  specialize (Low x (or_introl eq_refl)). rewrite E in Low.
  apply allFinite_cons in F as [Fx _].
  destruct x; discriminate.
Qed.

Lemma Math_max_highest (l : list number) :
  l <> [] -> allFinite l ->
  In (Math_max l) l /\ forall v, In v l -> notAbove v (Math_max l).
Proof.
  intros NE F. unfold Math_max.
  destruct (fold_max_highest l NegInf F eq_refl) as (Where & _ & High).
  split; [| exact High].
  destruct Where as [E | I]; [| exact I].
  destruct l as [| x l]; [congruence |].
  specialize (High x (or_introl eq_refl)). rewrite E in High.
  apply allFinite_cons in F as [Fx _].
  destruct x; discriminate.
Qed.

Lemma zero_percent : div (of_Z 0) (of_Z 100) = of_Z 0.
Proof. vm_compute. now apply JSFacts.Fin_ext. Qed.

Lemma hundred_percent : div (of_Z 100) (of_Z 100) = of_Z 1.
Proof. vm_compute. now apply JSFacts.Fin_ext. Qed.

(** When the rank [(percentile / 100) * (length - 1)] is the index
    [k], the percentile is the element of rank [k] of the sorted
    values. *)
Lemma percentile_at_index (values : list number) (percentile : number) (k : Z) :
  allFinite values ->
  (0 <= k < Z.of_nat (List.length values))%Z ->
  mul (div percentile (of_Z 100))
      (of_Z (Z.of_nat (List.length values) - 1)) = of_Z k ->
  calculatePercentile values percentile
  = nth (Z.to_nat k) (Array_sort sub values) NaN.
Proof.
  intros F K Rank.
  assert (Fs : is_finite (nth (Z.to_nat k) (Array_sort sub values) NaN) = true).
  { apply F. apply (Array_sort_In sub). apply nth_In.
    rewrite Array_sort_length. lia. }
  unfold calculatePercentile.
  destruct values as [| v0 rest] eqn:V; [cbn in K; lia |].
  rewrite <- V in *. clear V v0 rest. cbv zeta.
  rewrite Array_sort_length, JSFacts.sub_of_Z, Rank.
  rewrite JSFacts.floor_of_Z, JSFacts.ceil_of_Z.
  rewrite JSFacts.sub_of_Z, JSFacts.leb_of_Z, Z.sub_diag.
  destruct (Z.leb_spec (Z.of_nat (List.length values)) k); [lia |].
  rewrite JSFacts.element_of_Z by lia.
  destruct (nth (Z.to_nat k) (Array_sort sub values) NaN) as [| | | h];
    try discriminate Fs.
  apply JSFacts.blend_same.
Qed.

(** C7: on finite numbers the percentile 0 is the minimum and the
    percentile 100 the maximum; the percentile 50 of [10, 20] is 15; on
    no value at all every percentile is 0. *)
Theorem percentile_boundaries (qs : list Qc) (p : number) :
  qs <> [] ->
  calculatePercentile (List.map Fin qs) (of_Z 0) = Math_min (List.map Fin qs)
  /\ calculatePercentile (List.map Fin qs) (of_Z 100) = Math_max (List.map Fin qs)
  /\ calculatePercentile [of_Z 10; of_Z 20] (of_Z 50) = of_Z 15
  /\ calculatePercentile [] p = of_Z 0.
Proof.
  intros NE.
  set (values := List.map Fin qs).
  assert (F : allFinite values) by apply allFinite_map.
  assert (NE' : values <> []).
  { subst values. destruct qs; [congruence | discriminate]. }
  assert (Len : (1 <= Z.of_nat (List.length values))%Z).
  { destruct values; [congruence | cbn; lia]. }
  assert (Fs : allFinite (Array_sort sub values)).
  { intros v I. apply F. now apply Array_sort_In in I. }
  assert (S := Array_sort_sorted values F).
  split; [| split; [| split]].
  - rewrite (percentile_at_index values (of_Z 0) 0 F); [| lia |].
    + destruct (Math_min_lowest values NE' F) as [Im Low].
      assert (Ih : In (nth (Z.to_nat 0) (Array_sort sub values) NaN)
                      (Array_sort sub values)).
      { apply nth_In. rewrite Array_sort_length. lia. }
      pose proof (Fs _ Ih) as Fh. pose proof (F _ Im) as Fm.
      pose proof (first_is_lowest _ _ S (proj2 (Array_sort_In sub _ _) Im)) as A.
      pose proof (Low _ (proj1 (Array_sort_In sub _ _) Ih)) as B.
      change (Z.to_nat 0) with 0%nat in *.
      destruct (nth 0 (Array_sort sub values) NaN); try discriminate Fh.
      destruct (Math_min values); try discriminate Fm.
      now apply JSFacts.notAbove_antisym.
    + rewrite zero_percent, JSFacts.mul_of_Z. reflexivity.
  - rewrite (percentile_at_index values (of_Z 100)
               (Z.of_nat (List.length values) - 1) F); [| lia |].
    + destruct (Math_max_highest values NE' F) as [Im High].
      replace (Z.to_nat (Z.of_nat (List.length values) - 1))
        with (List.length (Array_sort sub values) - 1)%nat
        by (rewrite Array_sort_length; lia).
      assert (Ih : In (nth (List.length (Array_sort sub values) - 1)
                           (Array_sort sub values) NaN)
                      (Array_sort sub values)).
      { apply nth_In. rewrite Array_sort_length. lia. }
      pose proof (Fs _ Ih) as Fh. pose proof (F _ Im) as Fm.
      pose proof (last_is_highest _ _ S (proj2 (Array_sort_In sub _ _) Im)) as A.
      pose proof (High _ (proj1 (Array_sort_In sub _ _) Ih)) as B.
      destruct (nth _ (Array_sort sub values) NaN); try discriminate Fh.
      destruct (Math_max values); try discriminate Fm.
      now apply JSFacts.notAbove_antisym.
    + rewrite hundred_percent, JSFacts.mul_of_Z. f_equal. lia.
  - vm_compute. now apply JSFacts.Fin_ext.
  - reflexivity.
Qed.

End WithHost.

(** ** The facts above on the sample tables *)

(** C6, against the specification: the sentinel is the text of a real
    value. A record whose value is [null] and a record whose value is
    the string '__null__' share a group; and with three grouping fields
    a record whose second value is [null] shares a group with one whose
    second value is the empty string, once the other values hold the
    separator. *)
Lemma sentinel_text_is_a_real_value :
  field nullF "f" = Null
  /\ field sentinelF "f" = Str "__null__"
  /\ sameGroup (groupByMultiple (H := sampleHost) [nullF; sentinelF] ["f"])
               nullF sentinelF
  /\ field nullG "g" = Null
  /\ field emptyG "g" = Str EmptyString
  /\ sameGroup (groupByMultiple (H := sampleHost) [nullG; emptyG] ["f"; "g"; "h"])
               nullG emptyG.
Proof.
  repeat split.
  - exists "__null__", [nullF; sentinelF]. repeat split; cbn; tauto.
  - exists "a|__null__||b", [nullG; emptyG]. repeat split; cbn; tauto.
Qed.

(** C6 on the records [{f: null}] and [{f: ''}] grouped by [f]. *)
Lemma null_and_empty_string_witness :
  In "f" ["f"]
  /\ (field nullF "f" = Null \/ field nullF "f" = Undefined)
  /\ field emptyF "f" = Str EmptyString
  /\ keyPart (H := sampleHost) nullF "f" = "__null__"
  /\ keyPart (H := sampleHost) emptyF "f" = EmptyString
  /\ ~ sameGroup (groupByMultiple (H := sampleHost) [nullF; emptyF] ["f"])
                 nullF emptyF.
Proof.
  split; [now left |]. split; [now left |]. split; [reflexivity |].
  apply (null_and_empty_string_are_kept_apart
           (H := sampleHost) [nullF; emptyF] ["f"] "f" nullF emptyF).
  - now left.
  - now left.
  - reflexivity.
  - now left.
Defined.

(** C7 on the values [3, 1, 2]. *)
Lemma percentile_witness :
  [Q2Qc 3; Q2Qc 1; Q2Qc 2] <> []
  /\ calculatePercentile (List.map Fin [Q2Qc 3; Q2Qc 1; Q2Qc 2]) (of_Z 0)
     = Math_min (List.map Fin [Q2Qc 3; Q2Qc 1; Q2Qc 2])
  /\ calculatePercentile (List.map Fin [Q2Qc 3; Q2Qc 1; Q2Qc 2]) (of_Z 100)
     = Math_max (List.map Fin [Q2Qc 3; Q2Qc 1; Q2Qc 2])
  /\ calculatePercentile [of_Z 10; of_Z 20] (of_Z 50) = of_Z 15
  /\ calculatePercentile [] (of_Z 50) = of_Z 0.
Proof.
  split; [discriminate |].
  apply (percentile_boundaries [Q2Qc 3; Q2Qc 1; Q2Qc 2] (of_Z 50)).
  discriminate.
Defined.

(** C7, against the specification: the list [[Infinity]] is not
    empty and its minimum and maximum are [Infinity], but its percentiles
    0 and 100 are [NaN], the product [Infinity * 0] of the blend. *)
Lemma infinite_value_has_no_percentile :
  calculatePercentile [PosInf] (of_Z 0) = NaN
  /\ Math_min [PosInf] = PosInf
  /\ calculatePercentile [PosInf] (of_Z 100) = NaN
  /\ Math_max [PosInf] = PosInf.
Proof. repeat split; vm_compute; reflexivity. Qed.

(** The pivot scenario of the specification: no record has row [y] and
    column [q]. *)
Lemma unseen_cell_witness :
  In (Str "y") (rows (pivotTable (H := sampleHost) sales "r" "c" "v" (Some "min")))
  /\ In (Str "q") (columns (pivotTable (H := sampleHost) sales "r" "c" "v" (Some "min")))
  /\ prop_get (cellKey (H := sampleHost) (Str "y") (Str "q"))
              (cellValues (collect (H := sampleHost) sales "r" "c" "v")) = None
  /\ exists cells,
       prop_get "y" (data (pivotTable (H := sampleHost) sales "r" "c" "v" (Some "min")))
       = Some cells
       /\ prop_get "q" cells = Some (of_Z 0).
Proof.
  split; [vm_compute; auto |]. split; [vm_compute; auto |].
  split; [reflexivity |].
  apply (unseen_cell_is_zero (H := sampleHost) sales "r" "c" "v" (Some "min")
                             (Str "y") (Str "q")).
  - discriminate.
  - discriminate.
  - vm_compute. auto.
  - vm_compute. auto.
  - reflexivity.
Defined.

End GrouperFacts.

(* ================================================================== *)
(** * Facts about the cleaning pipeline                                *)
(* ================================================================== *)

Module CleanerFacts.
Import JS Cleaner Samples.

Section WithHost.
Context `{Host}.

Lemma getProp_record (s : store) (r : nat) (k : string) :
  getProp (Ref r) k s = Return (field (recordAt s r) k) s.
Proof. reflexivity. Qed.

Lemma field_absent (p : record) (k : string) :
  prop_get k p = None -> field p k = Undefined.
Proof. unfold field. now intros ->. Qed.

(** C1: a limit of 0 does not empty the table. The test in front of
    the stage is the truthiness of [options.limit], so 0 leaves the
    stage out: [cleanData] returns the very table it was given, for
    every table and store, and the two records of [people] are both
    still there. *)
Theorem limit_zero_is_skipped (data : table) (s : store) :
  cleanData data (withLimit (of_Z 0)) s = Return data s
  /\ (exists a s', cleanData (Array 0) (withLimit (of_Z 0)) people
                   = Return (Array a) s'
                   /\ List.length (arrayAt s' a) = 2%nat).
Proof.
  split.
  - reflexivity.
  - exists 0%nat, people. split; reflexivity.
Qed.

Lemma arrayAt_new (s : store) (xs : list item) :
  arrayAt {| records := records s; arrays := (arrays s ++ [xs])%list |}
          (List.length (arrays s)) = xs.
Proof.
  unfold arrayAt; cbn [arrays].
  now rewrite (list_lookup_middle (arrays s) [] xs _ eq_refl).
Qed.

Lemma sliceEnd_positive (len : nat) (n : Z) :
  (1 <= n)%Z -> sliceEnd len (of_Z n) = Nat.min (Z.to_nat n) len.
Proof.
  intros Hn. unfold sliceEnd, of_Z, truncate, Qc_ltb.
  change 0%Qc with (Q2Qc (inject_Z 0)).
  rewrite JSFacts.Qc_compare_of_Z, JSFacts.Qfloor_of_Z.
  destruct (Z.compare_spec n 0); try lia;
    destruct (Z.ltb_spec n 0); lia.
Qed.

(** For a limit of at least 1 the stage does what the specification
    says: a fresh array holding the first [min n length] elements. *)
Lemma limit_keeps_a_prefix (a : nat) (n : Z) (s : store) :
  (1 <= n)%Z ->
  exists a' s',
    cleanData (Array a) (withLimit (of_Z n)) s = Return (Array a') s'
    /\ arrayAt s' a'
       = firstn (Nat.min (Z.to_nat n) (List.length (arrayAt s a))) (arrayAt s a)
    /\ List.length (arrayAt s' a')
       = Nat.min (Z.to_nat n) (List.length (arrayAt s a)).
Proof.
  intros Hn.
  assert (T : truthy_number (of_Z n) = true).
  { rewrite JSFacts.truthy_of_Z. destruct (Z.eqb_spec n 0); [lia | reflexivity]. }
  eexists _, _. split; [| split].
  - unfold cleanData, withLimit, stage, flag, givenNumber, givenString;
      cbn [removeEmpty deduplicate trim case columns filter transform sort limit].
    rewrite T. reflexivity.
  - rewrite arrayAt_new, sliceEnd_positive by assumption. reflexivity.
  - rewrite arrayAt_new, sliceEnd_positive by assumption.
    rewrite length_firstn. lia.
Qed.

(** ** The filter stage *)

(** On a record without the field the six comparison operators behave
    as the specification says, whatever the operand. *)
Lemma absent_field_comparisons (s : store) (r : nat) (column operand : string) :
  prop_get column (recordAt s r) = None ->
  matches (condition column "eq" operand) (Ref r) s = Return false s
  /\ matches (condition column "neq" operand) (Ref r) s = Return true s
  /\ matches (condition column "gt" operand) (Ref r) s = Return false s
  /\ matches (condition column "lt" operand) (Ref r) s = Return false s
  /\ matches (condition column "gte" operand) (Ref r) s = Return false s
  /\ matches (condition column "lte" operand) (Ref r) s = Return false s.
Proof.
  intros E. apply field_absent in E.
  unfold matches, condition, bind; cbn [filterColumn operator value].
  rewrite getProp_record, E. cbn.
  unfold js_gt, js_le, less_than; cbn.
  rewrite orb_true_r. repeat split; reflexivity.
Qed.

(** C3: a record without the field passes the text operators whenever
    the operand occurs in the word "undefined", because the operators
    are applied to [String(undefined)]. The specification wants such a
    record dropped; here it is kept, by [matches] on every store and by
    [cleanData] on [people], which has no field "city". *)
Theorem absent_field_matches_the_word_undefined
    (s : store) (r : nat) (column : string) :
  prop_get column (recordAt s r) = None ->
  matches (condition column "contains" "undef") (Ref r) s = Return true s
  /\ matches (condition column "contains" "fine") (Ref r) s = Return true s
  /\ matches (condition column "startsWith" "undef") (Ref r) s = Return true s
  /\ matches (condition column "endsWith" "fined") (Ref r) s = Return true s
  /\ cleanData (Array 0) (withFilter "city" "contains" "undef") people
     = Return (Array 1)
              {| records := records people;
                 arrays := [ [Ref 0; Ref 1]; [Ref 0; Ref 1] ] |}.
Proof.
  intros E. apply field_absent in E.
  unfold matches, condition, bind; cbn [filterColumn operator value].
  rewrite getProp_record, E.
  repeat split; reflexivity.
Qed.

(** C4: two strings are compared as text, digit strings included:
    "18" is not greater than "9", so the filter [gt "9"] drops a record
    whose field is "18". *)
Theorem digit_strings_compare_as_text (s : store) (r : nat) (column : string) :
  field (recordAt s r) column = Str "18" ->
  matches (condition column "gt" "9") (Ref r) s = Return false s
  /\ js_gt (Str "18") (Str "9") = false
  /\ js_gt (Num (of_Z 18)) (Str "9") = true.
Proof.
  intros E. unfold matches, condition, bind; cbn [filterColumn operator value].
  rewrite getProp_record, E. repeat split; reflexivity.
Qed.

(** The filter given in the README, [age:gt:18], on the table decoded
    from a CSV file: the record of age "9" is the one that is kept. *)
Lemma readme_age_filter :
  cleanData (Array 0) (withFilter "age" "gt" "18") people
  = Return (Array 1)
           {| records := records people;
              arrays := [ [Ref 0; Ref 1]; [Ref 1] ] |}.
Proof. reflexivity. Qed.

(** ** The stages that write to their input *)

(** C5: [cleanData] is not pure. The transform stage assigns to the
    records it is given: after the call the first record of the input
    holds "BOB". The sort stage sorts in place: without an earlier stage
    that copies, the array it reorders and returns is the input array. *)
Theorem cleanData_writes_to_its_input :
  cleanData (Array 0) (withTransform "name" "uppercase") people
  = Return (Array 1)
           {| records := [ [("name", Str "BOB"); ("age", Str "18")];
                           [("name", Str "AMY"); ("age", Str "9")] ];
              arrays := [ [Ref 0; Ref 1]; [Ref 0; Ref 1] ] |}
  /\ cleanData (Array 0) (withSort "n" None) twoOne
     = Return (Array 0)
              {| records := records twoOne; arrays := [ [Ref 1; Ref 0] ] |}.
Proof. split; reflexivity. Qed.

(** The stages that rebuild their records leave the input alone. *)
Lemma trim_stage_copies (p : record) :
  rebuild trimRecord (Ref 0) {| records := [p]; arrays := [] |}
  = Return (Ref 1) {| records := [p; trimRecord p]; arrays := [] |}.
Proof. reflexivity. Qed.

(** ** Operations the [switch] statements do not know *)

Lemma filterM_keeps_all (keep : item -> M bool) (xs : list item) (s : store) :
  (forall x, In x xs -> keep x s = Return true s) ->
  filterM keep xs s = Return xs s.
Proof.
  induction xs as [| x xs IH]; intros K; [reflexivity |].
  cbn [filterM]. unfold bind at 1. rewrite (K x) by now left.
  unfold bind at 1. rewrite IH by (intros y Hy; apply K; now right).
  reflexivity.
Qed.

Lemma mapM_returns_all (f : item -> M item) (xs : list item) (s : store) :
  (forall x, In x xs -> f x s = Return x s) ->
  mapM f xs s = Return xs s.
Proof.
  induction xs as [| x xs IH]; intros K; [reflexivity |].
  cbn [mapM]. unfold bind at 1. rewrite (K x) by now left.
  unfold bind at 1. rewrite IH by (intros y Hy; apply K; now right).
  reflexivity.
Qed.

Lemma getProp_defined (x : item) (k : string) (s : store) :
  is_nullish x = false -> exists v, getProp x k s = Return v s.
Proof.
  destruct x as [[| | b | n | str] | r]; cbn; intros N; try discriminate;
    eexists; reflexivity.
Qed.

Ltac split_labels K :=
  cbn in K;
  repeat match goal with
         | L : (_ || _)%bool = false |- _ => apply orb_false_elim in L as [? ?]
         end.

Lemma unknown_operator_keeps (f : filterSpec) (x : item) (s : store) :
  knownOperator (operator f) = false ->
  is_nullish x = false ->
  matches f x s = Return true s.
Proof.
  intros K N. unfold knownOperator in K. split_labels K.
  destruct (getProp_defined x (filterColumn f) s N) as [v G].
  unfold matches, bind. rewrite G.
  repeat match goal with E : String.eqb _ _ = false |- _ => rewrite E; clear E end.
  reflexivity.
Qed.

Lemma unknown_transform_assigns_nothing (fn : string) (v : prim) :
  knownTransform fn = false -> transformed fn v = None.
Proof.
  intros K. unfold knownTransform in K. split_labels K.
  unfold transformed.
  repeat match goal with E : _ = false |- _ => rewrite E; clear E end.
  reflexivity.
Qed.

Lemma unknown_transform_returns_item (t : transformSpec) (x : item) (s : store) :
  knownTransform (transformFn t) = false ->
  is_nullish x = false ->
  transformItem t x s = Return x s.
Proof.
  intros K N. unfold transformItem.
  destruct (nonEmpty (transformColumn t)); [| reflexivity].
  destruct (getProp_defined x (transformColumn t) s N) as [v G].
  unfold bind. rewrite G.
  rewrite (unknown_transform_assigns_nothing _ v K).
  destruct v, x; reflexivity.
Qed.

Lemma unknown_aggregation_stores_nothing
    (group : list record) (fieldName aggType : string) :
  Grouper.knownAggregation aggType = false ->
  Grouper.aggregateField group fieldName (Some aggType) = Grouper.Returned None.
Proof.
  intros K. unfold Grouper.knownAggregation in K. split_labels K.
  unfold Grouper.aggregateField.
  repeat match goal with E : _ = false |- _ => rewrite E; clear E end.
  reflexivity.
Qed.

(** C8, as the code has it: no stage reports an operation it does not
    know. On a table without [null] or [undefined] elements, a filter
    whose operator is a string it does not know copies every element and
    a transform whose kind is a string it does not know copies every
    element and writes to no record; an aggregation whose kind is a
    string it does not know leaves its field out of the result, and an
    aggregation whose kind is no string (the [undefined] of a part
    without colon) ends in a [TypeError]. *)
Theorem unknown_operations_pass_silently
    (a : nat) (s : store) (column operand op fn : string)
    (group : list JS.record) (fieldName aggType : string) :
  knownOperator op = false ->
  knownTransform fn = false ->
  Grouper.knownAggregation aggType = false ->
  forallb (fun x => negb (is_nullish x)) (arrayAt s a) = true ->
  let copied := {| records := records s;
                   arrays := (arrays s ++ [arrayAt s a])%list |} in
  cleanData (Array a) (withFilter column op operand) s
  = Return (Array (List.length (arrays s))) copied
  /\ cleanData (Array a) (withTransform column fn) s
     = Return (Array (List.length (arrays s))) copied
  /\ Grouper.aggregateGroup group [(fieldName, Some aggType)]
     = Grouper.Returned []
  /\ Grouper.aggregateGroup group [(fieldName, None)]
     = Grouper.ThrewTypeError.
Proof.
  intros Kop Kfn Kagg N copied.
  assert (N' : forall x, In x (arrayAt s a) -> is_nullish x = false).
  { intros x Hx. rewrite forallb_forall in N. specialize (N x Hx).
    now destruct (is_nullish x). }
  repeat split.
  - unfold cleanData, withFilter, stage, flag, givenNumber, givenString;
      cbn [removeEmpty deduplicate trim case columns filter transform sort limit].
    unfold filterTable, bind, ret, readArray.
    rewrite filterM_keeps_all; [reflexivity |].
    intros x Hx. apply unknown_operator_keeps; [exact Kop | now apply N'].
  - unfold cleanData, withTransform, stage, flag, givenNumber, givenString;
      cbn [removeEmpty deduplicate trim case columns filter transform sort limit].
    unfold mapTable, bind, ret, readArray.
    rewrite mapM_returns_all; [reflexivity |].
    intros x Hx. apply unknown_transform_returns_item; [exact Kfn | now apply N'].
  - unfold Grouper.aggregateGroup; cbn [fold_left].
    now rewrite unknown_aggregation_stores_nothing.
Qed.

End WithHost.

(** ** The facts above on the sample tables *)

(** C3 on [people], whose records have no field "city". *)
Lemma absent_field_witness :
  prop_get "city" (recordAt people 0) = None
  /\ matches (H := sampleHost) (condition "city" "contains" "undef") (Ref 0) people
     = Return true people.
Proof.
  split; [reflexivity |].
  apply (absent_field_matches_the_word_undefined (H := sampleHost) people 0 "city").
  reflexivity.
Defined.

(** C4 on the first record of [people], whose age is "18". *)
Lemma digit_strings_witness :
  field (recordAt people 0) "age" = Str "18"
  /\ matches (H := sampleHost) (condition "age" "gt" "9") (Ref 0) people
     = Return false people.
Proof.
  split; [reflexivity |].
  apply (digit_strings_compare_as_text (H := sampleHost) people 0 "age").
  reflexivity.
Defined.

(** C8, against the specification: a filter with the operator
    "between" is no error, it returns every record; an aggregation of
    kind "median" is no error, it returns a result without the field. *)
Lemma unknown_operation_is_no_error :
  cleanData (H := sampleHost) (Array 0) (withFilter "age" "between" "1") people
  = Return (Array 1)
           {| records := records people;
              arrays := [ [Ref 0; Ref 1]; [Ref 0; Ref 1] ] |}
  /\ Grouper.aggregateGroup (H := sampleHost) sales [("v", Some "median")]
     = Grouper.Returned [].
Proof. split; reflexivity. Qed.

(** C8 on [people] and [sales], with the operator "between", the
    transform "reverse" and the aggregation "median". *)
Lemma unknown_operations_witness :
  knownOperator "between" = false
  /\ knownTransform "reverse" = false
  /\ Grouper.knownAggregation "median" = false
  /\ forallb (fun x => negb (is_nullish x)) (arrayAt people 0) = true
  /\ cleanData (H := sampleHost) (Array 0) (withFilter "age" "between" "1") people
     = Return (Array 1)
              {| records := records people;
                 arrays := (arrays people ++ [arrayAt people 0])%list |}
  /\ cleanData (H := sampleHost) (Array 0) (withTransform "age" "reverse") people
     = Return (Array 1)
              {| records := records people;
                 arrays := (arrays people ++ [arrayAt people 0])%list |}
  /\ Grouper.aggregateGroup (H := sampleHost) sales [("v", Some "median")]
     = Grouper.Returned []
  /\ Grouper.aggregateGroup (H := sampleHost) sales [("v", None)]
     = Grouper.ThrewTypeError.
Proof.
  split; [reflexivity |]. split; [reflexivity |].
  split; [reflexivity |]. split; [reflexivity |].
  apply (unknown_operations_pass_silently
           (H := sampleHost) 0 people "age" "1" "between" "reverse"
           sales "v" "median");
    reflexivity.
Defined.

End CleanerFacts.

(* ================================================================== *)
(** * More about the grouper                                           *)
(* ================================================================== *)

Module GrouperMore.
Import JS Prototype Grouper GroupStats Samples.

Section WithHost.
Context `{Host}.

(** ** What a group holds *)

Lemma pushItem_get (key k : string) (item : record)
    (groups : object (list record)) :
  prop_get k (pushItem key item groups)
  = if String.eqb k key
    then Some (match prop_get key groups with
               | Some members => members ++ [item]
               | None => [item]
               end)%list
    else prop_get k groups.
Proof.
  unfold pushItem.
  destruct (prop_get key groups) eqn:G; rewrite GrouperFacts.prop_get_set;
    reflexivity.
Qed.

Lemma pushed_groups (step : record -> string) (data : list record)
    (groups : object (list record)) (k : string) :
  prop_get k (fold_left (fun acc item => pushItem (step item) item acc)
                        data groups)
  = match List.filter (fun r => String.eqb (step r) k) data with
    | [] => prop_get k groups
    | later =>
        Some (match prop_get k groups with
              | Some members => members ++ later
              | None => later
              end)%list
    end.
Proof.
  revert groups. induction data as [| item data IH]; intros groups.
  - reflexivity.
  - cbn [fold_left List.filter]. rewrite IH, pushItem_get.
    rewrite (String.eqb_sym k (step item)).
    destruct (String.eqb_spec (step item) k) as [-> | N].
    + destruct (List.filter _ data) as [| r later];
        destruct (prop_get k groups); cbn; try reflexivity.
      now rewrite <- app_assoc.
    + reflexivity.
Qed.

Lemma group_lookup
    (data : list record) (groupByFields : list string) (key : string) :
  prop_get key (groupByMultiple data groupByFields)
  = match List.filter
            (fun r => String.eqb (compositeKey groupByFields r) key) data with
    | [] => None
    | members => Some members
    end.
Proof.
  unfold groupByMultiple.
  rewrite (pushed_groups (compositeKey groupByFields)). cbn [prop_get].
  now destruct (List.filter _ data).
Qed.

(** X1: the group stored under a key holds the records of the input
    that have this composite key, all of them and in input order; a key
    that no record has is not a property of the result. *)
Theorem group_is_the_records_of_its_key
    (data : list record) (groupByFields : list string) (key : string) :
  ownNames groupByFields = true ->
  ownNames (List.map (compositeKey groupByFields) data) = true ->
  prop_get key (groupByMultiple data groupByFields)
  = match List.filter
            (fun r => String.eqb (compositeKey groupByFields r) key) data with
    | [] => None
    | members => Some members
    end.
Proof. intros _ _. apply group_lookup. Qed.

(** ** Groups partition the input *)

Lemma prop_get_None {V} (k : string) (o : object V) :
  prop_get k o = None <-> ~ In k (List.map fst o).
Proof.
  induction o as [| [k' v] o IH]; cbn.
  - tauto.
  - destruct (String.eqb_spec k k') as [-> | N].
    + split; [discriminate | intros X; exfalso; apply X; now left].
    + rewrite IH. split.
      * intros X [E | I]; [congruence | tauto].
      * tauto.
Qed.

Lemma prop_set_keys {V} (k : string) (v : V) (o : object V) :
  List.map fst (prop_set k v o)
  = match prop_get k o with
    | Some _ => List.map fst o
    | None => (List.map fst o ++ [k])%list
    end.
Proof.
  induction o as [| [k' v'] o IH]; cbn; [reflexivity |].
  destruct (String.eqb_spec k k') as [-> | N]; cbn; [reflexivity |].
  rewrite IH. now destruct (prop_get k o).
Qed.

Lemma prop_set_NoDup {V} (k : string) (v : V) (o : object V) :
  List.NoDup (List.map fst o) -> List.NoDup (List.map fst (prop_set k v o)).
Proof.
  intros N. rewrite prop_set_keys.
  destruct (prop_get k o) eqn:G; [exact N |].
  apply prop_get_None in G.
  apply NoDup_rev in N. rewrite <- (rev_involutive (_ ++ [k])%list).
  apply NoDup_rev. rewrite rev_app_distr. cbn. constructor; [| exact N].
  now rewrite <- in_rev.
Qed.

Lemma prop_set_sizes (k : string) (members : list record)
    (groups : object (list record)) :
  (sizes (prop_set k members groups)
   + match prop_get k groups with Some old => List.length old | None => 0 end
   = sizes groups + List.length members)%nat.
Proof.
  unfold sizes, list_sum.
  induction groups as [| [k' old] groups IH]; cbn in *; [lia |].
  destruct (String.eqb_spec k k') as [-> | N]; cbn in *; lia.
Qed.

Lemma pushItem_sizes (key : string) (item : record)
    (groups : object (list record)) :
  sizes (pushItem key item groups) = S (sizes groups).
Proof.
  unfold pushItem. destruct (prop_get key groups) as [old |] eqn:G.
  - pose proof (prop_set_sizes key (old ++ [item])%list groups) as E.
    rewrite G, length_app in E. cbn in E. lia.
  - pose proof (prop_set_sizes key [item] groups) as E.
    rewrite G in E. cbn in E. lia.
Qed.

Lemma pushItem_NoDup (key : string) (item : record)
    (groups : object (list record)) :
  List.NoDup (List.map fst groups) ->
  List.NoDup (List.map fst (pushItem key item groups)).
Proof.
  unfold pushItem. destruct (prop_get key groups); apply prop_set_NoDup.
Qed.

(** X2: grouping is a partition of the input. No key occurs twice
    among the groups, no group is empty, and the sizes of the groups add
    up to the number of records. *)
Theorem groups_partition_the_input
    (data : list record) (groupByFields : list string) :
  ownNames groupByFields = true ->
  ownNames (List.map (compositeKey groupByFields) data) = true ->
  List.NoDup (List.map fst (groupByMultiple data groupByFields))
  /\ (forall key members,
         prop_get key (groupByMultiple data groupByFields) = Some members ->
         members <> [])
  /\ sizes (groupByMultiple data groupByFields) = List.length data.
Proof.
  intros _ _. split; [| split].
  - unfold groupByMultiple.
    apply (GrouperFacts.fold_left_invariant
             (fun groups => List.NoDup (List.map fst groups))).
    + constructor.
    + intros groups item N. now apply pushItem_NoDup.
  - intros key members G. rewrite group_lookup in G.
    destruct (List.filter _ data); [discriminate | now injection G as <-].
  - unfold groupByMultiple.
    enough (E : forall groups,
               sizes (fold_left
                        (fun acc item =>
                           pushItem (compositeKey groupByFields item) item acc)
                        data groups)
               = (sizes groups + List.length data)%nat) by apply E.
    induction data as [| item data IH]; intros groups; cbn [fold_left].
    + cbn. lia.
    + rewrite IH, pushItem_sizes. cbn. lia.
Qed.

(** X3: every record of the input is a member of the group of its own
    composite key, and of no group with another key. *)
Theorem record_is_in_the_group_of_its_key
    (data : list record) (groupByFields : list string) (r : record) :
  ownNames groupByFields = true ->
  ownNames (List.map (compositeKey groupByFields) data) = true ->
  In r data ->
  (exists members,
      prop_get (compositeKey groupByFields r)
               (groupByMultiple data groupByFields) = Some members
      /\ In r members)
  /\ (forall key members,
         prop_get key (groupByMultiple data groupByFields) = Some members ->
         In r members -> key = compositeKey groupByFields r).
Proof.
  intros _ _ I. split.
  - rewrite group_lookup.
    assert (F : In r (List.filter
                        (fun x => String.eqb (compositeKey groupByFields x)
                                             (compositeKey groupByFields r))
                        data)).
    { apply filter_In. split; [exact I | apply String.eqb_refl]. }
    destruct (List.filter _ data) as [| m ms]; [destruct F |].
    now exists (m :: ms).
  - intros key members G M. symmetry.
    eapply GrouperFacts.members_have_the_key; eassumption.
Qed.

(** ** The single-field grouping *)

Lemma fold_left_agree {A B} (f g : A -> B -> A) (l : list B) (a : A) :
  (forall acc x, In x l -> f acc x = g acc x) ->
  fold_left f l a = fold_left g l a.
Proof.
  revert a. induction l as [| x l IH]; intros a E; cbn; [reflexivity |].
  rewrite E by now left. apply IH. intros acc y I. apply E. now right.
Qed.

(** X4: on records whose grouping value is neither missing nor null,
    [groupBy] builds the same groups, under the same keys and in the
    same order, as [groupByMultiple] with that one field. *)
Theorem groupBy_is_the_one_field_grouping
    (data : list record) (groupByField : string) :
  inherited groupByField = false ->
  ownNames (List.map (fun r => ToString (field r groupByField)) data) = true ->
  (forall r, In r data ->
             field r groupByField <> Null
             /\ field r groupByField <> Undefined) ->
  groupBy data groupByField = groupByMultiple data [groupByField].
Proof.
  intros _ _ Defined. unfold groupBy, groupByMultiple.
  apply fold_left_agree. intros groups r I.
  destruct (Defined r I) as [N U].
  unfold compositeKey, keyPart; cbn [List.map join String.concat].
  now destruct (field r groupByField).
Qed.

(** ** Aggregating a field that has no value *)

Lemma prefix_split (p s : string) :
  String.prefix p s = true -> exists rest, s = p ++ rest.
Proof.
  revert s. induction p as [| a p IH]; intros s P.
  - now exists s.
  - destruct s as [| b s]; [discriminate P |]. cbn in P.
    destruct (ascii_dec a b) as [-> | N]; [| discriminate P].
    destruct (IH s P) as [rest ->]. now exists rest.
Qed.

Lemma no_value_left (group : list record) (fieldName : string) :
  (forall r, In r group -> is_blank (field r fieldName) = true) ->
  List.filter (fun v => negb (is_blank v))
              (List.map (fun item => field item fieldName) group) = [].
Proof.
  induction group as [| r group IH]; intros B; [reflexivity |].
  cbn [List.map List.filter]. rewrite (B r) by now left. cbn.
  apply IH. intros x I. apply B. now right.
Qed.

(** X5: when the field is missing, null or the empty string on every
    record of the group (an empty group included), the aggregates are:
    [sum], [avg], [count] and [count_distinct] 0, every percentile 0,
    [min] Infinity and [max] -Infinity, [first] and [last] undefined,
    [concat] the empty string and [array] the empty array. *)
Theorem aggregates_of_a_field_without_value
    (group : list record) (fieldName aggType : string) :
  inherited fieldName = false ->
  (forall r, In r group -> is_blank (field r fieldName) = true) ->
  aggregateField group fieldName (Some "sum")
  = Returned (Some (One (Num (of_Z 0))))
  /\ aggregateField group fieldName (Some "avg")
     = Returned (Some (One (Num (of_Z 0))))
  /\ aggregateField group fieldName (Some "count")
     = Returned (Some (One (Num (of_Z 0))))
  /\ aggregateField group fieldName (Some "count_distinct")
     = Returned (Some (One (Num (of_Z 0))))
  /\ aggregateField group fieldName (Some "min")
     = Returned (Some (One (Num PosInf)))
  /\ aggregateField group fieldName (Some "max")
     = Returned (Some (One (Num NegInf)))
  /\ aggregateField group fieldName (Some "first")
     = Returned (Some (One Undefined))
  /\ aggregateField group fieldName (Some "last")
     = Returned (Some (One Undefined))
  /\ aggregateField group fieldName (Some "concat")
     = Returned (Some (One (Str EmptyString)))
  /\ aggregateField group fieldName (Some "array") = Returned (Some (Many []))
  /\ (startsWith aggType "percentile:" = true ->
      aggregateField group fieldName (Some aggType)
      = Returned (Some (One (Num (of_Z 0))))).
Proof.
  intros _ B. pose proof (no_value_left group fieldName B) as E.
  unfold aggregateField. rewrite E.
  repeat (split; [reflexivity |]).
  intros P. destruct (prefix_split _ _ P) as [rest ->].
  rewrite P. reflexivity.
Qed.

(** ** Sorting *)

Lemma sort_insert_perm {A} (cmp : A -> A -> number) (x : A) (l : list A) :
  Permutation (sort_insert cmp x l) (x :: l).
Proof.
  induction l as [| y l IH]; cbn [sort_insert]; [reflexivity |].
  destruct (ltb (of_Z 0) (cmp x y)); [| reflexivity].
  rewrite IH. apply perm_swap.
Qed.

Lemma Array_sort_perm {A} (cmp : A -> A -> number) (l : list A) :
  Permutation (Array_sort cmp l) l.
Proof.
  induction l as [| x l IH]; [reflexivity |].
  cbn [Array_sort fold_right]. fold (Array_sort cmp l).
  rewrite sort_insert_perm. now constructor.
Qed.

(** Two sorted lists of the same finite numbers are the same list. *)
Lemma sorted_unique (l1 l2 : list number) :
  StronglySorted notAbove l1 -> StronglySorted notAbove l2 ->
  Permutation l1 l2 -> allFinite l1 -> l1 = l2.
Proof.
  revert l2. induction l1 as [| a t1 IH]; intros l2 S1 S2 P F.
  - apply Permutation_nil in P. now subst.
  - destruct l2 as [| b t2].
    + symmetry in P. now apply Permutation_nil in P.
    + assert (Ia : In a (b :: t2)) by (eapply Permutation_in; [exact P | now left]).
      assert (Ib : In b (a :: t1)).
      { eapply Permutation_in; [symmetry; exact P | now left]. }
      pose proof (GrouperFacts.first_is_lowest _ _ S1 Ib) as A.
      pose proof (GrouperFacts.first_is_lowest _ _ S2 Ia) as B.
      cbn in A, B.
      pose proof (F a (or_introl eq_refl)) as Fa. pose proof (F b Ib) as Fb.
      destruct a as [| | | qa]; try discriminate Fa.
      destruct b as [| | | qb]; try discriminate Fb.
      pose proof (JSFacts.notAbove_antisym _ _ A B) as E.
      injection E as ->. f_equal.
      apply StronglySorted_inv in S1 as [S1 _].
      apply StronglySorted_inv in S2 as [S2 _].
      apply IH; try assumption.
      * now apply Permutation_cons_inv in P.
      * intros v I. apply F. now right.
Qed.

(** X6: a percentile of finite numbers does not depend on the order in
    which the values are given. *)
Theorem percentile_ignores_the_order
    (qs qs' : list Qc) (percentile : number) :
  Permutation qs qs' ->
  calculatePercentile (List.map Fin qs) percentile
  = calculatePercentile (List.map Fin qs') percentile.
Proof.
  intros P.
  assert (E : Array_sort sub (List.map Fin qs) = Array_sort sub (List.map Fin qs')).
  { apply sorted_unique.
    - apply GrouperFacts.Array_sort_sorted, GrouperFacts.allFinite_map.
    - apply GrouperFacts.Array_sort_sorted, GrouperFacts.allFinite_map.
    - rewrite !Array_sort_perm. now apply Permutation_map.
    - intros v I. apply GrouperFacts.Array_sort_In in I.
      now apply GrouperFacts.allFinite_map in I. }
  unfold calculatePercentile. rewrite E.
  destruct qs as [| q qs], qs' as [| q' qs']; cbn [List.map]; try reflexivity.
  - now apply Permutation_nil in P.
  - symmetry in P. now apply Permutation_nil in P.
Qed.

(** ** Percentiles stay within the data *)

Lemma leb_Fin (a b : Qc) : leb (Fin a) (Fin b) = true <-> (a <= b)%Qc.
Proof.
  unfold leb, ltb, eqb, Qc_ltb, Qc_eqb, Qccompare, Qcle.
  rewrite Qle_alt. destruct (a ?= b)%Q; cbn; split; congruence.
Qed.

Lemma nth_sorted (l : list number) (i j : nat) :
  StronglySorted notAbove l -> (i <= j < List.length l)%nat ->
  notAbove (nth i l NaN) (nth j l NaN).
Proof.
  intros S. revert i j. induction S as [| x t S IH Low]; intros i j B.
  - cbn in B. lia.
  - destruct i as [| i], j as [| j]; cbn in B |- *; try lia.
    + apply JSFacts.notAbove_refl.
    + rewrite List.Forall_forall in Low. apply Low, nth_In. lia.
    + apply IH. lia.
Qed.

(** Interpolating between [a] and [b] with a weight in [0, 1] stays
    between them. *)
Lemma blend_between (a b w : Qc) :
  (a <= b)%Qc -> (0 <= w)%Qc -> (w <= 1)%Qc ->
  (a <= a * (Q2Qc (inject_Z 1) + - w) + b * w)%Qc
  /\ (a * (Q2Qc (inject_Z 1) + - w) + b * w <= b)%Qc.
Proof.
  unfold Qcle, Qcmult, Qcplus, Qcopp, Q2Qc; cbn [this].
  rewrite !Qred_correct. change (inject_Z 1) with 1%Q. intros. split; nra.
Qed.

(** The rank of a percentile between 0 and 100 among [m + 1] values:
    its floor and ceiling are indices, and the weight is in [0, 1]. *)
Lemma rank_bounds (pq : Qc) (m : Z) :
  (0 <= pq)%Qc -> (pq <= Q2Qc (inject_Z 100))%Qc -> (0 <= m)%Z ->
  let idx := (pq / Q2Qc (inject_Z 100) * Q2Qc (inject_Z m))%Qc in
  (0 <= Qfloor idx)%Z
  /\ (Qfloor idx <= Qceiling idx)%Z
  /\ (Qceiling idx <= m)%Z
  /\ (0 <= idx + - Q2Qc (inject_Z (Qfloor idx)))%Qc
  /\ (idx + - Q2Qc (inject_Z (Qfloor idx)) <= 1)%Qc.
Proof.
  intros P0 P100 M idx.
  assert (I : (0 <= idx)%Q /\ (idx <= inject_Z m)%Q).
  { subst idx. revert P0 P100.
    unfold Qcle, Qcdiv, Qcinv, Qcmult, Q2Qc; cbn [this].
    rewrite !Qred_correct.
    change (/ inject_Z 100)%Q with (1 # 100)%Q.
    change (inject_Z 100) with 100%Q. intros P0 P100.
    assert (Mq : (inject_Z 0 <= inject_Z m)%Q) by (now rewrite <- Zle_Qle).
    change (inject_Z 0) with 0%Q in Mq.
    split; nra. }
  destruct I as [I0 Im].
  pose proof (Qfloor_le idx) as F1. pose proof (Qlt_floor idx) as F2.
  rewrite inject_Z_plus in F2.
  split; [| split; [| split; [| split]]].
  - change 0%Z with (Qfloor 0). now apply Qfloor_resp_le.
  - rewrite Zle_Qle. apply Qle_floor_ceiling.
  - rewrite <- (Qceiling_Z m). now apply Qceiling_resp_le.
  - unfold Qcle, Qcplus, Qcopp, Q2Qc; cbn [this]. rewrite !Qred_correct.
    change (inject_Z 1) with 1%Q in F2. lra.
  - unfold Qcle, Qcplus, Qcopp, Q2Qc; cbn [this]. rewrite !Qred_correct.
    change (inject_Z 1) with 1%Q in F2. lra.
Qed.

Lemma rank_value (pq : Qc) (m : Z) :
  mul (div (Fin pq) (of_Z 100)) (of_Z m)
  = Fin (pq / Q2Qc (inject_Z 100) * Q2Qc (inject_Z m)).
Proof. reflexivity. Qed.

Lemma floor_Fin (q : Qc) : floor (Fin q) = of_Z (Qfloor q).
Proof. reflexivity. Qed.

Lemma ceil_Fin (q : Qc) : ceil (Fin q) = of_Z (Qceiling q).
Proof. reflexivity. Qed.

Lemma sub_Fin (q : Qc) (z : Z) :
  sub (Fin q) (of_Z z) = Fin (q + - Q2Qc (inject_Z z)).
Proof. reflexivity. Qed.

(** In the exact arithmetic of the model, for a percentile between 0
    and 100 and at least one finite value, the result is a finite number
    that lies between the minimum and the maximum of the values. *)
Lemma percentile_in_range (qs : list Qc) (percentile : number) :
  qs <> [] ->
  leb (of_Z 0) percentile = true ->
  leb percentile (of_Z 100) = true ->
  is_finite (calculatePercentile (List.map Fin qs) percentile) = true
  /\ notAbove (Math_min (List.map Fin qs))
              (calculatePercentile (List.map Fin qs) percentile)
  /\ notAbove (calculatePercentile (List.map Fin qs) percentile)
              (Math_max (List.map Fin qs)).
Proof.
  intros NE P0 P100.
  destruct percentile as [| | | pq]; try discriminate.
  apply leb_Fin in P0, P100.
  assert (F : allFinite (List.map Fin qs)) by apply GrouperFacts.allFinite_map.
  assert (NE' : List.map Fin qs <> []).
  { destruct qs; [congruence | discriminate]. }
  remember (List.map Fin qs) as values eqn:Hv. clear Hv NE qs.
  remember (Z.of_nat (List.length values)) as n eqn:Hn.
  assert (Len : (1 <= n)%Z).
  { subst n. destruct values; [congruence | cbn; lia]. }
  assert (S := GrouperFacts.Array_sort_sorted values F).
  assert (Ls := GrouperFacts.Array_sort_length sub values).
  destruct (rank_bounds pq (n - 1) P0 P100 ltac:(lia))
    as (Lo0 & LoHi & HiM & W0 & W1).
  remember (pq / Q2Qc (inject_Z 100) * Q2Qc (inject_Z (n - 1)))%Qc as idx
    eqn:Hi.
  assert (E : calculatePercentile values (Fin pq)
              = add (mul (nth (Z.to_nat (Qfloor idx)) (Array_sort sub values) NaN)
                         (sub (of_Z 1)
                              (Fin (idx + - Q2Qc (inject_Z (Qfloor idx))))))
                    (mul (nth (Z.to_nat (Qceiling idx)) (Array_sort sub values) NaN)
                         (Fin (idx + - Q2Qc (inject_Z (Qfloor idx)))))).
  { unfold calculatePercentile.
    destruct values as [| v0 rest] eqn:V; [congruence |].
    rewrite <- V in *. cbv zeta. rewrite Ls, <- Hn.
    rewrite JSFacts.sub_of_Z, rank_value, <- Hi.
    rewrite floor_Fin, ceil_Fin, sub_Fin, JSFacts.leb_of_Z.
    destruct (Z.leb_spec n (Qceiling idx)); [lia |].
    rewrite !JSFacts.element_of_Z by lia. reflexivity. }
  rewrite E. clear E.
  assert (Ia : In (nth (Z.to_nat (Qfloor idx)) (Array_sort sub values) NaN) values).
  { apply (GrouperFacts.Array_sort_In sub), nth_In. lia. }
  assert (Ib : In (nth (Z.to_nat (Qceiling idx)) (Array_sort sub values) NaN) values).
  { apply (GrouperFacts.Array_sort_In sub), nth_In. lia. }
  assert (AB : notAbove (nth (Z.to_nat (Qfloor idx)) (Array_sort sub values) NaN)
                        (nth (Z.to_nat (Qceiling idx)) (Array_sort sub values) NaN)).
  { apply nth_sorted; [exact S | lia]. }
  destruct (GrouperFacts.Math_min_lowest values NE' F) as [_ Low].
  destruct (GrouperFacts.Math_max_highest values NE' F) as [_ High].
  specialize (Low _ Ia). specialize (High _ Ib).
  pose proof (F _ Ia) as Fa. pose proof (F _ Ib) as Fb.
  destruct (nth (Z.to_nat (Qfloor idx)) (Array_sort sub values) NaN)
    as [| | | a]; try discriminate Fa.
  destruct (nth (Z.to_nat (Qceiling idx)) (Array_sort sub values) NaN)
    as [| | | b]; try discriminate Fb.
  apply JSFacts.Qc_ltb_ge in AB.
  destruct (blend_between a b _ AB W0 W1) as [Ba Bb].
  cbn [sub neg add mul of_Z].
  split; [reflexivity |]. split.
  - apply (JSFacts.notAbove_trans _ (Fin a)); [reflexivity | exact Low |].
    now apply JSFacts.Qc_ltb_ge.
  - apply (JSFacts.notAbove_trans _ (Fin b)); [reflexivity | | exact High].
    now apply JSFacts.Qc_ltb_ge.
Qed.

(** X7: for a percentile between 0 and 100 and at least one finite
    value, [calculatePercentile] reads inside the sorted array only:
    its result is a number, not [NaN]. *)
Theorem percentile_is_a_number (qs : list Qc) (percentile : number) :
  qs <> [] ->
  leb (of_Z 0) percentile = true ->
  leb percentile (of_Z 100) = true ->
  is_NaN (calculatePercentile (List.map Fin qs) percentile) = false.
Proof.
  intros NE P0 P100. apply GrouperFacts.finite_not_NaN.
  now destruct (percentile_in_range qs percentile NE P0 P100).
Qed.

(** ** The pivot table *)

Lemma Qc_eqb_eq (a b : Qc) : Qc_eqb a b = true <-> a = b.
Proof.
  unfold Qc_eqb. rewrite Qceq_alt. destruct (a ?= b)%Qc; split; congruence.
Qed.

(** In this model the equality of [Set] is equality. *)
Lemma same_value_zero_eq (x y : prim) : same_value_zero x y = true <-> x = y.
Proof.
  destruct x as [| | a | [| | | p] | s], y as [| | b | [| | | q] | t]; cbn;
    try (split; [discriminate | congruence]);
    try (split; reflexivity).
  - destruct a, b; cbn; split; congruence.
  - rewrite Qc_eqb_eq. split; congruence.
  - rewrite String.eqb_eq. split; congruence.
Qed.

Lemma set_add_In (x v : prim) (s : list prim) :
  In v (set_add x s) <-> v = x \/ In v s.
Proof.
  induction s as [| y s IH]; cbn [set_add In].
  - intuition congruence.
  - destruct (same_value_zero x y) eqn:E.
    + apply same_value_zero_eq in E as ->. cbn [In]. intuition congruence.
    + cbn [In]. rewrite IH. intuition congruence.
Qed.

Lemma set_add_NoDup (x : prim) (s : list prim) :
  List.NoDup s -> List.NoDup (set_add x s).
Proof.
  induction s as [| y s IH]; intros N; cbn [set_add].
  - repeat constructor. intros [].
  - destruct (same_value_zero x y) eqn:E; [exact N |].
    apply List.NoDup_cons_iff in N as [Ny N].
    constructor; [| now apply IH].
    rewrite set_add_In. intros [-> | I]; [| tauto].
    assert (T : same_value_zero x x = true) by now apply same_value_zero_eq.
    congruence.
Qed.

Lemma collected_sets (rowField columnField valueField : string)
    (table : list record) (acc : collected) :
  let c := fold_left (collectItem rowField columnField valueField) table acc in
  (forall v, In v (rowSet c)
             <-> In v (rowSet acc)
                 \/ exists item, In item table /\ field item rowField = v)
  /\ (forall v, In v (columnSet c)
                <-> In v (columnSet acc)
                    \/ exists item, In item table /\ field item columnField = v)
  /\ (List.NoDup (rowSet acc) -> List.NoDup (rowSet c))
  /\ (List.NoDup (columnSet acc) -> List.NoDup (columnSet c)).
Proof.
  revert acc. induction table as [| item table IH]; intros acc; cbn zeta.
  - cbn. repeat split; try tauto; intros [I | (x & [] & _)]; exact I.
  - cbn [fold_left].
    destruct (IH (collectItem rowField columnField valueField acc item))
      as (R & C & NR & NC).
    cbn [collectItem rowSet columnSet] in R, C, NR, NC.
    split; [| split; [| split]].
    + intros v. rewrite R, set_add_In. split.
      * intros [[-> | I] | (x & I & E)].
        -- right. exists item. split; [now left | reflexivity].
        -- now left.
        -- right. exists x. split; [now right | exact E].
      * intros [I | (x & [<- | I] & E)].
        -- left. now right.
        -- left. left. now symmetry.
        -- right. now exists x.
    + intros v. rewrite C, set_add_In. split.
      * intros [[-> | I] | (x & I & E)].
        -- right. exists item. split; [now left | reflexivity].
        -- now left.
        -- right. exists x. split; [now right | exact E].
      * intros [I | (x & [<- | I] & E)].
        -- left. now right.
        -- left. left. now symmetry.
        -- right. now exists x.
    + intros N. now apply NR, set_add_NoDup.
    + intros N. now apply NC, set_add_NoDup.
Qed.

Lemma filter_split {A} (keep : A -> bool) (l : list A) :
  Permutation (List.filter (fun x => negb (keep x)) l ++ List.filter keep l)%list l.
Proof.
  induction l as [| x l IH]; [reflexivity |].
  cbn [List.filter]. destruct (keep x); cbn [negb].
  - rewrite <- Permutation_middle. now constructor.
  - cbn. now constructor.
Qed.

Lemma sortDefault_perm (l : list prim) : Permutation (sortDefault l) l.
Proof.
  unfold sortDefault. rewrite Array_sort_perm. apply filter_split.
Qed.

(** X8: the lists [rows] and [columns] of the pivot table hold the
    values of the row field, and of the column field, that occur in the
    table, each of them once. *)
Theorem pivot_keys_are_the_distinct_values
    (table : list record) (rowField columnField valueField : string)
    (aggFunction : option string) :
  inherited rowField = false ->
  inherited columnField = false ->
  let pivoted := pivotTable table rowField columnField valueField aggFunction in
  (forall v, In v (rows pivoted)
             <-> exists item, In item table /\ field item rowField = v)
  /\ (forall v, In v (columns pivoted)
                <-> exists item, In item table /\ field item columnField = v)
  /\ List.NoDup (rows pivoted)
  /\ List.NoDup (columns pivoted).
Proof.
  intros _ _. cbn zeta. unfold pivotTable; cbn [rows columns]. unfold collect.
  destruct (collected_sets rowField columnField valueField table
              {| rowSet := []; columnSet := []; cellValues := [] |})
    as (R & C & NR & NC).
  cbn [rowSet columnSet] in R, C, NR, NC.
  split; [| split; [| split]].
  - intros v. rewrite GrouperFacts.sortDefault_In, R. cbn. tauto.
  - intros v. rewrite GrouperFacts.sortDefault_In, C. cbn. tauto.
  - eapply Permutation_NoDup; [symmetry; apply sortDefault_perm |].
    apply NR. constructor.
  - eapply Permutation_NoDup; [symmetry; apply sortDefault_perm |].
    apply NC. constructor.
Qed.

Lemma own_is_not_proto (k : string) : inherited k = false -> k <> "__proto__".
Proof. intros E ->. discriminate E. Qed.

(** What the first loop has collected under a key: the values of the
    records of that key, in the order of the table. *)
Lemma collected_values (rowField columnField valueField : string)
    (table : list record) (acc : collected) (k : string) :
  prop_get k (cellValues (fold_left (collectItem rowField columnField valueField)
                                    table acc))
  = match List.filter
            (fun item => String.eqb (cellKey (field item rowField)
                                             (field item columnField)) k)
            table with
    | [] => prop_get k (cellValues acc)
    | later =>
        Some (match prop_get k (cellValues acc) with
              | Some vals => vals
              | None => []
              end
              ++ List.map (fun item => number_or (of_Z 0) (field item valueField))
                          later)%list
    end.
Proof.
  revert acc. induction table as [| item table IH]; intros acc; [reflexivity |].
  cbn [fold_left List.filter]. rewrite IH. clear IH.
  cbn [collectItem cellValues].
  set (key := cellKey (field item rowField) (field item columnField)).
  set (val := number_or (of_Z 0) (field item valueField)).
  assert (G : prop_get k
                (match prop_get key (cellValues acc) with
                 | Some vals => prop_set key (vals ++ [val])%list (cellValues acc)
                 | None => prop_set key [val] (cellValues acc)
                 end)
              = if String.eqb k key
                then Some (match prop_get key (cellValues acc) with
                           | Some vals => vals
                           | None => []
                           end ++ [val])%list
                else prop_get k (cellValues acc)).
  { destruct (prop_get key (cellValues acc)); rewrite GrouperFacts.prop_get_set;
      reflexivity. }
  rewrite G. rewrite (String.eqb_sym k key).
  destruct (String.eqb_spec key k) as [-> | N]; [| reflexivity].
  destruct (List.filter _ table) as [| r later]; cbn [List.map app].
  - reflexivity.
  - now rewrite <- app_assoc.
Qed.

(** X9: the pivot table is complete and its cells aggregate the
    records. For every row key and column key of the emitted lists there
    is a cell, and it holds, over the values [Number(item[valueField])
    || 0] of the records whose key [row::col] is that of the pair: their
    number for [count]; 0 when there is none, and else their mean, their
    least or their greatest for [avg], [min] and [max]; their sum for
    [sum] and for every other function. *)
Theorem pivot_has_every_cell
    (table : list record) (rowField columnField valueField : string)
    (aggFunction : option string) (row col : prim) :
  inherited rowField = false ->
  inherited columnField = false ->
  inherited (ToString row) = false ->
  inherited (ToString col) = false ->
  In row (rows (pivotTable table rowField columnField valueField aggFunction)) ->
  In col (columns (pivotTable table rowField columnField valueField aggFunction)) ->
  let agg := match aggFunction with Some f => f | None => "sum" end in
  let vals :=
    List.map (fun item =>
                if truthy_number (ToNumber (field item valueField))
                then ToNumber (field item valueField) else of_Z 0)
             (List.filter
                (fun item =>
                   String.eqb (ToString (field item rowField) ++ "::"
                               ++ ToString (field item columnField))
                              (ToString row ++ "::" ++ ToString col))
                table) in
  exists cells cell,
    prop_get (ToString row)
             (data (pivotTable table rowField columnField valueField aggFunction))
    = Some cells
    /\ prop_get (ToString col) cells = Some cell
    /\ (agg = "count" -> cell = of_Z (Z.of_nat (List.length vals)))
    /\ (agg = "avg" ->
        cell = match vals with
               | [] => of_Z 0
               | _ => div (fold_left add vals (of_Z 0))
                          (of_Z (Z.of_nat (List.length vals)))
               end)
    /\ (agg = "min" ->
        cell = match vals with [] => of_Z 0 | _ => Math_min vals end)
    /\ (agg = "max" ->
        cell = match vals with [] => of_Z 0 | _ => Math_max vals end)
    /\ (~ In agg ["avg"; "count"; "min"; "max"] ->
        cell = fold_left add vals (of_Z 0)).
Proof.
  intros _ _ OwnRow OwnCol Irow Icol agg vals.
  apply own_is_not_proto in OwnRow, OwnCol.
  unfold pivotTable in *; cbn [rows columns data] in *.
  set (c := collect table rowField columnField valueField) in *.
  rewrite GrouperFacts.sortDefault_In in Irow, Icol.
  assert (Collected : collectedFor (cellValues c) (cellKey row col) = vals).
  { unfold collectedFor, c, collect. rewrite collected_values.
    cbn [cellValues prop_get]. subst vals. unfold cellKey, number_or.
    now destruct (List.filter _ table). }
  exists (pivotRow agg (cellValues c) (columnSet c) row),
    (aggregateCell agg vals).
  split; [| split].
  - unfold pivotData.
    apply (GrouperFacts.assigned_own ToString
             (fun row => pivotRow agg (cellValues c) (columnSet c) row));
      [exact OwnRow | |].
    + right. now exists row.
    + intros row' _ E. unfold pivotRow, cellKey. now rewrite E.
  - unfold pivotRow.
    apply (GrouperFacts.assigned_own ToString
             (fun col => aggregateCell agg
                           (collectedFor (cellValues c) (cellKey row col))));
      [exact OwnCol | |].
    + right. now exists col.
    + intros col' _ E. rewrite <- Collected. unfold cellKey in *. now rewrite E.
  - unfold aggregateCell, total, Grouper.count.
    repeat split.
    + intros ->. reflexivity.
    + intros ->. reflexivity.
    + intros ->. reflexivity.
    + intros ->. reflexivity.
    + intros Other. cbn [In] in Other.
      destruct (String.eqb agg "sum"); [reflexivity |].
      destruct (String.eqb_spec agg "avg") as [E | _];
        [exfalso; apply Other; rewrite E; auto 6 |].
      destruct (String.eqb_spec agg "count") as [E | _];
        [exfalso; apply Other; rewrite E; auto 6 |].
      destruct (String.eqb_spec agg "min") as [E | _];
        [exfalso; apply Other; rewrite E; auto 6 |].
      destruct (String.eqb_spec agg "max") as [E | _];
        [exfalso; apply Other; rewrite E; auto 6 |].
      reflexivity.
Qed.

(** ** Group statistics *)

Lemma statsOf_group (statField key : string) (members : list record) :
  group (statsOf statField key members) = key.
Proof. unfold statsOf. now destruct (numericValues statField members). Qed.

(** X10: [getGroupStats] returns one entry for each group, named by
    the key of the group, whatever order the collation gives. *)
Theorem stats_have_one_entry_per_group
    (localeCompare : string -> string -> number)
    (groups : object (list record)) (statField : string) :
  Permutation (List.map group (getGroupStats localeCompare groups statField))
              (List.map fst groups)
  /\ List.length (getGroupStats localeCompare groups statField)
     = List.length groups.
Proof.
  unfold getGroupStats. split.
  - rewrite Array_sort_perm, List.map_map.
    erewrite List.map_ext; [reflexivity |].
    intros [key members]. apply statsOf_group.
  - now rewrite GrouperFacts.Array_sort_length, length_map.
Qed.

Lemma finite_list (vs : list number) :
  allFinite vs -> exists qs, vs = List.map Fin qs.
Proof.
  induction vs as [| v vs IH]; intros F.
  - now exists [].
  - apply GrouperFacts.allFinite_cons in F as [Fv F].
    destruct (IH F) as [qs ->].
    destruct v as [| | | q]; try discriminate Fv. now exists (q :: qs).
Qed.

Lemma keep_finite (vs : list number) :
  allFinite vs -> List.filter (fun v => negb (is_NaN v)) vs = vs.
Proof.
  induction vs as [| v vs IH]; intros F; [reflexivity |].
  apply GrouperFacts.allFinite_cons in F as [Fv F].
  cbn [List.filter]. rewrite (GrouperFacts.finite_not_NaN v Fv). cbn.
  now rewrite IH.
Qed.

Lemma total_Fin (qs : list Qc) (a : Qc) :
  fold_left add (List.map Fin qs) (Fin a) = Fin (fold_left Qcplus qs a).
Proof.
  revert a. induction qs as [| q qs IH]; intros a; [reflexivity |].
  cbn [List.map fold_left]. apply IH.
Qed.

Lemma sum_bounds (qs : list Qc) (a lo hi : Qc) :
  (forall q, In q qs -> (lo <= q)%Qc /\ (q <= hi)%Qc) ->
  (a + lo * Q2Qc (inject_Z (Z.of_nat (List.length qs)))
   <= fold_left Qcplus qs a)%Qc
  /\ (fold_left Qcplus qs a
      <= a + hi * Q2Qc (inject_Z (Z.of_nat (List.length qs))))%Qc.
Proof.
  revert a. induction qs as [| q qs IH]; intros a B.
  - cbn [fold_left List.length Z.of_nat]. unfold Qcle, Qcplus, Qcmult, Q2Qc.
    cbn [this]. rewrite !Qred_correct.
    change (inject_Z (Z.of_nat 0)) with 0%Q. split; lra.
  - destruct (B q (or_introl eq_refl)) as [Bl Bh].
    destruct (IH (a + q)%Qc (fun x I => B x (or_intror I))) as [L Hh].
    cbn [fold_left]. revert Bl Bh L Hh.
    generalize (fold_left Qcplus qs (a + q)%Qc). intros total.
    replace (Z.of_nat (List.length (q :: qs)))
      with (Z.of_nat (List.length qs) + 1)%Z by (cbn [List.length]; lia).
    unfold Qcle, Qcplus, Qcmult, Q2Qc. cbn [this]. rewrite !Qred_correct.
    rewrite inject_Z_plus. change (inject_Z 1) with 1%Q.
    intros. split; lra.
Qed.

Lemma mean_between (total lo hi : Qc) (n : Z) :
  (1 <= n)%Z ->
  (lo * Q2Qc (inject_Z n) <= total)%Qc ->
  (total <= hi * Q2Qc (inject_Z n))%Qc ->
  (lo <= total / Q2Qc (inject_Z n))%Qc
  /\ (total / Q2Qc (inject_Z n) <= hi)%Qc.
Proof.
  intros N. unfold Qcle, Qcdiv, Qcinv, Qcmult, Q2Qc. cbn [this].
  rewrite !Qred_correct. intros L Hh.
  assert (P : (0 < inject_Z n)%Q).
  { change 0%Q with (inject_Z 0). rewrite <- Zlt_Qlt. lia. }
  split.
  - apply Qle_shift_div_l; assumption.
  - apply Qle_shift_div_r; assumption.
Qed.

(** For a group in which the statistics field is a finite number on
    every record, the entry counts every record, its [min] and [max]
    are values of the group with no value below, respectively above,
    them and, in the exact arithmetic of the model, its [avg] lies
    between the two. *)
Lemma numeric_group_exact
    (statField key : string) (members : list record) :
  members <> [] ->
  (forall r, In r members -> is_finite (ToNumber (field r statField)) = true) ->
  let values := List.map (fun r => ToNumber (field r statField)) members in
  let entry := statsOf statField key members in
  count entry = of_Z (Z.of_nat (List.length members))
  /\ In (min entry) values
  /\ (forall v, In v values -> notAbove (min entry) v)
  /\ In (max entry) values
  /\ (forall v, In v values -> notAbove v (max entry))
  /\ is_finite (avg entry) = true
  /\ notAbove (min entry) (avg entry)
  /\ notAbove (avg entry) (max entry).
Proof.
  intros NE Fin_all values entry.
  assert (F : allFinite values).
  { intros v I. apply in_map_iff in I as (r & <- & I). now apply Fin_all. }
  assert (NE' : values <> []).
  { subst values. destruct members; [congruence | discriminate]. }
  assert (E : entry
              = {| group := key;
                   count := Grouper.count _ values;
                   sum := Grouper.total values;
                   avg := div (Grouper.total values) (Grouper.count _ values);
                   min := Math_min values;
                   max := Math_max values |}).
  { subst entry. unfold statsOf, numericValues. fold values.
    rewrite (keep_finite values F). now destruct values. }
  rewrite E. cbn [count min max avg].
  destruct (GrouperFacts.Math_min_lowest values NE' F) as [Imin Low].
  destruct (GrouperFacts.Math_max_highest values NE' F) as [Imax High].
  split; [| split; [| split; [| split; [| split]]]]; try assumption.
  - unfold Grouper.count. subst values. now rewrite length_map.
  - destruct (finite_list values F) as [qs Eq].
    pose proof (F _ Imin) as Fm. pose proof (F _ Imax) as FM.
    destruct (Math_min values) as [| | | lo] eqn:Em; try discriminate Fm.
    destruct (Math_max values) as [| | | hi] eqn:EM; try discriminate FM.
    assert (B : forall q, In q qs -> (lo <= q)%Qc /\ (q <= hi)%Qc).
    { intros q I.
      assert (Iv : In (Fin q) values) by (rewrite Eq; now apply in_map).
      split; apply JSFacts.Qc_ltb_ge; [apply (Low _ Iv) | apply (High _ Iv)]. }
    assert (N : (1 <= Z.of_nat (List.length qs))%Z).
    { destruct qs; [subst values; now rewrite Eq in NE' | cbn; lia]. }
    destruct (sum_bounds qs (Q2Qc (inject_Z 0)) lo hi B) as [SL SH].
    rewrite !Qcplus_0_l in SL, SH.
    destruct (mean_between _ lo hi _ N SL SH) as [ML MH].
    assert (Ea : div (Grouper.total values) (Grouper.count _ values)
                 = Fin (fold_left Qcplus qs (Q2Qc (inject_Z 0))
                        / Q2Qc (inject_Z (Z.of_nat (List.length qs))))).
    { unfold Grouper.total, Grouper.count. rewrite Eq, length_map.
      unfold of_Z at 1. rewrite total_Fin. unfold div, of_Z, Qc_sign.
      change 0%Qc with (Q2Qc (inject_Z 0)). rewrite JSFacts.Qc_compare_of_Z.
      destruct (Z.compare_spec (Z.of_nat (List.length qs)) 0); try lia.
      reflexivity. }
    rewrite Ea. split; [reflexivity |].
    split; now apply JSFacts.Qc_ltb_ge.
Qed.

(** X11: for a group in which the statistics field is a finite number
    on every record, the entry counts every record, and its [min] and
    [max] are values of the group with no value below, respectively
    above, them (a value 0 included). *)
Theorem stats_of_a_numeric_group
    (statField key : string) (members : list record) :
  members <> [] ->
  (forall r, In r members -> is_finite (ToNumber (field r statField)) = true) ->
  let values := List.map (fun r => ToNumber (field r statField)) members in
  let entry := statsOf statField key members in
  count entry = of_Z (Z.of_nat (List.length members))
  /\ In (min entry) values
  /\ (forall v, In v values -> notAbove (min entry) v)
  /\ In (max entry) values
  /\ (forall v, In v values -> notAbove v (max entry)).
Proof.
  intros NE Fin_all values entry.
  destruct (numeric_group_exact statField key members NE Fin_all)
    as (C & Imin & Low & Imax & High & _).
  repeat split; assumption.
Qed.

End WithHost.

(** ** The theorems on sample tables *)

(** X1 on the table [sales] grouped by [r], at the key [x]. *)
Lemma group_of_key_witness :
  prop_get "x" (groupByMultiple (H := sampleHost) sales ["r"])
  = match List.filter
            (fun r => String.eqb (compositeKey (H := sampleHost) ["r"] r) "x")
            sales with
    | [] => None
    | members => Some members
    end.
Proof.
  apply (group_is_the_records_of_its_key (H := sampleHost) sales ["r"] "x");
    reflexivity.
Defined.

(** X2 on the table [sales] grouped by [r]. *)
Lemma partition_witness :
  List.NoDup (List.map fst (groupByMultiple (H := sampleHost) sales ["r"]))
  /\ (forall key members,
         prop_get key (groupByMultiple (H := sampleHost) sales ["r"])
         = Some members ->
         members <> [])
  /\ sizes (groupByMultiple (H := sampleHost) sales ["r"]) = List.length sales.
Proof.
  apply (groups_partition_the_input (H := sampleHost) sales ["r"]);
    reflexivity.
Defined.

(** X3 on the records [{f: null}] and [{f: ''}] grouped by [f]. *)
Lemma record_in_its_group_witness :
  In emptyF [nullF; emptyF]
  /\ (exists members,
         prop_get (compositeKey (H := sampleHost) ["f"] emptyF)
                  (groupByMultiple (H := sampleHost) [nullF; emptyF] ["f"])
         = Some members
         /\ In emptyF members)
  /\ (forall key members,
         prop_get key (groupByMultiple (H := sampleHost) [nullF; emptyF] ["f"])
         = Some members ->
         In emptyF members ->
         key = compositeKey (H := sampleHost) ["f"] emptyF).
Proof.
  split; [right; now left |].
  apply (record_is_in_the_group_of_its_key
           (H := sampleHost) [nullF; emptyF] ["f"] emptyF).
  - reflexivity.
  - reflexivity.
  - right. now left.
Defined.

(** X4 on the table [sales] grouped by [r]. *)
Lemma one_field_grouping_witness :
  (forall r, In r sales -> field r "r" <> Null /\ field r "r" <> Undefined)
  /\ groupBy (H := sampleHost) sales "r"
     = groupByMultiple (H := sampleHost) sales ["r"].
Proof.
  assert (Given : forall r, In r sales ->
                            field r "r" <> Null /\ field r "r" <> Undefined).
  { intros r [<- | [<- | [<- | []]]]; split; discriminate. }
  split; [exact Given |].
  apply (groupBy_is_the_one_field_grouping (H := sampleHost) sales "r");
    [reflexivity | reflexivity | exact Given].
Defined.

(** X5 on the group [{f: null}, {f: ''}] and the field [f]. *)
Lemma field_without_value_witness :
  (forall r, In r [nullF; emptyF] -> is_blank (field r "f") = true)
  /\ aggregateField (H := sampleHost) [nullF; emptyF] "f" (Some "sum")
     = Returned (Some (One (Num (of_Z 0))))
  /\ aggregateField (H := sampleHost) [nullF; emptyF] "f" (Some "avg")
     = Returned (Some (One (Num (of_Z 0))))
  /\ aggregateField (H := sampleHost) [nullF; emptyF] "f" (Some "count")
     = Returned (Some (One (Num (of_Z 0))))
  /\ aggregateField (H := sampleHost) [nullF; emptyF] "f" (Some "count_distinct")
     = Returned (Some (One (Num (of_Z 0))))
  /\ aggregateField (H := sampleHost) [nullF; emptyF] "f" (Some "min")
     = Returned (Some (One (Num PosInf)))
  /\ aggregateField (H := sampleHost) [nullF; emptyF] "f" (Some "max")
     = Returned (Some (One (Num NegInf)))
  /\ aggregateField (H := sampleHost) [nullF; emptyF] "f" (Some "first")
     = Returned (Some (One Undefined))
  /\ aggregateField (H := sampleHost) [nullF; emptyF] "f" (Some "last")
     = Returned (Some (One Undefined))
  /\ aggregateField (H := sampleHost) [nullF; emptyF] "f" (Some "concat")
     = Returned (Some (One (Str EmptyString)))
  /\ aggregateField (H := sampleHost) [nullF; emptyF] "f" (Some "array")
     = Returned (Some (Many []))
  /\ (startsWith "percentile:50" "percentile:" = true ->
      aggregateField (H := sampleHost) [nullF; emptyF] "f" (Some "percentile:50")
      = Returned (Some (One (Num (of_Z 0))))).
Proof.
  assert (Given : forall r, In r [nullF; emptyF] ->
                            is_blank (field r "f") = true).
  { intros r [<- | [<- | []]]; reflexivity. }
  split; [exact Given |].
  apply (aggregates_of_a_field_without_value
           (H := sampleHost) [nullF; emptyF] "f" "percentile:50");
    [reflexivity | exact Given].
Defined.

(** X6 on the values [3, 1] and [1, 3]. *)
Lemma percentile_order_witness :
  Permutation [Q2Qc 3; Q2Qc 1] [Q2Qc 1; Q2Qc 3]
  /\ calculatePercentile (List.map Fin [Q2Qc 3; Q2Qc 1]) (of_Z 50)
     = calculatePercentile (List.map Fin [Q2Qc 1; Q2Qc 3]) (of_Z 50).
Proof.
  split; [apply perm_swap |].
  apply (percentile_ignores_the_order
           [Q2Qc 3; Q2Qc 1] [Q2Qc 1; Q2Qc 3] (of_Z 50)).
  apply perm_swap.
Defined.

(** X7 on the values [3, 1, 2] and the percentile 50. *)
Lemma percentile_number_witness :
  is_NaN (calculatePercentile (List.map Fin [Q2Qc 3; Q2Qc 1; Q2Qc 2])
                              (of_Z 50)) = false.
Proof.
  apply (percentile_is_a_number [Q2Qc 3; Q2Qc 1; Q2Qc 2] (of_Z 50)).
  - discriminate.
  - vm_compute. reflexivity.
  - vm_compute. reflexivity.
Defined.

(** X8 on the table [sales]. *)
Lemma pivot_keys_witness :
  let pivoted := pivotTable (H := sampleHost) sales "r" "c" "v" None in
  (forall v, In v (rows pivoted)
             <-> exists item, In item sales /\ field item "r" = v)
  /\ (forall v, In v (columns pivoted)
                <-> exists item, In item sales /\ field item "c" = v)
  /\ List.NoDup (rows pivoted)
  /\ List.NoDup (columns pivoted).
Proof.
  apply (pivot_keys_are_the_distinct_values (H := sampleHost) sales "r" "c" "v" None);
    reflexivity.
Defined.

(** X9 on the table [sales], the row [x] and the column [p], with the
    function [avg]. *)
Lemma every_cell_witness :
  let vals :=
    List.map (fun item =>
                if truthy_number (ToNumber (field item "v"))
                then ToNumber (field item "v") else of_Z 0)
             (List.filter
                (fun item =>
                   String.eqb (ToString (H := sampleHost) (field item "r") ++ "::"
                               ++ ToString (H := sampleHost) (field item "c"))
                              (ToString (H := sampleHost) (Str "x") ++ "::"
                               ++ ToString (H := sampleHost) (Str "p")))
                sales) in
  exists cells cell,
    prop_get (ToString (H := sampleHost) (Str "x"))
             (data (pivotTable (H := sampleHost) sales "r" "c" "v" (Some "avg")))
    = Some cells
    /\ prop_get (ToString (H := sampleHost) (Str "p")) cells = Some cell
    /\ ("avg" = "count" -> cell = of_Z (Z.of_nat (List.length vals)))
    /\ ("avg" = "avg" ->
        cell = match vals with
               | [] => of_Z 0
               | _ => div (fold_left add vals (of_Z 0))
                          (of_Z (Z.of_nat (List.length vals)))
               end)
    /\ ("avg" = "min" ->
        cell = match vals with [] => of_Z 0 | _ => Math_min vals end)
    /\ ("avg" = "max" ->
        cell = match vals with [] => of_Z 0 | _ => Math_max vals end)
    /\ (~ In "avg" ["avg"; "count"; "min"; "max"] ->
        cell = fold_left add vals (of_Z 0)).
Proof.
  apply (pivot_has_every_cell (H := sampleHost) sales "r" "c" "v" (Some "avg")
                              (Str "x") (Str "p")).
  - reflexivity.
  - reflexivity.
  - reflexivity.
  - reflexivity.
  - vm_compute. auto.
  - vm_compute. auto.
Defined.

(** X11 on the table [sales] taken as one group, with the field [v]. *)
Lemma numeric_group_witness :
  let values := List.map (fun r => ToNumber (field r "v")) sales in
  let entry := statsOf "v" "all" sales in
  count entry = of_Z 3
  /\ In (min entry) values
  /\ (forall v, In v values -> notAbove (min entry) v)
  /\ In (max entry) values
  /\ (forall v, In v values -> notAbove v (max entry)).
Proof.
  apply (stats_of_a_numeric_group "v" "all" sales).
  - discriminate.
  - intros r [<- | [<- | [<- | []]]]; reflexivity.
Defined.

End GrouperMore.

(* ================================================================== *)
(** * Facts about the command line                                     *)
(* ================================================================== *)

Module CliFacts.
Import JS Cli Samples.

(** ** Splitting at a character *)

Lemma string_of_list_ascii_app (l1 l2 : list ascii) :
  string_of_list_ascii (l1 ++ l2)%list
  = string_of_list_ascii l1 ++ string_of_list_ascii l2.
Proof. induction l1 as [| a l1 IH]; cbn; [reflexivity | now rewrite IH]. Qed.

Lemma rev_string_cons (a : ascii) (s : string) :
  rev_string (String a s) = rev_string s ++ one a.
Proof.
  unfold rev_string. cbn [list_ascii_of_string List.rev].
  now rewrite string_of_list_ascii_app.
Qed.

Lemma append_assoc (s1 s2 s3 : string) : (s1 ++ s2) ++ s3 = s1 ++ (s2 ++ s3).
Proof. induction s1 as [| a s1 IH]; cbn; [reflexivity | now rewrite IH]. Qed.

Lemma append_empty (s : string) : s ++ EmptyString = s.
Proof. induction s as [| a s IH]; cbn; [reflexivity | now rewrite IH]. Qed.

Lemma lacks_app (c : ascii) (s1 s2 : string) :
  lacks c (s1 ++ s2) = lacks c s1 && lacks c s2.
Proof.
  induction s1 as [| a s1 IH]; cbn; [reflexivity |].
  rewrite IH. now rewrite andb_assoc.
Qed.

Lemma lacks_rev (c : ascii) (s : string) : lacks c (rev_string s) = lacks c s.
Proof.
  induction s as [| a s IH]; [reflexivity |].
  rewrite rev_string_cons, lacks_app, IH. cbn.
  rewrite andb_true_r. apply andb_comm.
Qed.

Lemma split_step (c a : ascii) (cur s : string) :
  split_at (one c) 0 cur (String a s)
  = if Ascii.eqb a c
    then rev_string cur :: split_at (one c) 0 EmptyString s
    else split_at (one c) 0 (String a cur) s.
Proof.
  cbn [split_at one String.prefix String.length Nat.sub].
  destruct (ascii_dec c a) as [<- | N].
  - rewrite Ascii.eqb_refl. now destruct s.
  - destruct (Ascii.eqb_spec a c); [congruence | reflexivity].
Qed.

Lemma split_at_nonempty (c : ascii) (cur s : string) :
  split_at (one c) 0 cur s <> [].
Proof.
  revert cur. induction s as [| a s IH]; intros cur; [discriminate |].
  rewrite split_step. destruct (Ascii.eqb a c); [discriminate | apply IH].
Qed.

(** No piece holds the separator. *)
Lemma pieces_lack (c : ascii) (cur s piece : string) :
  lacks c cur = true ->
  In piece (split_at (one c) 0 cur s) -> lacks c piece = true.
Proof.
  revert cur. induction s as [| a s IH]; intros cur L I.
  - destruct I as [<- | []]. now rewrite lacks_rev.
  - rewrite split_step in I. destruct (Ascii.eqb a c) eqn:E.
    + destruct I as [<- | I]; [now rewrite lacks_rev | now apply (IH EmptyString)].
    + apply (IH (String a cur)); [| exact I]. cbn. now rewrite E, L.
Qed.

(** Joining the pieces gives the string back. *)
Lemma join_split_at (c : ascii) (cur s : string) :
  join (one c) (split_at (one c) 0 cur s) = rev_string cur ++ s.
Proof.
  revert cur. induction s as [| a s IH]; intros cur.
  - cbn. now rewrite append_empty.
  - rewrite split_step. destruct (Ascii.eqb_spec a c) as [-> | N].
    + specialize (IH EmptyString). unfold join in *.
      cbn [String.concat].
      destruct (split_at (one c) 0 EmptyString s) eqn:S.
      * now apply split_at_nonempty in S.
      * rewrite IH. reflexivity.
    + rewrite IH, rev_string_cons, append_assoc. reflexivity.
Qed.

(** A string without the separator is one piece. *)
Lemma split_at_whole (c : ascii) (cur s : string) :
  lacks c s = true -> split_at (one c) 0 cur s = [rev_string cur ++ s].
Proof.
  revert cur. induction s as [| a s IH]; intros cur L.
  - cbn. now rewrite append_empty.
  - cbn in L. apply andb_true_iff in L as [La L].
    rewrite split_step. apply negb_true_iff in La. rewrite La.
    rewrite (IH _ L), rev_string_cons, append_assoc. reflexivity.
Qed.

(** The first piece ends at the first separator. *)
Lemma split_at_first (c : ascii) (cur a rest : string) :
  lacks c a = true ->
  split_at (one c) 0 cur (a ++ String c rest)
  = (rev_string cur ++ a) :: split_at (one c) 0 EmptyString rest.
Proof.
  revert cur. induction a as [| x a IH]; intros cur L.
  - cbn [append]. rewrite split_step, Ascii.eqb_refl, append_empty. reflexivity.
  - cbn in L. apply andb_true_iff in L as [Lx L].
    cbn [append]. rewrite split_step. apply negb_true_iff in Lx. rewrite Lx.
    rewrite (IH _ L), rev_string_cons, append_assoc. reflexivity.
Qed.

Lemma split_colon (s : string) : split ":" s = split_at (one ":") 0 EmptyString s.
Proof. reflexivity. Qed.

(** ** The filter expression *)

Lemma three_parts (expr column op operand : string) :
  parseFilter expr = inl (condition column op operand)
  <-> expr = column ++ ":" ++ op ++ ":" ++ operand
      /\ lacks ":" column = true
      /\ lacks ":" op = true
      /\ lacks ":" operand = true.
Proof.
  unfold parseFilter. rewrite split_colon. split.
  - intros P.
    pose proof (join_split_at ":" EmptyString expr) as J.
    pose proof (fun piece => pieces_lack ":" EmptyString expr piece eq_refl) as L.
    destruct (split_at (one ":") 0 EmptyString expr) as [| a [| b [| c [| d l]]]];
      try discriminate P.
    injection P as -> -> ->.
    cbn in J. rewrite <- J.
    repeat split; try reflexivity; apply L; cbn; tauto.
  - intros (-> & Lc & Lo & Lv). cbn [append].
    rewrite split_at_first by exact Lc.
    rewrite split_at_first by exact Lo.
    rewrite split_at_whole by exact Lv.
    reflexivity.
Qed.

(** X12: a filter expression is parsed into a filter exactly when it is
    [column:operator:value] with no colon inside the three parts, which
    are then the filter; any other expression, an operand with a colon
    included, is left as the string it was. *)
Theorem filter_expression_has_three_parts (expr : string) :
  (forall column op operand,
      parseFilter expr = inl (condition column op operand)
      <-> expr = column ++ ":" ++ op ++ ":" ++ operand
          /\ lacks ":" column = true
          /\ lacks ":" op = true
          /\ lacks ":" operand = true)
  /\ ((forall column op operand,
          ~ (expr = column ++ ":" ++ op ++ ":" ++ operand
             /\ lacks ":" column = true
             /\ lacks ":" op = true
             /\ lacks ":" operand = true)) ->
      parseFilter expr = inr expr).
Proof.
  split; [intros column op operand; apply three_parts |].
  intros Other. destruct (parseFilter expr) as [spec | kept] eqn:P.
  - exfalso. destruct spec as [column op operand].
    apply (Other column op operand). now apply three_parts.
  - f_equal. unfold parseFilter in P.
    destruct (split ":" expr) as [| a [| b [| c [| d l]]]];
      try discriminate P; now injection P as <-.
Qed.

(** ** Arguments after a second colon *)

Lemma lacks_no_prefix (c : ascii) (p s : string) :
  lacks c p = false -> lacks c s = true -> String.prefix p s = false.
Proof.
  intros Lp Ls. destruct (String.prefix p s) eqn:P; [| reflexivity].
  destruct (GrouperMore.prefix_split _ _ P) as [rest ->].
  rewrite lacks_app, Lp in Ls. discriminate Ls.
Qed.

Section WithHost.
Context `{Host}.

(** X13: a transform parsed from the command line never carries an
    argument: its kind holds no colon, so it starts with none of
    [replace:], [multiply:], [divide:], and the only transforms it can
    make the transform stage apply are the six without argument. *)
Theorem parsed_transform_has_no_argument
    (expr : string) (spec : Cleaner.transformSpec) :
  parseTransform expr = inl spec ->
  lacks ":" (Cleaner.transformFn spec) = true
  /\ startsWith (Cleaner.transformFn spec) "replace:" = false
  /\ startsWith (Cleaner.transformFn spec) "multiply:" = false
  /\ startsWith (Cleaner.transformFn spec) "divide:" = false
  /\ (forall v new,
         Cleaner.transformed (Cleaner.transformFn spec) v = Some new ->
         In (Cleaner.transformFn spec)
            ["uppercase"; "lowercase"; "capitalize"; "trim"; "number"; "string"]).
Proof.
  unfold parseTransform. rewrite split_colon. intros P.
  pose proof (fun piece => pieces_lack ":" EmptyString expr piece eq_refl) as L.
  destruct (split_at (one ":") 0 EmptyString expr) as [| column [| fn rest]];
    try discriminate P.
  injection P as <-. cbn [Cleaner.transformFn].
  assert (Lf : lacks ":" fn = true) by (apply L; cbn; tauto).
  assert (R : startsWith fn "replace:" = false)
    by (now apply (lacks_no_prefix ":")).
  assert (M : startsWith fn "multiply:" = false)
    by (now apply (lacks_no_prefix ":")).
  assert (D : startsWith fn "divide:" = false)
    by (now apply (lacks_no_prefix ":")).
  repeat split; try assumption.
  intros v new T. unfold Cleaner.transformed in T. rewrite R, M, D in T.
  cbn [In].
  repeat match type of T with
         | (if String.eqb ?a ?b then _ else _) = _ =>
             destruct (String.eqb_spec a b) as [-> | _]; [tauto |]
         end.
  discriminate T.
Qed.

(** X14: an aggregation parsed from the command line is never a
    percentile: the kind of [field:percentile:90] is cut at the second
    colon, so it does not start with [percentile:], and the only
    aggregates it can make [aggregateGroup] store are the ten without
    argument. *)
Theorem parsed_aggregation_is_no_percentile
    (expr name aggType : string) :
  prop_get name (parseAggregate expr) = Some (Some aggType) ->
  lacks ":" aggType = true
  /\ startsWith aggType "percentile:" = false
  /\ (forall group fieldName result,
         Grouper.aggregateField group fieldName (Some aggType)
         = Grouper.Returned (Some result) ->
         In aggType ["sum"; "avg"; "min"; "max"; "count"; "count_distinct";
                     "first"; "last"; "concat"; "array"]).
Proof.
  intros G.
  assert (L : lacks ":" aggType = true).
  { revert name G. unfold parseAggregate.
    apply (GrouperFacts.fold_left_invariant
             (fun aggregations =>
                forall name, prop_get name aggregations = Some (Some aggType) ->
                             lacks ":" aggType = true)).
    - intros name G. discriminate G.
    - intros aggregations part Inv name G. cbv zeta in G.
      rewrite GrouperFacts.prop_get_set in G.
      destruct (String.eqb name _); [| now apply (Inv name)].
      injection G as G.
      pose proof (fun piece => pieces_lack ":" EmptyString part piece eq_refl) as L.
      change (split_at ":" 0 EmptyString part)
        with (split_at (one ":") 0 EmptyString part) in G.
      destruct (split_at (one ":") 0 EmptyString part) as [| a [| b l]];
        try discriminate G.
      injection G as <-. apply L. cbn. tauto. }
  assert (P : startsWith aggType "percentile:" = false)
    by (now apply (lacks_no_prefix ":")).
  repeat split; try assumption.
  intros group fieldName result A. unfold Grouper.aggregateField in A.
  injection A as A. rewrite P in A. cbn [In].
  repeat match type of A with
         | (if String.eqb ?a ?b then _ else _) = _ =>
             destruct (String.eqb_spec a b) as [-> | _]; [tauto |]
         end.
  discriminate A.
Qed.

End WithHost.

(** ** The theorems on sample expressions *)

(** X13 on the expression [name:replace:a,b]. *)
Lemma parsed_transform_witness :
  parseTransform "name:replace:a,b"
  = inl {| Cleaner.transformColumn := "name"; Cleaner.transformFn := "replace" |}
  /\ lacks ":" "replace" = true
  /\ startsWith "replace" "replace:" = false
  /\ startsWith "replace" "multiply:" = false
  /\ startsWith "replace" "divide:" = false
  /\ (forall v new,
         Cleaner.transformed (H := sampleHost) "replace" v = Some new ->
         In "replace"
            ["uppercase"; "lowercase"; "capitalize"; "trim"; "number"; "string"]).
Proof.
  split; [reflexivity |].
  apply (parsed_transform_has_no_argument
           (H := sampleHost) "name:replace:a,b"
           {| Cleaner.transformColumn := "name";
              Cleaner.transformFn := "replace" |}).
  reflexivity.
Defined.

(** X14 on the expression [v:percentile:90]. *)
Lemma parsed_aggregation_witness :
  prop_get "v" (parseAggregate "v:percentile:90") = Some (Some "percentile")
  /\ lacks ":" "percentile" = true
  /\ startsWith "percentile" "percentile:" = false
  /\ (forall group fieldName result,
         Grouper.aggregateField (H := sampleHost) group fieldName
                                (Some "percentile")
         = Grouper.Returned (Some result) ->
         In "percentile"
            ["sum"; "avg"; "min"; "max"; "count"; "count_distinct";
             "first"; "last"; "concat"; "array"]).
Proof.
  split; [reflexivity |].
  apply (parsed_aggregation_is_no_percentile
           (H := sampleHost) "v:percentile:90" "v" "percentile").
  reflexivity.
Defined.


End CliFacts.

(* ================================================================== *)
(** * More about the cleaning pipeline                                 *)
(* ================================================================== *)

Module CleanerMore.
Import JS Prototype Cleaner Frames Samples.

Section WithHost.
Context `{Host}.

(** ** Tables that are no array *)

Lemma stage_skips_scalars {A} (enabled : option A) (run : A -> table -> M table)
    (v : item) (s : store) :
  (forall a, run a (NotArray v) s = Return (NotArray v) s) ->
  stage enabled run (NotArray v) s = Return (NotArray v) s.
Proof. intros R. destruct enabled; [apply R | reflexivity]. Qed.

(** X15: on a table that is no array, whatever the options, [cleanData]
    returns the table it was given and leaves the store as it is. *)
Theorem scalar_table_passes_through (v : item) (o : options) (s : store) :
  cleanData (NotArray v) o s = Return (NotArray v) s.
Proof.
  unfold cleanData, bind.
  repeat (rewrite stage_skips_scalars; [| intros; reflexivity]).
  reflexivity.
Qed.

(** ** Stages that only add to the store *)

Lemma extends_refl (s : store) : extends s s.
Proof. exists [], []. now rewrite !app_nil_r. Qed.

Lemma extends_trans (s1 s2 s3 : store) :
  extends s1 s2 -> extends s2 s3 -> extends s1 s3.
Proof.
  intros (r1 & a1 & R1 & A1) (r2 & a2 & R2 & A2).
  exists (r1 ++ r2)%list, (a1 ++ a2)%list.
  rewrite R2, R1, A2, A1, !app_assoc. now split.
Qed.

Lemma appendOnly_ret {A} (a : A) : appendOnly (ret a).
Proof. intros s. apply extends_refl. Qed.

Lemma appendOnly_throw {A} (e : error) : appendOnly (@throw A e).
Proof. intros s. apply extends_refl. Qed.

Lemma appendOnly_bind {A B} (m : M A) (k : A -> M B) :
  appendOnly m -> (forall a, appendOnly (k a)) -> appendOnly (bind m k).
Proof.
  intros Hm Hk s. unfold bind. specialize (Hm s).
  destruct (m s) as [a s1 | e s1]; cbn in Hm |- *; [| exact Hm].
  eapply extends_trans; [exact Hm | apply Hk].
Qed.

Lemma appendOnly_readRecord (r : nat) : appendOnly (readRecord r).
Proof. intros s. apply extends_refl. Qed.

Lemma appendOnly_readArray (a : nat) : appendOnly (readArray a).
Proof. intros s. apply extends_refl. Qed.

Lemma appendOnly_newRecord (p : record) : appendOnly (newRecord p).
Proof. intros s. exists [p], []. cbn. now rewrite app_nil_r. Qed.

Lemma appendOnly_newArray (xs : list item) : appendOnly (newArray xs).
Proof. intros s. exists [], [xs]. cbn. now rewrite app_nil_r. Qed.

Lemma appendOnly_getProp (x : item) (k : string) : appendOnly (getProp x k).
Proof. intros s. destruct x as [[| | | |] |]; apply extends_refl. Qed.

Lemma appendOnly_mapM {A B} (f : A -> M B) (l : list A) :
  (forall x, appendOnly (f x)) -> appendOnly (mapM f l).
Proof.
  intros F. induction l as [| x l IH]; cbn [mapM].
  - apply appendOnly_ret.
  - apply appendOnly_bind; [apply F | intros y].
    apply appendOnly_bind; [exact IH | intros ys]. apply appendOnly_ret.
Qed.

Lemma appendOnly_filterM {A} (keep : A -> M bool) (l : list A) :
  (forall x, appendOnly (keep x)) -> appendOnly (filterM keep l).
Proof.
  intros F. induction l as [| x l IH]; cbn [filterM].
  - apply appendOnly_ret.
  - apply appendOnly_bind; [apply F | intros b].
    apply appendOnly_bind; [exact IH | intros ys]. apply appendOnly_ret.
Qed.

Ltac append_only :=
  repeat first
    [ apply appendOnly_ret | apply appendOnly_throw
    | apply appendOnly_readRecord | apply appendOnly_readArray
    | apply appendOnly_newRecord | apply appendOnly_newArray
    | apply appendOnly_getProp
    | apply appendOnly_bind; [| intros ? ] ].

Lemma appendOnly_keepNonEmpty (x : item) : appendOnly (keepNonEmpty x).
Proof. destruct x as [[| | | |] |]; cbn [keepNonEmpty]; append_only. Qed.

Lemma appendOnly_dedupKey (k : option string) (x : item) :
  appendOnly (dedupKey k x).
Proof.
  unfold dedupKey, JSON_stringify.
  destruct k as [name |]; [destruct (nonEmpty name) |]; destruct x; append_only.
Qed.

Lemma appendOnly_dedupFrom (k : option string) (seen : list prim)
    (xs : list item) :
  appendOnly (dedupFrom k seen xs).
Proof.
  revert seen. induction xs as [| x xs IH]; intros seen; cbn [dedupFrom].
  - apply appendOnly_ret.
  - apply appendOnly_bind; [apply appendOnly_dedupKey | intros id].
    destruct (existsb (same_value_zero id) seen); [apply IH |].
    apply appendOnly_bind; [apply IH | intros ys]. apply appendOnly_ret.
Qed.

Lemma appendOnly_rebuild (f : record -> record) (x : item) :
  appendOnly (rebuild f x).
Proof. destruct x; cbn [rebuild]; append_only. Qed.

Lemma appendOnly_matches (f : filterSpec) (x : item) : appendOnly (matches f x).
Proof.
  unfold matches. apply appendOnly_bind; [apply appendOnly_getProp | intros v].
  repeat match goal with
         | |- appendOnly (if ?b then _ else _) => destruct b
         | |- appendOnly (match ?o with Some _ => _ | None => _ end) => destruct o
         end;
    append_only.
Qed.

Lemma appendOnly_filterTable (keep : item -> M bool) (t : table) :
  (forall x, appendOnly (keep x)) -> appendOnly (filterTable keep t).
Proof.
  intros F. destruct t; cbn [filterTable]; append_only.
  now apply appendOnly_filterM.
Qed.

Lemma appendOnly_mapTable (f : item -> M item) (t : table) :
  (forall x, appendOnly (f x)) -> appendOnly (mapTable f t).
Proof.
  intros F. destruct t; cbn [mapTable]; append_only.
  now apply appendOnly_mapM.
Qed.

Lemma appendOnly_dedupTable (k : option string) (t : table) :
  appendOnly (dedupTable k t).
Proof.
  destruct t; cbn [dedupTable]; append_only. apply appendOnly_dedupFrom.
Qed.

Lemma appendOnly_sliceTable (n : number) (t : table) :
  appendOnly (sliceTable n t).
Proof. destruct t; cbn [sliceTable]; append_only. Qed.

Lemma appendOnly_stage {A} (enabled : option A) (run : A -> table -> M table)
    (t : table) :
  (forall a, appendOnly (run a t)) -> appendOnly (stage enabled run t).
Proof. intros R. destruct enabled; [apply R | apply appendOnly_ret]. Qed.

Lemma extends_recordAt (s s' : store) (r : nat) :
  extends s s' -> (r < List.length (records s))%nat ->
  recordAt s' r = recordAt s r.
Proof.
  intros (nr & na & R & A) L. unfold recordAt. rewrite R.
  now rewrite lookup_app_l.
Qed.

Lemma extends_arrayAt (s s' : store) (a : nat) :
  extends s s' -> (a < List.length (arrays s))%nat ->
  arrayAt s' a = arrayAt s a.
Proof.
  intros (nr & na & R & A) L. unfold arrayAt. rewrite A.
  now rewrite lookup_app_l.
Qed.

(** X16: without the transform and sort options, [cleanData] only
    adds to the store, whether it returns or throws: every record and
    every array that existed before the call, the input table and its
    records among them, is afterwards what it was. *)
Theorem cleanData_without_transform_and_sort_is_pure
    (data : table) (o : options) (s : store) :
  transform o = None -> sort o = None ->
  extends s (finalStore (cleanData data o s))
  /\ (forall r, (r < List.length (records s))%nat ->
                recordAt (finalStore (cleanData data o s)) r = recordAt s r)
  /\ (forall a, (a < List.length (arrays s))%nat ->
                arrayAt (finalStore (cleanData data o s)) a = arrayAt s a).
Proof.
  intros T S.
  assert (E : extends s (finalStore (cleanData data o s))).
  { revert s. change (appendOnly (cleanData data o)).
    unfold cleanData. rewrite T, S.
    repeat (apply appendOnly_bind;
            [first [apply appendOnly_ret | apply appendOnly_stage; intros ?]
            | intros ?]);
      try apply appendOnly_ret.
    - apply appendOnly_filterTable. intros x. apply appendOnly_keepNonEmpty.
    - apply appendOnly_dedupTable.
    - apply appendOnly_mapTable. intros x. apply appendOnly_rebuild.
    - apply appendOnly_mapTable. intros x. apply appendOnly_rebuild.
    - apply appendOnly_mapTable. intros x. apply appendOnly_rebuild.
    - apply appendOnly_filterTable. intros x. apply appendOnly_matches.
    - apply appendOnly_sliceTable. }
  split; [exact E |]. split.
  - intros r L. now apply extends_recordAt.
  - intros a L. now apply extends_arrayAt.
Qed.

(** ** The number of rows *)

Lemma returns_bind {A B} (m : M A) (k : A -> M B) (s : store)
    (Q : B -> store -> Prop) :
  returns m s (fun a s1 => returns (k a) s1 Q) -> returns (bind m k) s Q.
Proof. unfold returns, bind. now destruct (m s). Qed.

Lemma returns_weaken {A} (m : M A) (s : store) (Q Q' : A -> store -> Prop) :
  (forall a s', Q a s' -> Q' a s') -> returns m s Q -> returns m s Q'.
Proof. unfold returns. intros W. destruct (m s); [apply W | trivial]. Qed.

Lemma filterM_length {A} (keep : A -> M bool) (l : list A) (s : store) :
  returns (filterM keep l) s
          (fun ys _ => (List.length ys <= List.length l)%nat).
Proof.
  revert s. induction l as [| x l IH]; intros s; cbn [filterM].
  - unfold returns, ret. cbn. lia.
  - apply returns_bind. unfold returns at 1.
    destruct (keep x s) as [b s1 | e s1]; [| trivial].
    apply returns_bind. eapply returns_weaken; [| apply IH].
    intros ys s2 L. cbv beta in L. unfold returns, ret. destruct b; cbn; lia.
Qed.

Lemma mapM_length {A B} (f : A -> M B) (l : list A) (s : store) :
  returns (mapM f l) s (fun ys _ => List.length ys = List.length l).
Proof.
  revert s. induction l as [| x l IH]; intros s; cbn [mapM].
  - reflexivity.
  - apply returns_bind. unfold returns at 1.
    destruct (f x s) as [y s1 | e s1]; [| trivial].
    apply returns_bind. eapply returns_weaken; [| apply IH].
    intros ys s2 L. cbv beta in L. unfold returns, ret. cbn. lia.
Qed.

Lemma dedupFrom_length (k : option string) (seen : list prim)
    (xs : list item) (s : store) :
  returns (dedupFrom k seen xs) s
          (fun ys _ => (List.length ys <= List.length xs)%nat).
Proof.
  revert seen s. induction xs as [| x xs IH]; intros seen s; cbn [dedupFrom].
  - unfold returns, ret. cbn. lia.
  - apply returns_bind. unfold returns at 1.
    destruct (dedupKey k x s) as [id s1 | e s1]; [| trivial].
    destruct (existsb (same_value_zero id) seen).
    + eapply returns_weaken; [| apply IH]. intros ys s2 L. cbv beta in L. unfold returns, ret. cbn. lia.
    + apply returns_bind. eapply returns_weaken; [| apply IH].
      intros ys s2 L. cbv beta in L. unfold returns, ret. cbn. lia.
Qed.

Lemma insertM_length {A} (cmp : A -> A -> M number) (x : A) (l : list A)
    (s : store) :
  returns (insertM cmp x l) s (fun r _ => List.length r = S (List.length l)).
Proof.
  revert s. induction l as [| y l IH]; intros s; cbn [insertM].
  - reflexivity.
  - apply returns_bind. unfold returns at 1.
    destruct (cmp x y s) as [c s1 | e s1]; [| trivial].
    destruct (ltb (of_Z 0) c); [| reflexivity].
    apply returns_bind. eapply returns_weaken; [| apply IH].
    intros r s2 L. cbv beta in L. unfold returns, ret. cbn. lia.
Qed.

Lemma sortM_length {A} (cmp : A -> A -> M number) (l : list A) (s : store) :
  returns (sortM cmp l) s (fun r _ => List.length r = List.length l).
Proof.
  revert s. induction l as [| x l IH]; intros s; cbn [sortM].
  - reflexivity.
  - apply returns_bind. specialize (IH s). unfold returns in IH |- *.
    destruct (sortM cmp l s) as [sorted s1 | e s1]; [| trivial].
    pose proof (insertM_length cmp x sorted s1) as L. unfold returns in L.
    destruct (insertM cmp x sorted s1); [| trivial]. cbn. lia.
Qed.

Lemma arrayAt_written (s : store) (a : nat) (xs : list item) :
  arrayAt {| records := records s; arrays := <[a := xs]> (arrays s) |} a
  = if (a <? List.length (arrays s))%nat then xs else [].
Proof.
  unfold arrayAt; cbn [arrays].
  destruct (Nat.ltb_spec a (List.length (arrays s))).
  - now rewrite list_lookup_insert_eq.
  - rewrite list_insert_ge by lia.
    now rewrite (proj2 (lookup_ge_None (arrays s) a)) by lia.
Qed.

Lemma filter_lengths {A} (keep : A -> bool) (l : list A) :
  (List.length (List.filter (fun x => negb (keep x)) l)
   + List.length (List.filter keep l) = List.length l)%nat.
Proof.
  induction l as [| x l IH]; [reflexivity |].
  cbn [List.filter]. destruct (keep x); cbn; lia.
Qed.

Lemma shrinks_filterTable (keep : item -> M bool) : shrinks (filterTable keep).
Proof.
  intros [a | v] s; cbn [filterTable]; [| cbn; lia].
  apply returns_bind. cbn. apply returns_bind.
  eapply returns_weaken; [| apply filterM_length].
  intros ys s1 L. cbv beta in L. cbn. now rewrite CleanerFacts.arrayAt_new.
Qed.

Lemma keepsRows_mapTable (f : item -> M item) : keepsRows (mapTable f).
Proof.
  intros [a | v] s; cbn [mapTable]; [| reflexivity].
  apply returns_bind. cbn. apply returns_bind.
  eapply returns_weaken; [| apply mapM_length].
  intros ys s1 L. cbv beta in L. cbn. now rewrite CleanerFacts.arrayAt_new.
Qed.

Lemma shrinks_dedupTable (k : option string) : shrinks (dedupTable k).
Proof.
  intros [a | v] s; cbn [dedupTable]; [| cbn; lia].
  apply returns_bind. cbn. apply returns_bind.
  eapply returns_weaken; [| apply dedupFrom_length].
  intros ys s1 L. cbv beta in L. cbn. now rewrite CleanerFacts.arrayAt_new.
Qed.

Lemma shrinks_sliceTable (n : number) : shrinks (sliceTable n).
Proof.
  intros [a | v] s; cbn [sliceTable]; [| cbn; lia].
  cbn. rewrite CleanerFacts.arrayAt_new, length_firstn. lia.
Qed.

Lemma keeps_shrinks (st : table -> M table) : keepsRows st -> shrinks st.
Proof.
  intros K t s. eapply returns_weaken; [| apply K]. intros; cbn in *; lia.
Qed.

Lemma shrinks_stage {A} (enabled : option A) (run : A -> table -> M table) :
  (forall a, shrinks (run a)) -> shrinks (stage enabled run).
Proof.
  intros R t s. destruct enabled; [apply R | cbn; lia].
Qed.

Lemma keepsRows_stage {A} (enabled : option A) (run : A -> table -> M table) :
  (forall a, keepsRows (run a)) -> keepsRows (stage enabled run).
Proof.
  intros R t s. destruct enabled; [apply R | reflexivity].
Qed.

Lemma keepsRows_skip {A} (run : A -> table -> M table) :
  keepsRows (stage None run).
Proof. intros t s. reflexivity. Qed.

Lemma shrinks_then (st : table -> M table) (k : table -> M table) :
  shrinks st -> shrinks k -> shrinks (fun t => bind (st t) k).
Proof.
  intros S K t s. apply returns_bind. specialize (S t s).
  unfold returns in S |- *. destruct (st t s) as [t1 s1 | e s1]; [| trivial].
  specialize (K t1 s1). unfold returns in K.
  destruct (k t1 s1); [| trivial]. lia.
Qed.

Lemma keepsRows_then (st : table -> M table) (k : table -> M table) :
  keepsRows st -> keepsRows k -> keepsRows (fun t => bind (st t) k).
Proof.
  intros S K t s. apply returns_bind. specialize (S t s).
  unfold returns in S |- *. destruct (st t s) as [t1 s1 | e s1]; [| trivial].
  specialize (K t1 s1). unfold returns in K.
  destruct (k t1 s1); [| trivial]. lia.
Qed.

Lemma readOnly_bind {A B} (m : M A) (k : A -> M B) :
  readOnly m -> (forall a, readOnly (k a)) -> readOnly (bind m k).
Proof.
  intros Hm Hk s. unfold bind. specialize (Hm s).
  destruct (m s) as [a s1 | e s1]; cbn in Hm |- *; subst; [apply Hk | reflexivity].
Qed.

Lemma readOnly_ret {A} (a : A) : readOnly (ret a).
Proof. intros s. reflexivity. Qed.

Lemma readOnly_getProp (x : item) (k : string) : readOnly (getProp x k).
Proof. intros s. now destruct x as [[| | | |] |]. Qed.

Lemma readOnly_compareItems (o : sortSpec) (a b : item) :
  readOnly (compareItems o a b).
Proof.
  unfold compareItems.
  apply readOnly_bind; [apply readOnly_getProp | intros aVal].
  apply readOnly_bind; [apply readOnly_getProp | intros bVal].
  destruct (js_lt aVal bVal); [apply readOnly_ret |].
  destruct (js_gt aVal bVal); apply readOnly_ret.
Qed.

Lemma readOnly_insertM {A} (cmp : A -> A -> M number) (x : A) (l : list A) :
  (forall a b, readOnly (cmp a b)) -> readOnly (insertM cmp x l).
Proof.
  intros C. induction l as [| y l IH]; cbn [insertM]; [apply readOnly_ret |].
  apply readOnly_bind; [apply C | intros c].
  destruct (ltb (of_Z 0) c); [| apply readOnly_ret].
  apply readOnly_bind; [exact IH | intros r; apply readOnly_ret].
Qed.

Lemma readOnly_sortM {A} (cmp : A -> A -> M number) (l : list A) :
  (forall a b, readOnly (cmp a b)) -> readOnly (sortM cmp l).
Proof.
  intros C. induction l as [| x l IH]; cbn [sortM]; [apply readOnly_ret |].
  apply readOnly_bind; [exact IH | intros sorted].
  now apply readOnly_insertM.
Qed.

Lemma arrayAt_dangling (s : store) (a : nat) :
  (List.length (arrays s) <= a)%nat -> arrayAt s a = [].
Proof.
  intros L. unfold arrayAt.
  now rewrite (proj2 (lookup_ge_None (arrays s) a)) by lia.
Qed.

Lemma keepsRows_sortTable (o : sortSpec) : keepsRows (sortTable o).
Proof.
  intros [a | v] s; cbn [sortTable]; [| reflexivity].
  unfold returns, bind, readArray.
  pose proof (sortM_length (compareItems o)
                (List.filter (fun x => negb (is_undefined x)) (arrayAt s a)) s) as L.
  pose proof (readOnly_sortM (compareItems o)
                (List.filter (fun x => negb (is_undefined x)) (arrayAt s a))
                (readOnly_compareItems o) s) as R.
  unfold returns in L.
  destruct (sortM (compareItems o) _ s) as [sorted s1 | e s1]; [| trivial].
  cbn in R. subst s1. cbn [writeArray ret rowCountOf].
  rewrite arrayAt_written.
  destruct (Nat.ltb_spec a (List.length (arrays s))) as [I | O].
  - rewrite length_app, L. apply filter_lengths.
  - now rewrite (arrayAt_dangling s a O).
Qed.

Lemma shrinks_ret : shrinks ret.
Proof. intros t s. unfold returns, ret. lia. Qed.

Lemma keepsRows_ret : keepsRows ret.
Proof. intros t s. reflexivity. Qed.

(** X17: [cleanData] never adds a row: when it returns, the table it
    returns has at most as many rows as the table it was given. *)
Theorem cleanData_never_adds_rows (data : table) (o : options) (s : store) :
  returns (cleanData data o) s
          (fun cleaned s' => (rowCountOf s' cleaned <= rowCountOf s data)%nat).
Proof.
  revert data s. change (shrinks (fun data => cleanData data o)).
  unfold cleanData.
  repeat (apply shrinks_then; [apply shrinks_stage; intros ? |]);
    try apply shrinks_ret.
  - apply shrinks_filterTable.
  - apply shrinks_dedupTable.
  - apply keeps_shrinks, keepsRows_mapTable.
  - apply keeps_shrinks, keepsRows_mapTable.
  - apply keeps_shrinks, keepsRows_mapTable.
  - apply shrinks_filterTable.
  - apply keeps_shrinks, keepsRows_mapTable.
  - apply keeps_shrinks, keepsRows_sortTable.
  - apply shrinks_sliceTable.
Qed.

(** X18: with none of the options [removeEmpty], [deduplicate] and
    [filter], and with no [limit] or a falsy one (0, NaN), the stages
    that are left (trim, case, columns, transform, sort) keep the number
    of rows: when [cleanData] returns, the table has as many rows as the
    input. *)
Theorem rewriting_stages_keep_the_rows (data : table) (o : options) (s : store) :
  removeEmpty o = false -> deduplicate o = false ->
  filter o = None -> givenNumber (limit o) = None ->
  returns (cleanData data o) s
          (fun cleaned s' => rowCountOf s' cleaned = rowCountOf s data).
Proof.
  intros E1 E2 E3 E4.
  revert data s. change (keepsRows (fun data => cleanData data o)).
  unfold cleanData. rewrite E1, E2, E3, E4. cbn [flag].
  repeat (apply keepsRows_then;
          [first [apply keepsRows_skip | apply keepsRows_stage; intros ?] |]);
    try apply keepsRows_ret.
  - apply keepsRows_mapTable.
  - apply keepsRows_mapTable.
  - apply keepsRows_mapTable.
  - apply keepsRows_mapTable.
  - apply keepsRows_sortTable.
Qed.

(** ** Records rebuilt field by field *)

Lemma prop_get_app {V} (k : string) (o1 o2 : object V) :
  prop_get k (o1 ++ o2)%list
  = match prop_get k o1 with Some v => Some v | None => prop_get k o2 end.
Proof.
  induction o1 as [| [k0 v0] o1 IH]; cbn; [reflexivity |].
  destruct (String.eqb k k0); [reflexivity | exact IH].
Qed.

Lemma prop_set_fresh {V} (k : string) (v : V) (o : object V) :
  prop_get k o = None -> prop_set k v o = (o ++ [(k, v)])%list.
Proof.
  induction o as [| [k0 v0] o IH]; cbn; [reflexivity |].
  destruct (String.eqb_spec k k0); [discriminate |].
  intros N. now rewrite IH.
Qed.

Lemma prop_set_Forall {V} (P : string * V -> Prop) (k : string) (v : V)
    (o : object V) :
  P (k, v) -> Forall P o -> Forall P (prop_set k v o).
Proof.
  intros Pk F. induction F as [| [k0 v0] o P0 F IH]; cbn.
  - now repeat constructor.
  - destruct (String.eqb k k0); constructor; auto.
Qed.

Section FieldByField.
Variable g : prim -> option prim.
Variable step : record -> string * prim -> record.
Hypothesis step_stores : forall result k v,
  step result (k, v)
  = match g v with Some v' => prop_set k v' result | None => result end.

Lemma rebuilt_distinct (p acc : record) :
  List.NoDup (List.map fst p) ->
  (forall k, In k (List.map fst p) -> prop_get k acc = None) ->
  fold_left step p acc = (acc ++ fieldByField g p)%list.
Proof.
  revert acc. induction p as [| [k v] p IH]; intros acc N F; cbn.
  - now rewrite app_nil_r.
  - apply List.NoDup_cons_iff in N as [Nk N]. rewrite step_stores.
    destruct (g v) as [v' |].
    + rewrite prop_set_fresh by (apply F; now left).
      rewrite IH; [now rewrite <- app_assoc | exact N |].
      intros k' I. rewrite prop_get_app, F by now right.
      cbn. destruct (String.eqb_spec k' k) as [-> | _]; [| reflexivity].
      exfalso. apply Nk. exact I.
    + apply IH; [exact N |]. intros k' I. apply F. now right.
Qed.

Lemma rebuilt_NoDup (p : record) :
  List.NoDup (List.map fst (fold_left step p [])).
Proof.
  apply (GrouperFacts.fold_left_invariant
           (fun r : record => List.NoDup (List.map fst r))).
  - apply List.NoDup_nil.
  - intros acc [k v] N. rewrite step_stores.
    destruct (g v); [now apply GrouperMore.prop_set_NoDup | exact N].
Qed.

Lemma rebuilt_values (p : record) :
  Forall (fun kv => exists v, g v = Some (snd kv)) (fold_left step p []).
Proof.
  apply (GrouperFacts.fold_left_invariant
           (fun r : record => Forall (fun kv => exists v, g v = Some (snd kv)) r)).
  - constructor.
  - intros acc [k v] F. rewrite step_stores.
    destruct (g v) as [v' |] eqn:E; [| exact F].
    apply prop_set_Forall; [now exists v | exact F].
Qed.

Lemma rebuilt_twice (p : record) :
  (forall v v', g v = Some v' -> g v' = Some v') ->
  fold_left step (fold_left step p []) [] = fold_left step p [].
Proof.
  intros Fix.
  rewrite (rebuilt_distinct (fold_left step p []) []);
    [| apply rebuilt_NoDup | reflexivity].
  cbn [app]. pose proof (rebuilt_values p) as F. unfold fieldByField.
  induction F as [| [k v'] r [v E] F IH]; [reflexivity |].
  cbn in E |- *. rewrite (Fix _ _ E). cbn. now rewrite IH.
Qed.

End FieldByField.

Lemma trimRecord_stores (result : record) (k : string) (v : prim) :
  prop_set k (match v with Str s => Str (JS.trim s) | _ => v end) result
  = match trimmed v with Some v' => prop_set k v' result | None => result end.
Proof. reflexivity. Qed.

Lemma caseRecord_stores (c : string) (result : record) (k : string) (v : prim) :
  match v with
  | Str s =>
      if String.eqb c "upper" then prop_set k (Str (toUpperCase s)) result
      else if String.eqb c "lower" then prop_set k (Str (toLowerCase s)) result
      else if String.eqb c "title" then prop_set k (Str (titleCase s)) result
      else result
  | _ => prop_set k v result
  end
  = match cased c v with Some v' => prop_set k v' result | None => result end.
Proof.
  unfold cased. destruct v; try reflexivity.
  destruct (String.eqb c "upper"); [reflexivity |].
  destruct (String.eqb c "lower"); [reflexivity |].
  now destruct (String.eqb c "title").
Qed.

(** X19: on a record with no field named ['__proto__'] the trim stage
    keeps the keys and their order and changes only the text values,
    each to its trimmed form. *)
Theorem trim_stage_keeps_the_shape (p : record) :
  prop_get "__proto__" p = None ->
  List.NoDup (List.map fst p) ->
  trimRecord p
  = List.map (fun '(k, v) =>
                (k, match v with Str s => Str (JS.trim s) | _ => v end)) p.
Proof.
  intros _ N. unfold trimRecord.
  rewrite (rebuilt_distinct trimmed _ trimRecord_stores p [] N) by reflexivity.
  cbn [app]. unfold fieldByField, trimmed.
  induction p as [| [k v] p IH]; [reflexivity |].
  apply List.NoDup_cons_iff in N as [_ N]. cbn. now rewrite IH.
Qed.

(** X20: under a case that is none of 'upper', 'lower' and 'title' the
    case stage drops every text field of a record (one with no field
    named ['__proto__']) and keeps the other fields as they are, in
    their order. *)
Theorem unknown_case_drops_the_text_fields (c : string) (p : record) :
  prop_get "__proto__" p = None ->
  List.NoDup (List.map fst p) ->
  knownCase c = false ->
  caseRecord c p = List.filter (fun '(_, v) => negb (is_text v)) p.
Proof.
  intros _ N U. unfold caseRecord.
  rewrite (rebuilt_distinct (cased c) _ (caseRecord_stores c) p [] N)
    by reflexivity.
  cbn [app]. unfold fieldByField. clear N.
  unfold knownCase in U. cbn [existsb] in U.
  apply orb_false_iff in U as [U1 U]. apply orb_false_iff in U as [U2 U].
  apply orb_false_iff in U as [U3 _].
  induction p as [| [k v] p IH]; [reflexivity |].
  cbn [List.flat_map List.filter]. rewrite IH. unfold cased.
  destruct v; try reflexivity. cbn [is_text negb]. now rewrite U1, U2, U3.
Qed.

(** ** Doing a stage twice *)

Lemma rev_string_twice (s : string) : rev_string (rev_string s) = s.
Proof.
  unfold rev_string.
  now rewrite list_ascii_of_string_of_list_ascii, rev_involutive,
    string_of_list_ascii_of_string.
Qed.

Lemma rev_string_app (s1 s2 : string) :
  rev_string (s1 ++ s2) = rev_string s2 ++ rev_string s1.
Proof.
  induction s1 as [| a s1 IH]; cbn [append].
  - now rewrite CliFacts.append_empty.
  - now rewrite !CliFacts.rev_string_cons, IH, CliFacts.append_assoc.
Qed.

Lemma trimStart_twice (s : string) : trimStart (trimStart s) = trimStart s.
Proof.
  induction s as [| c s IH]; [reflexivity |].
  cbn [trimStart]. destruct (is_space c) eqn:E; [exact IH |].
  cbn [trimStart]. now rewrite E.
Qed.

Lemma trimStart_snoc (c : ascii) (x : string) :
  is_space c = false ->
  trimStart (x ++ Cli.one c) = trimStart x ++ Cli.one c.
Proof.
  intros E. induction x as [| a x IH]; cbn [append trimStart Cli.one].
  - now rewrite E.
  - destruct (is_space a); [exact IH | reflexivity].
Qed.

Lemma trimEnd_cons (c : ascii) (r : string) :
  is_space c = false -> trimEnd (String c r) = String c (trimEnd r).
Proof.
  intros E. unfold trimEnd.
  rewrite CliFacts.rev_string_cons, trimStart_snoc by exact E.
  now rewrite rev_string_app.
Qed.

Lemma trimEnd_twice (s : string) : trimEnd (trimEnd s) = trimEnd s.
Proof. unfold trimEnd. now rewrite rev_string_twice, trimStart_twice. Qed.

Lemma trimStart_of_trim (s : string) : trimStart (JS.trim s) = JS.trim s.
Proof.
  unfold JS.trim. induction s as [| c s IH]; [reflexivity |].
  cbn [trimStart]. destruct (is_space c) eqn:E; [exact IH |].
  rewrite trimEnd_cons by exact E. cbn [trimStart]. now rewrite E.
Qed.

Lemma trim_twice (s : string) : JS.trim (JS.trim s) = JS.trim s.
Proof.
  unfold JS.trim at 1. rewrite trimStart_of_trim.
  unfold JS.trim. apply trimEnd_twice.
Qed.

Lemma upper_char_twice (c : ascii) : upper_char (upper_char c) = upper_char c.
Proof. destruct c as [[] [] [] [] [] [] [] []]; reflexivity. Qed.

Lemma lower_char_twice (c : ascii) : lower_char (lower_char c) = lower_char c.
Proof. destruct c as [[] [] [] [] [] [] [] []]; reflexivity. Qed.

Lemma is_space_lower (c : ascii) : is_space (lower_char c) = is_space c.
Proof. destruct c as [[] [] [] [] [] [] [] []]; reflexivity. Qed.

Lemma is_word_upper (c : ascii) : is_word (upper_char c) = is_word c.
Proof. destruct c as [[] [] [] [] [] [] [] []]; reflexivity. Qed.

Lemma toUpperCase_twice (s : string) :
  toUpperCase (toUpperCase s) = toUpperCase s.
Proof.
  induction s as [| c s IH]; [reflexivity |].
  unfold toUpperCase in *. cbn. now rewrite upper_char_twice, IH.
Qed.

Lemma toLowerCase_twice (s : string) :
  toLowerCase (toLowerCase s) = toLowerCase s.
Proof.
  induction s as [| c s IH]; [reflexivity |].
  unfold toLowerCase in *. cbn. now rewrite lower_char_twice, IH.
Qed.

Lemma title_from_twice (inside : bool) (s : string) :
  title_from inside (title_from inside s) = title_from inside s.
Proof.
  revert inside. induction s as [| c s IH]; intros inside; [reflexivity |].
  cbn [title_from]. destruct inside.
  - destruct (is_space c) eqn:E; cbn [title_from].
    + now rewrite E, IH.
    + now rewrite is_space_lower, E, lower_char_twice, IH.
  - destruct (is_word c) eqn:E; cbn [title_from].
    + now rewrite is_word_upper, E, upper_char_twice, IH.
    + now rewrite E, IH.
Qed.

(** X21: trimming an already trimmed record changes nothing: the trim
    stage gives the same record when it is applied a second time. *)
Theorem trim_stage_twice (p : record) :
  trimRecord (trimRecord p) = trimRecord p.
Proof.
  unfold trimRecord.
  apply (rebuilt_twice trimmed _ trimRecord_stores).
  intros v v' E. unfold trimmed in *. injection E as <-.
  destruct v; try reflexivity. now rewrite trim_twice.
Qed.

(** X22: the case stage gives the same record when it is applied a
    second time with the same case, whatever the case is. *)
Theorem case_stage_twice (c : string) (p : record) :
  caseRecord c (caseRecord c p) = caseRecord c p.
Proof.
  unfold caseRecord.
  apply (rebuilt_twice (cased c) _ (caseRecord_stores c)).
  intros v v' E. unfold cased in *.
  destruct v; try (injection E as <-; reflexivity).
  destruct (String.eqb c "upper") eqn:U.
  { injection E as <-. now rewrite toUpperCase_twice. }
  destruct (String.eqb c "lower") eqn:L.
  { injection E as <-. now rewrite toLowerCase_twice. }
  destruct (String.eqb c "title") eqn:T; [| discriminate].
  injection E as <-. unfold titleCase.
  now rewrite title_from_twice.
Qed.

(** ** The columns stage *)

Lemma selectColumns_from (cols : list string) (p acc : record) (c : string) :
  prop_get c (fold_left (fun result col =>
                           if has_prop col p
                           then prop_set col (field p col) result
                           else result) cols acc)
  = if existsb (String.eqb c) cols && has_prop c p
    then prop_get c p else prop_get c acc.
Proof.
  revert acc. induction cols as [| col cols IH]; intros acc; cbn [fold_left existsb].
  - reflexivity.
  - rewrite IH. clear IH.
    assert (G : prop_get c (if has_prop col p
                            then prop_set col (field p col) acc else acc)
                = if String.eqb c col && has_prop c p
                  then prop_get c p else prop_get c acc).
    { destruct (String.eqb_spec c col) as [-> | N]; cbn [andb].
      - unfold has_prop, field.
        destruct (prop_get col p) as [v |] eqn:G; [| reflexivity].
        now rewrite GrouperFacts.prop_get_set, String.eqb_refl.
      - destruct (has_prop col p); [| reflexivity].
        rewrite GrouperFacts.prop_get_set.
        now destruct (String.eqb_spec c col). }
    rewrite G.
    destruct (String.eqb c col), (existsb (String.eqb c) cols), (has_prop c p);
      reflexivity.
Qed.

(** X23: the columns stage keeps of a record exactly the fields named
    in the list: a listed column reads as in the record (a column the
    record lacks stays absent), any other column is absent. The column
    read is none of the inherited names, which [col in item] finds in
    every record. *)
Theorem selected_columns (cols : list string) (p : record) (c : string) :
  inherited c = false ->
  prop_get c (selectColumns cols p)
  = if existsb (String.eqb c) cols then prop_get c p else None.
Proof.
  intros _. unfold selectColumns. rewrite selectColumns_from.
  destruct (existsb (String.eqb c) cols); [| reflexivity].
  cbn [andb prop_get]. unfold has_prop. now destruct (prop_get c p).
Qed.

(** ** The sort stage *)

Lemma insertM_perm {A} (cmp : A -> A -> M number) (x : A) (l : list A)
    (s : store) :
  returns (insertM cmp x l) s (fun r _ => Permutation r (x :: l)).
Proof.
  revert s. induction l as [| y l IH]; intros s; cbn [insertM].
  - unfold returns, ret. reflexivity.
  - apply returns_bind. unfold returns at 1.
    destruct (cmp x y s) as [c s1 | e s1]; [| trivial].
    destruct (ltb (of_Z 0) c); [| unfold returns, ret; reflexivity].
    apply returns_bind. eapply returns_weaken; [| apply IH].
    intros r s2 P. cbv beta in P. unfold returns, ret.
    rewrite P. apply perm_swap.
Qed.

Lemma sortM_perm {A} (cmp : A -> A -> M number) (l : list A) (s : store) :
  returns (sortM cmp l) s (fun r _ => Permutation r l).
Proof.
  revert s. induction l as [| x l IH]; intros s; cbn [sortM].
  - unfold returns, ret. reflexivity.
  - apply returns_bind. specialize (IH s). unfold returns in IH |- *.
    destruct (sortM cmp l s) as [sorted s1 | e s1]; [| trivial].
    pose proof (insertM_perm cmp x sorted s1) as P. unfold returns in P.
    destruct (insertM cmp x sorted s1); [| trivial].
    rewrite P. now constructor.
Qed.

Lemma arrayAt_other (s : store) (a b : nat) (xs : list item) :
  b <> a ->
  arrayAt {| records := records s; arrays := <[a := xs]> (arrays s) |} b
  = arrayAt s b.
Proof.
  intros N. unfold arrayAt; cbn [arrays].
  now rewrite list_lookup_insert_ne by congruence.
Qed.

(** X24: the sort stage reorders the array it is given, in place: when
    it returns, the table is the same array, this array holds the rows
    it held before in some order, and no record and no other array has
    changed. *)
Theorem sort_stage_reorders_in_place (o : sortSpec) (a : nat) (s : store) :
  returns (sortTable o (Array a)) s
          (fun cleaned s' =>
             cleaned = Array a
             /\ Permutation (arrayAt s' a) (arrayAt s a)
             /\ records s' = records s
             /\ forall b, b <> a -> arrayAt s' b = arrayAt s b).
Proof.
  cbn [sortTable]. unfold returns, bind, readArray.
  pose proof (sortM_perm (compareItems o)
                (List.filter (fun x => negb (is_undefined x)) (arrayAt s a)) s) as P.
  pose proof (readOnly_sortM (compareItems o)
                (List.filter (fun x => negb (is_undefined x)) (arrayAt s a))
                (readOnly_compareItems o) s) as R.
  unfold returns in P.
  destruct (sortM (compareItems o) _ s) as [sorted s1 | e s1]; [| trivial].
  cbn in R. subst s1. cbn [writeArray ret].
  split; [reflexivity |]. split; [| split; [reflexivity |]].
  - rewrite arrayAt_written.
    destruct (Nat.ltb_spec a (List.length (arrays s))) as [I | O].
    + rewrite P. apply GrouperMore.filter_split.
    + now rewrite (arrayAt_dangling s a O).
  - intros b N. now apply arrayAt_other.
Qed.

(** ** Removing duplicates twice *)

Lemma readOnly_dedupKey (k : option string) (x : item) :
  readOnly (dedupKey k x).
Proof.
  intros s. unfold dedupKey.
  destruct k as [name |]; [destruct (nonEmpty name) |];
    now destruct x as [[| | | |] |].
Qed.

Lemma dedupKey_records (k : option string) (x : item) (s s1 : store) :
  records s1 = records s ->
  dedupKey k x s1
  = match dedupKey k x s with
    | Return id _ => Return id s1
    | Throw e _ => Throw e s1
    end.
Proof.
  intros E. unfold dedupKey.
  destruct k as [name |]; [destruct (nonEmpty name) |];
    destruct x as [[| | | |] |]; try reflexivity;
    unfold getProp, JSON_stringify, bind, readRecord, ret, recordAt;
    now rewrite E.
Qed.

Lemma dedupFrom_again (k : option string) (xs : list item) :
  forall (seen seen2 : list prim) (s s1 : store),
    records s1 = records s ->
    (forall id, In id seen2 -> In id seen) ->
    returns (dedupFrom k seen xs) s
            (fun ys _ => dedupFrom k seen2 ys s1 = Return ys s1).
Proof.
  induction xs as [| x xs IH]; intros seen seen2 s s1 E Sub; cbn [dedupFrom].
  - reflexivity.
  - unfold returns, bind.
    pose proof (readOnly_dedupKey k x s) as R.
    pose proof (dedupKey_records k x s s1 E) as K1.
    destruct (dedupKey k x s) as [id s0 | e s0]; [| trivial].
    cbn in R. subst s0.
    destruct (existsb (same_value_zero id) seen) eqn:Seen.
    + apply (IH seen seen2 s s1 E Sub).
    + specialize (IH (set_add id seen) (set_add id seen2) s s1 E).
      unfold returns, bind in IH.
      destruct (dedupFrom k (set_add id seen) xs s) as [ys s2 | e s2]; [| trivial].
      unfold ret. cbn [dedupFrom]. unfold bind at 1. rewrite K1.
      assert (Seen2 : existsb (same_value_zero id) seen2 = false).
      { apply not_true_is_false. intros T.
        apply existsb_exists in T as (y & I & S).
        assert (T : existsb (same_value_zero id) seen = true)
          by (apply existsb_exists; exists y; auto).
        congruence. }
      rewrite Seen2. unfold bind. rewrite IH; [reflexivity |].
      intros v I. apply GrouperMore.set_add_In.
      apply GrouperMore.set_add_In in I as [-> | I]; [now left | right; auto].
Qed.

Lemma readOnly_dedupFrom (k : option string) (seen : list prim)
    (xs : list item) :
  readOnly (dedupFrom k seen xs).
Proof.
  revert seen. induction xs as [| x xs IH]; intros seen; cbn [dedupFrom].
  - apply readOnly_ret.
  - apply readOnly_bind; [apply readOnly_dedupKey | intros id].
    destruct (existsb (same_value_zero id) seen); [apply IH |].
    apply readOnly_bind; [apply IH | intros ys; apply readOnly_ret].
Qed.

(** X25: removing duplicates from a table whose duplicates have been
    removed, under the same key, succeeds and gives the same rows. *)
Theorem deduplicating_twice_changes_nothing
    (k : option string) (t : table) (s : store) :
  returns (dedupTable k t) s
          (fun t1 s1 =>
             exists t2 s2, dedupTable k t1 s1 = Return t2 s2
                           /\ rowsOf s2 t2 = rowsOf s1 t1).
Proof.
  destruct t as [a | v]; cbn [dedupTable].
  - unfold returns, bind, readArray.
    pose proof (readOnly_dedupFrom k [] (arrayAt s a) s) as R.
    pose proof (fun s1 E => dedupFrom_again k (arrayAt s a) [] [] s s1 E
                              (fun id I => I)) as D.
    unfold returns in D.
    destruct (dedupFrom k [] (arrayAt s a) s) as [ys s0 | e s0]; [| trivial].
    cbn in R. subst s0. cbn [newArray ret].
    set (s1 := {| records := records s; arrays := (arrays s ++ [ys])%list |}).
    specialize (D s1 eq_refl).
    exists (Array (List.length (arrays s1))),
      {| records := records s1; arrays := (arrays s1 ++ [ys])%list |}.
    split.
    + cbn [dedupTable]. unfold bind, readArray.
      unfold s1 at 1. rewrite CleanerFacts.arrayAt_new. now rewrite D.
    + cbn [rowsOf]. rewrite CleanerFacts.arrayAt_new.
      unfold s1. now rewrite CleanerFacts.arrayAt_new.
  - unfold returns, ret. exists (NotArray v), s. split; reflexivity.
Qed.

(** ** Stages that pick rows *)

Lemma filterM_sublist {A} (keep : A -> M bool) (l : list A) (s : store) :
  returns (filterM keep l) s (fun ys _ => sublist ys l).
Proof.
  revert s. induction l as [| x l IH]; intros s; cbn [filterM].
  - unfold returns, ret. constructor.
  - apply returns_bind. unfold returns at 1.
    destruct (keep x s) as [b s1 | e s1]; [| trivial].
    apply returns_bind. eapply returns_weaken; [| apply IH].
    intros ys s2 L. cbv beta in L. unfold returns, ret.
    destruct b; now constructor.
Qed.

Lemma dedupFrom_sublist (k : option string) (seen : list prim)
    (xs : list item) (s : store) :
  returns (dedupFrom k seen xs) s (fun ys _ => sublist ys xs).
Proof.
  revert seen s. induction xs as [| x xs IH]; intros seen s; cbn [dedupFrom].
  - unfold returns, ret. constructor.
  - apply returns_bind. unfold returns at 1.
    destruct (dedupKey k x s) as [id s1 | e s1]; [| trivial].
    destruct (existsb (same_value_zero id) seen).
    + eapply returns_weaken; [| apply IH].
      intros ys s2 L. cbv beta in L. now constructor.
    + apply returns_bind. eapply returns_weaken; [| apply IH].
      intros ys s2 L. cbv beta in L. unfold returns, ret. now constructor.
Qed.

Lemma transformItem_same (t : transformSpec) (x : item) (s : store) :
  returns (transformItem t x) s (fun y _ => y = x).
Proof.
  unfold transformItem. destruct (nonEmpty (transformColumn t)); [| reflexivity].
  apply returns_bind. unfold returns at 1.
  destruct (getProp x (transformColumn t) s) as [v s1 | e s1]; [| trivial].
  destruct v, x as [w | r]; try reflexivity;
    destruct (transformed (transformFn t) _); reflexivity.
Qed.

Lemma mapM_same {A} (f : A -> M A) (l : list A) (s : store) :
  (forall x s, returns (f x) s (fun y _ => y = x)) ->
  returns (mapM f l) s (fun ys _ => ys = l).
Proof.
  intros F. revert s. induction l as [| x l IH]; intros s; cbn [mapM].
  - reflexivity.
  - apply returns_bind. eapply returns_weaken; [| apply F].
    intros y s1 ->. apply returns_bind. eapply returns_weaken; [| apply IH].
    intros ys s2 ->. reflexivity.
Qed.

Lemma selects_filterTable (keep : item -> M bool) : selects (filterTable keep).
Proof.
  intros [a | v] s; cbn [filterTable]; [| constructor].
  apply returns_bind. cbn. apply returns_bind.
  eapply returns_weaken; [| apply filterM_sublist].
  intros ys s1 L. cbv beta in L. cbn. now rewrite CleanerFacts.arrayAt_new.
Qed.

Lemma selects_dedupTable (k : option string) : selects (dedupTable k).
Proof.
  intros [a | v] s; cbn [dedupTable]; [| constructor].
  apply returns_bind. cbn. apply returns_bind.
  eapply returns_weaken; [| apply dedupFrom_sublist].
  intros ys s1 L. cbv beta in L. cbn. now rewrite CleanerFacts.arrayAt_new.
Qed.

Lemma selects_transform (t : transformSpec) : selects (mapTable (transformItem t)).
Proof.
  intros [a | v] s; cbn [mapTable]; [| constructor].
  apply returns_bind. cbn. apply returns_bind.
  eapply returns_weaken; [| apply (mapM_same _ _ _ (transformItem_same t))].
  intros ys s1 ->. cbn. now rewrite CleanerFacts.arrayAt_new.
Qed.

Lemma selects_sliceTable (n : number) : selects (sliceTable n).
Proof.
  intros [a | v] s; cbn [sliceTable]; [| constructor].
  cbn. rewrite CleanerFacts.arrayAt_new. apply sublist_take.
Qed.

Lemma selects_stage {A} (enabled : option A) (run : A -> table -> M table) :
  (forall a, selects (run a)) -> selects (stage enabled run).
Proof.
  intros R t s. destruct enabled; [apply R |].
  unfold returns, stage, ret. reflexivity.
Qed.

Lemma selects_skip {A} (run : A -> table -> M table) :
  selects (stage None run).
Proof. intros t s. unfold returns, stage, ret. reflexivity. Qed.

Lemma selects_ret : selects ret.
Proof. intros t s. unfold returns, ret. reflexivity. Qed.

Lemma selects_then (st : table -> M table) (k : table -> M table) :
  selects st -> selects k -> selects (fun t => bind (st t) k).
Proof.
  intros S K t s. apply returns_bind. specialize (S t s).
  unfold returns in S |- *. destruct (st t s) as [t1 s1 | e s1]; [| trivial].
  specialize (K t1 s1). unfold returns in K.
  destruct (k t1 s1); [| trivial]. now transitivity (rowsOf s1 t1).
Qed.

Lemma cleanData_selects (o : options) :
  trim o = false -> givenString (case o) = None ->
  columns o = None -> sort o = None ->
  selects (fun data => cleanData data o).
Proof.
  intros E1 E2 E3 E4.
  unfold cleanData. rewrite E1, E2, E3, E4. cbn [flag].
  repeat (apply selects_then;
          [first [apply selects_skip | apply selects_stage; intros ?] |]);
    try apply selects_ret.
  - apply selects_filterTable.
  - apply selects_dedupTable.
  - apply selects_filterTable.
  - apply selects_transform.
  - apply selects_sliceTable.
Qed.

(** X26: without the options [trim], [case], [columns] and [sort],
    [cleanData] only picks rows: when it returns, the rows of the table
    are rows of the input, the same references, in the order they had
    in the input. *)
Theorem selecting_stages_keep_the_order (data : table) (o : options) (s : store) :
  trim o = false -> givenString (case o) = None ->
  columns o = None -> sort o = None ->
  returns (cleanData data o) s
          (fun cleaned s' => sublist (rowsOf s' cleaned) (rowsOf s data)).
Proof.
  intros E1 E2 E3 E4. exact (cleanData_selects o E1 E2 E3 E4 data s).
Qed.

(** ** Stages that leave the records alone *)

Lemma readOnly_throw {A} (e : error) : readOnly (throw (A := A) e).
Proof. intros s. reflexivity. Qed.

Lemma readOnly_filterM {A} (keep : A -> M bool) (l : list A) :
  (forall x, readOnly (keep x)) -> readOnly (filterM keep l).
Proof.
  intros K. induction l as [| x l IH]; cbn [filterM]; [apply readOnly_ret |].
  apply readOnly_bind; [apply K | intros b].
  apply readOnly_bind; [exact IH | intros ys; apply readOnly_ret].
Qed.

Lemma readOnly_keepNonEmpty (x : item) : readOnly (keepNonEmpty x).
Proof. intros s. now destruct x as [[| | | |] |]. Qed.

Lemma readOnly_matches (f : filterSpec) (x : item) : readOnly (matches f x).
Proof.
  unfold matches. apply readOnly_bind; [apply readOnly_getProp | intros v].
  repeat (match goal with
          | |- readOnly (if ?b then _ else _) => destruct b
          end; [apply readOnly_ret |]).
  destruct (String.eqb (operator f) "regex"); [| apply readOnly_ret].
  destruct (RegExp_test _ _); [apply readOnly_ret | apply readOnly_throw].
Qed.

Lemma steady_filterTable (keep : item -> M bool) :
  (forall x, readOnly (keep x)) -> steady (filterTable keep).
Proof.
  intros K [a | v] s; cbn [filterTable]; [| split; reflexivity].
  unfold returns, bind, readArray.
  pose proof (readOnly_filterM keep (arrayAt s a) K s) as R.
  destruct (filterM keep (arrayAt s a) s) as [ys s1 | e s1]; [| trivial].
  cbn in R. subst s1. split; reflexivity.
Qed.

Lemma steady_dedupTable (k : option string) : steady (dedupTable k).
Proof.
  intros [a | v] s; cbn [dedupTable]; [| split; reflexivity].
  unfold returns, bind, readArray.
  pose proof (readOnly_dedupFrom k [] (arrayAt s a) s) as R.
  destruct (dedupFrom k [] (arrayAt s a) s) as [ys s1 | e s1]; [| trivial].
  cbn in R. subst s1. split; reflexivity.
Qed.

Lemma steady_sliceTable (n : number) : steady (sliceTable n).
Proof. intros [a | v] s; split; reflexivity. Qed.

Lemma steady_stage {A} (enabled : option A) (run : A -> table -> M table) :
  (forall a, steady (run a)) -> steady (stage enabled run).
Proof.
  intros R t s. destruct enabled; [apply R | split; reflexivity].
Qed.

Lemma steady_skip {A} (run : A -> table -> M table) : steady (stage None run).
Proof. intros t s. split; reflexivity. Qed.

Lemma steady_ret : steady ret.
Proof. intros t s. split; reflexivity. Qed.

Lemma steady_then (st : table -> M table) (k : table -> M table) :
  steady st -> steady k -> steady (fun t => bind (st t) k).
Proof.
  intros S K t s. apply returns_bind. specialize (S t s).
  unfold returns in S |- *. destruct (st t s) as [t1 s1 | e s1]; [| trivial].
  specialize (K t1 s1). unfold returns in K.
  destruct (k t1 s1); [| trivial].
  destruct S as [S1 S2], K as [K1 K2]. split; congruence.
Qed.

Lemma cleanData_steady (o : options) :
  trim o = false -> givenString (case o) = None ->
  columns o = None -> transform o = None -> sort o = None ->
  steady (fun data => cleanData data o).
Proof.
  intros E1 E2 E3 E4 E5.
  unfold cleanData. rewrite E1, E2, E3, E4, E5. cbn [flag].
  repeat (apply steady_then;
          [first [apply steady_skip | apply steady_stage; intros ?] |]);
    try apply steady_ret.
  - apply steady_filterTable, readOnly_keepNonEmpty.
  - apply steady_dedupTable.
  - apply steady_filterTable. intros x. apply readOnly_matches.
  - apply steady_sliceTable.
Qed.

End WithHost.

(** ** The theorems on sample tables *)

(** X16 on [people] with the filter [age gt 1]. *)
Lemma pure_without_transform_and_sort_witness :
  extends people
          (finalStore (cleanData (H := sampleHost) (Array 0)
                                 (withFilter "age" "gt" "1") people))
  /\ (forall r, (r < List.length (records people))%nat ->
                recordAt (finalStore (cleanData (H := sampleHost) (Array 0)
                                        (withFilter "age" "gt" "1") people)) r
                = recordAt people r)
  /\ (forall a, (a < List.length (arrays people))%nat ->
                arrayAt (finalStore (cleanData (H := sampleHost) (Array 0)
                                       (withFilter "age" "gt" "1") people)) a
                = arrayAt people a).
Proof.
  apply (cleanData_without_transform_and_sort_is_pure
           (H := sampleHost) (Array 0) (withFilter "age" "gt" "1") people);
    reflexivity.
Defined.

(** X18 on [[{n: 2}, {n: 1}]] sorted by [n]. *)
Lemma rows_kept_witness :
  returns (cleanData (H := sampleHost) (Array 0) (withSort "n" None))
          twoOne
          (fun cleaned s' => rowCountOf s' cleaned = rowCountOf twoOne (Array 0)).
Proof.
  apply (rewriting_stages_keep_the_rows
           (H := sampleHost) (Array 0) (withSort "n" None) twoOne);
    reflexivity.
Defined.

(** X19 on the record [{name: ' bob ', note: 'x ', age: 18}]. *)
Lemma trim_shape_witness :
  List.NoDup (List.map fst padded)
  /\ trimRecord padded
     = List.map (fun '(k, v) =>
                   (k, match v with Str s => Str (JS.trim s) | _ => v end))
                padded.
Proof.
  assert (Given : List.NoDup (List.map fst padded)).
  { cbn. repeat (apply List.NoDup_cons; [cbn; intuition discriminate |]).
    apply List.NoDup_nil. }
  split; [exact Given |].
  apply (trim_stage_keeps_the_shape padded eq_refl Given).
Defined.

(** X20 on the same record and the case 'camel'. *)
Lemma unknown_case_witness :
  knownCase "camel" = false
  /\ caseRecord "camel" padded
     = List.filter (fun '(_, v) => negb (is_text v)) padded.
Proof.
  split; [reflexivity |].
  apply (unknown_case_drops_the_text_fields "camel" padded).
  - reflexivity.
  - cbn. repeat (apply List.NoDup_cons; [cbn; intuition discriminate |]).
    apply List.NoDup_nil.
  - reflexivity.
Defined.

(** X23 on the same record, with the columns [age] and [name], read
    at [name]. *)
Lemma selected_columns_witness :
  prop_get "name" (selectColumns ["age"; "name"] padded)
  = if existsb (String.eqb "name") ["age"; "name"]
    then prop_get "name" padded else None.
Proof.
  apply (selected_columns ["age"; "name"] padded "name"). reflexivity.
Defined.

(** X26 on [people] with the filter [age gt 1]. *)
Lemma rows_in_order_witness :
  returns (cleanData (H := sampleHost) (Array 0)
                     (withFilter "age" "gt" "1"))
          people
          (fun cleaned s' => sublist (rowsOf s' cleaned) (rowsOf people (Array 0))).
Proof.
  apply (selecting_stages_keep_the_order
           (H := sampleHost) (Array 0) (withFilter "age" "gt" "1") people);
    reflexivity.
Defined.


End CleanerMore.

(* ================================================================== *)
(** * Facts about [getStats]                                           *)
(* ================================================================== *)

Module StatsFacts.
Import JS Cleaner Stats Frames Samples.

Section WithHost.
Context `{Host}.

Lemma countCell_counts (vs : list prim) (n e : nat) :
  fold_left countCell vs (n, e)
  = ((n + List.length (List.filter is_null vs))%nat,
     (e + List.length (List.filter is_empty vs))%nat).
Proof.
  revert n e. induction vs as [| v vs IH]; intros n e; cbn [fold_left].
  - cbn. f_equal; lia.
  - destruct v as [| | b | q | t]; cbn [countCell fst snd List.filter is_null is_empty];
      try (rewrite IH; cbn [List.length]; f_equal; lia).
    destruct (String.eqb t EmptyString); rewrite IH; cbn [List.length];
      f_equal; lia.
Qed.

Lemma countRows_records (xs : list item) (counts : nat * nat) (s : store) :
  forallb is_record xs = true ->
  countRows xs counts s = Return (fold_left countCell (cellsOf s xs) counts) s.
Proof.
  revert counts. induction xs as [| x xs IH]; intros counts R; [reflexivity |].
  cbn [forallb] in R. apply andb_true_iff in R as [Rx R].
  destruct x as [v | r]; [discriminate |].
  cbn [countRows entryValues]. unfold bind, readRecord, ret.
  rewrite (IH _ R). cbn [cellsOf List.flat_map].
  now rewrite fold_left_app.
Qed.

(** On an array of records [getStats] returns, and its counters are
    the numbers of cells of the two kinds. *)
Lemma getStats_records (a : nat) (s : store) :
  forallb is_record (arrayAt s a) = true ->
  exists st,
    getStats (Array a) s = Return (OfArray st) s
    /\ count st = List.length (arrayAt s a)
    /\ nullCount st
       = List.length (List.filter is_null (cellsOf s (arrayAt s a)))
    /\ emptyCount st
       = List.length (List.filter is_empty (cellsOf s (arrayAt s a))).
Proof.
  intros R. cbn [getStats]. unfold bind at 1. unfold readArray.
  destruct (arrayAt s a) as [| x xs] eqn:E.
  - eexists. split; [reflexivity |]. now cbn.
  - destruct x as [v | r]; [discriminate |].
    unfold bind, readRecord. rewrite (countRows_records _ _ _ R).
    rewrite countCell_counts. unfold ret.
    eexists. split; [reflexivity |]. now cbn.
Qed.

Lemma cellsOf_sublist (s : store) (xs' xs : list item) :
  sublist xs' xs -> sublist (cellsOf s xs') (cellsOf s xs).
Proof.
  induction 1 as [| x l1 l2 S IH | x l1 l2 S IH]; cbn [cellsOf List.flat_map].
  - constructor.
  - now apply sublist_app.
  - now apply sublist_inserts_l.
Qed.

Lemma filter_sublist {A} (keep : A -> bool) (l' l : list A) :
  sublist l' l -> sublist (List.filter keep l') (List.filter keep l).
Proof.
  induction 1 as [| x l1 l2 S IH | x l1 l2 S IH]; cbn [List.filter].
  - constructor.
  - destruct (keep x); [now constructor | exact IH].
  - destruct (keep x); [now constructor | exact IH].
Qed.

Lemma cellsOf_records (s s' : store) (xs : list item) :
  records s' = records s -> cellsOf s' xs = cellsOf s xs.
Proof. intros E. unfold cellsOf, recordAt. now rewrite E. Qed.

Lemma sublist_records (xs' xs : list item) :
  sublist xs' xs -> forallb is_record xs = true ->
  forallb is_record xs' = true.
Proof.
  induction 1 as [| x l1 l2 S IH | x l1 l2 S IH]; cbn [forallb]; intros R.
  - reflexivity.
  - apply andb_true_iff in R as [Rx R]. now rewrite Rx, IH.
  - apply andb_true_iff in R as [_ R]. auto.
Qed.

(** X27: the statistics shown before and after cleaning. On an array
    of records, with only the options that pick rows ([removeEmpty],
    [deduplicate], [filter], [limit]), [getStats] returns on the input
    and on the cleaned table, and none of [count], [nullCount] and
    [emptyCount] is larger after cleaning than before. *)
Theorem picking_rows_never_raises_the_counts
    (a : nat) (o : options) (s : store) :
  trim o = false -> givenString (case o) = None -> columns o = None ->
  transform o = None -> sort o = None ->
  forallb is_record (arrayAt s a) = true ->
  exists before,
    getStats (Array a) s = Return (OfArray before) s
    /\ returns (cleanData (Array a) o) s
         (fun cleaned s' =>
            exists after,
              getStats cleaned s' = Return (OfArray after) s'
              /\ (count after <= count before)%nat
              /\ (nullCount after <= nullCount before)%nat
              /\ (emptyCount after <= emptyCount before)%nat).
Proof.
  intros E1 E2 E3 E4 E5 R.
  destruct (getStats_records a s R) as (before & G & C & N & E).
  exists before. split; [exact G |].
  pose proof (CleanerMore.cleanData_selects o E1 E2 E3 E5 (Array a) s) as S.
  pose proof (CleanerMore.cleanData_steady o E1 E2 E3 E4 E5 (Array a) s) as K.
  unfold returns in *.
  destruct (cleanData (Array a) o s) as [cleaned s' | e s']; [| trivial].
  destruct K as [K1 K2]. destruct cleaned as [a' | v]; [| discriminate].
  cbn [rowsOf] in S.
  destruct (getStats_records a' s' (sublist_records _ _ S R))
    as (after & G' & C' & N' & E').
  exists after. split; [exact G' |].
  rewrite C, C', N, N', E, E', (cellsOf_records s s' _ K1).
  pose proof (cellsOf_sublist s _ _ S) as SC.
  split; [now apply sublist_length |].
  split; apply sublist_length, filter_sublist, SC.
Qed.

End WithHost.

(** X27 on [people] with the filter [age gt 1]. *)
Lemma counts_witness :
  forallb is_record (arrayAt people 0) = true
  /\ exists before,
       getStats (Array 0) people = Return (OfArray before) people
       /\ returns (cleanData (H := sampleHost) (Array 0)
                             (withFilter "age" "gt" "1"))
            people
            (fun cleaned s' =>
               exists after,
                 getStats cleaned s' = Return (OfArray after) s'
                 /\ (count after <= count before)%nat
                 /\ (nullCount after <= nullCount before)%nat
                 /\ (emptyCount after <= emptyCount before)%nat).
Proof.
  split; [reflexivity |].
  apply (picking_rows_never_raises_the_counts
           (H := sampleHost) 0 (withFilter "age" "gt" "1") people);
    reflexivity.
Defined.


End StatsFacts.

(* ================================================================== *)
(** * Facts about the rows of [groupAndAggregate]                      *)
(* ================================================================== *)

Module RowFacts.
Import JS Prototype Grouper Samples.

Section WithHost.
Context `{Host}.

Lemma fold_set_other {V} (l : list (string * V)) (init : object V) (k : string) :
  ~ In k (List.map fst l) ->
  prop_get k (fold_left (fun row '(name, v) => prop_set name v row) l init)
  = prop_get k init.
Proof.
  revert init. induction l as [| [name v] l IH]; intros init N; cbn; [reflexivity |].
  rewrite IH by (intros I; apply N; now right).
  rewrite GrouperFacts.prop_get_set.
  destruct (String.eqb_spec k name) as [-> | _]; [| reflexivity].
  exfalso. apply N. now left.
Qed.

Lemma fold_fields_other (keyParts : list string) (l : list (nat * string))
    (init : object aggregate) (k : string) :
  ~ In k (List.map snd l) ->
  prop_get k (fold_left (fun row '(index, name) =>
                           if String.eqb name "__proto__" then row
                           else prop_set name (One (keyPartValue keyParts index))
                                         row)
                        l init)
  = prop_get k init.
Proof.
  revert init. induction l as [| [index name] l IH]; intros init N; cbn; [reflexivity |].
  rewrite IH by (intros I; apply N; now right).
  destruct (String.eqb name "__proto__"); [reflexivity |].
  rewrite GrouperFacts.prop_get_set.
  destruct (String.eqb_spec k name) as [-> | _]; [| reflexivity].
  exfalso. apply N. now left.
Qed.

Lemma combine_names (n : nat) (names : list string) (k : string) :
  In k (List.map snd (combine (seq n (List.length names)) names)) -> In k names.
Proof.
  intros I. apply in_map_iff in I as ([i name] & <- & I).
  now apply in_combine_r in I.
Qed.

(** ** The loop of [aggregateGroup] *)

(** Once a turn has thrown, the loop is over. *)
Lemma aggregateGroup_thrown (group : list record)
    (aggregations : object (option string)) :
  fold_left (fun result '(fieldName, aggType) =>
               match result with
               | Returned stored =>
                   match aggregateField group fieldName aggType with
                   | Returned (Some v) =>
                       Returned (if String.eqb fieldName "__proto__" then stored
                                 else prop_set fieldName v stored)
                   | Returned None => Returned stored
                   | ThrewTypeError => ThrewTypeError
                   end
               | ThrewTypeError => ThrewTypeError
               end)
            aggregations ThrewTypeError
  = ThrewTypeError.
Proof. induction aggregations as [| [name aggType] l IH]; [reflexivity | exact IH]. Qed.

(** The result holds fields named by the aggregations only. *)
Lemma aggregateGroup_names (group : list record)
    (aggregations : object (option string))
    (stored : object aggregate) (k : string) :
  aggregateGroup group aggregations = Returned stored ->
  In k (List.map fst stored) ->
  In k (List.map fst aggregations).
Proof.
  unfold aggregateGroup.
  enough (G : forall acc : object aggregate,
             fold_left (fun result '(fieldName, aggType) =>
                          match result with
                          | Returned stored =>
                              match aggregateField group fieldName aggType with
                              | Returned (Some v) =>
                                  Returned (if String.eqb fieldName "__proto__"
                                            then stored
                                            else prop_set fieldName v stored)
                              | Returned None => Returned stored
                              | ThrewTypeError => ThrewTypeError
                              end
                          | ThrewTypeError => ThrewTypeError
                          end)
                       aggregations (Returned acc)
             = Returned stored ->
             In k (List.map fst stored) ->
             In k (List.map fst acc) \/ In k (List.map fst aggregations)).
  { intros R I. now destruct (G [] R I). }
  induction aggregations as [| [name aggType] l IH]; intros acc R I.
  - injection R as <-. now left.
  - cbn [fold_left] in R. cbn [List.map fst In].
    destruct (aggregateField group name aggType) as [[v |] |].
    + apply IH in R; [| exact I]. destruct R as [R | R]; [| now right; right].
      destruct (String.eqb name "__proto__"); [now left |].
      rewrite GrouperMore.prop_set_keys in R.
      destruct (prop_get name acc); [now left |].
      apply in_app_or in R as [R | [<- | []]]; [now left | right; now left].
    + apply IH in R; [| exact I]. destruct R as [R | R]; [now left | now right; right].
    + now rewrite aggregateGroup_thrown in R.
Qed.

(** A kind that is a string never throws. *)
Lemma aggregateField_returns (group : list record) (fieldName kind : string) :
  exists stored, aggregateField group fieldName (Some kind) = Returned stored.
Proof. unfold aggregateField. eexists. reflexivity. Qed.

(** With kinds that are strings the loop returns. *)
Lemma aggregateGroup_returns (group : list record)
    (aggregations : object (option string)) :
  kindsAreStrings aggregations = true ->
  exists stored, aggregateGroup group aggregations = Returned stored.
Proof.
  unfold aggregateGroup. generalize (@nil (string * aggregate)).
  induction aggregations as [| [name aggType] l IH]; intros acc K.
  - now exists acc.
  - cbn [kindsAreStrings forallb] in K. apply andb_true_iff in K as [Kn K].
    destruct aggType as [kind |]; [| discriminate Kn].
    cbn [fold_left].
    destruct (aggregateField_returns group name kind) as [[v |] ->];
      apply (IH _ K).
Qed.

(** ** The rows *)

Lemma groupRow_key_and_count (groupByFields : list string)
    (aggregations : object (option string)) (key : string)
    (group : list record) (row : object aggregate) :
  (forall name, In name (groupByFields ++ List.map fst aggregations)%list ->
                name <> "_group" /\ name <> "_count") ->
  groupRow groupByFields aggregations key group = Returned row ->
  prop_get "_group" row = Some (One (Str key))
  /\ prop_get "_count" row = Some (One (Num (Grouper.count _ group))).
Proof.
  intros Free R. unfold groupRow in R.
  destruct (aggregateGroup group aggregations) as [stored |] eqn:A;
    [| discriminate R].
  injection R as <-.
  assert (Other : forall k, (k = "_group" \/ k = "_count") ->
            prop_get k
              (fold_left (fun row '(name, v) => prop_set name v row) stored
                 (fold_left (fun row '(index, name) =>
                               if String.eqb name "__proto__" then row
                               else prop_set name
                                      (One (keyPartValue (split "|" key) index))
                                      row)
                    (combine (seq 0 (List.length groupByFields)) groupByFields)
                    [("_group", One (Str key));
                     ("_count", One (Num (Grouper.count _ group)))]))
            = prop_get k [("_group", One (Str key));
                          ("_count", One (Num (Grouper.count _ group)))]).
  { intros k K. rewrite fold_set_other.
    - apply fold_fields_other. intros I. apply combine_names in I.
      destruct (Free k) as [F1 F2]; [apply in_or_app; now left |].
      destruct K; congruence.
    - intros I. apply (aggregateGroup_names _ _ _ _ A) in I.
      destruct (Free k) as [F1 F2]; [apply in_or_app; now right |].
      destruct K; congruence. }
  split; rewrite Other by auto; reflexivity.
Qed.

Lemma groupRow_returns (groupByFields : list string)
    (aggregations : object (option string)) (key : string)
    (group : list record) :
  kindsAreStrings aggregations = true ->
  exists row, groupRow groupByFields aggregations key group = Returned row.
Proof.
  intros K. unfold groupRow.
  destruct (aggregateGroup_returns group aggregations K) as [stored ->].
  eexists. reflexivity.
Qed.

(** X28: with kinds that are strings [groupAndAggregate] returns, and
    when it returns its rows are the groups in their order: a row
    carries the key of its group under [_group] and the number of its
    records under [_count], as long as neither name is used for a
    grouping field or an aggregated field. *)
Theorem rows_carry_key_and_count
    (data : list record) (groupByFields : list string)
    (aggregations : object (option string)) :
  ownNames groupByFields = true ->
  ownNames (List.map (compositeKey groupByFields) data) = true ->
  (forall name, In name (groupByFields ++ List.map fst aggregations)%list ->
                name <> "_group" /\ name <> "_count") ->
  (kindsAreStrings aggregations = true ->
   exists rows,
     groupAndAggregate data groupByFields aggregations = Returned rows)
  /\ (forall rows,
         groupAndAggregate data groupByFields aggregations = Returned rows ->
         List.map (fun row => (prop_get "_group" row, prop_get "_count" row)) rows
         = List.map (fun '(key, group) =>
                       (Some (One (Str key)),
                        Some (One (Num (Grouper.count _ group)))))
                    (groupByMultiple data groupByFields)).
Proof.
  intros _ _ Free. unfold groupAndAggregate.
  generalize (groupByMultiple data groupByFields). intros groups. split.
  - intros K. induction groups as [| [key group] groups IH].
    + now exists [].
    + cbn [groupRows].
      destruct (groupRow_returns groupByFields aggregations key group K)
        as [row ->].
      destruct IH as [rows ->]. now exists (row :: rows).
  - induction groups as [| [key group] groups IH]; intros rows R.
    + injection R as <-. reflexivity.
    + cbn [groupRows] in R.
      destruct (groupRow groupByFields aggregations key group) as [row |] eqn:Row;
        [| discriminate R].
      destruct (groupRows groupByFields aggregations groups) as [others |];
        [| discriminate R].
      injection R as <-. cbn [List.map].
      destruct (groupRow_key_and_count _ _ _ _ _ Free Row) as [-> ->].
      now rewrite (IH others eq_refl).
Qed.

(** ** The grouping fields of a row *)

Lemma noSeparator_lacks (s : string) : noSeparator s = Cli.lacks "|" s.
Proof.
  induction s as [| a s IH]; [reflexivity |].
  cbn [noSeparator Cli.lacks]. rewrite IH. f_equal. f_equal.
  destruct a as [[] [] [] [] [] [] [] []]; reflexivity.
Qed.

(** Splitting what was joined gives the parts back. *)
Lemma split_join (parts : list string) :
  parts <> [] ->
  (forall p, In p parts -> noSeparator p = true) ->
  split "|" (join "|" parts) = parts.
Proof.
  intros N L.
  change (split "|" (join "|" parts))
    with (split_at (Cli.one "|") 0 EmptyString (join "|" parts)).
  induction parts as [| p parts IH]; [congruence |]. clear N.
  assert (Lp : Cli.lacks "|" p = true)
    by (rewrite <- noSeparator_lacks; apply L; now left).
  destruct parts as [| q rest].
  - unfold join. cbn [String.concat].
    now rewrite CliFacts.split_at_whole by exact Lp.
  - unfold join in *. remember (q :: rest) as others eqn:O.
    assert (C : String.concat "|" (p :: others)
                = p ++ String "|" (String.concat "|" others))
      by (subst others; reflexivity).
    rewrite C, CliFacts.split_at_first by exact Lp.
    rewrite IH; [reflexivity | subst others; discriminate |].
    intros x I. apply L. now right.
Qed.

Lemma combine_index (n : nat) (names : list string) (i : nat) (name : string) :
  In (i, name) (combine (seq n (List.length names)) names) ->
  nth_error names (i - n) = Some name /\ (n <= i)%nat.
Proof.
  revert n. induction names as [| x names IH]; intros n I; [destruct I |].
  cbn in I. destruct I as [E | I].
  - injection E as <- <-. now rewrite Nat.sub_diag.
  - apply IH in I as [I L]. split; [| lia].
    replace (i - n)%nat with (S (i - S n)) by lia. exact I.
Qed.

Lemma index_combined {A} (n : nat) (names : list A) (i : nat) (name : A) :
  nth_error names i = Some name ->
  In ((n + i)%nat, name) (combine (seq n (List.length names)) names).
Proof.
  revert n i. induction names as [| x names IH]; intros n i E.
  - now destruct i.
  - destruct i as [| i]; cbn in E |- *.
    + injection E as ->. left. f_equal. lia.
    + right. replace (n + S i)%nat with (S n + i)%nat by lia. now apply IH.
Qed.

(** X29: the grouping fields of a row are rebuilt from the key. With
    kinds that are strings the row is built, and when it is built and
    the values of the grouping fields hold no ['|'], it gives each
    grouping field as the text of the value its records have ([null]
    for a value that is missing, null or the text '__null__'), unless
    an aggregated field has the same name. *)
Theorem grouping_fields_come_back_as_text
    (data : list record) (groupByFields : list string)
    (aggregations : object (option string))
    (key : string) (group : list record) (r : record)
    (i : nat) (name : string) :
  ownNames groupByFields = true ->
  ownNames (List.map (compositeKey groupByFields) data) = true ->
  prop_get key (groupByMultiple data groupByFields) = Some group ->
  In r group ->
  List.NoDup groupByFields ->
  nth_error groupByFields i = Some name ->
  (forall g, In g groupByFields -> noSeparator (keyPart r g) = true) ->
  ~ In name (List.map fst aggregations) ->
  (kindsAreStrings aggregations = true ->
   exists row, groupRow groupByFields aggregations key group = Returned row)
  /\ (forall row,
         groupRow groupByFields aggregations key group = Returned row ->
         prop_get name row
         = Some (One (if String.eqb (keyPart r name) "__null__"
                      then Null else Str (keyPart r name)))).
Proof.
  intros Own _ G I N E L Free.
  split; [apply groupRow_returns |]. intros row R.
  assert (OwnName : name <> "__proto__").
  { apply nth_error_In in E. unfold ownNames in Own.
    rewrite forallb_forall in Own. specialize (Own name E).
    intros ->. discriminate Own. }
  apply (GrouperFacts.members_have_the_key _ _ _ _ _ G) in I as <-.
  unfold groupRow, compositeKey in R.
  destruct (aggregateGroup group aggregations) as [stored |] eqn:A;
    [| discriminate R].
  injection R as <-.
  change (split_at "|" 0 EmptyString
                   (join "|" (List.map (keyPart r) groupByFields)))
    with (split "|" (join "|" (List.map (keyPart r) groupByFields))).
  rewrite split_join.
  - rewrite fold_set_other
      by (intros I; apply (aggregateGroup_names _ _ _ _ A) in I; contradiction).
    rewrite (GrouperMore.fold_left_agree _
               (fun row x =>
                  if String.eqb (snd x) "__proto__" then row
                  else prop_set (snd x)
                         (One (keyPartValue (List.map (keyPart r) groupByFields)
                                            (fst x))) row))
      by (now intros acc [j n] _).
    apply (GrouperFacts.assigned_own snd
             (fun x => One (keyPartValue (List.map (keyPart r) groupByFields)
                                         (fst x))));
      [exact OwnName | |].
    + right. exists (i, name). split; [| reflexivity].
      exact (index_combined 0 groupByFields i name E).
    + intros [j n] J Same. cbn in Same |- *. subst n.
      apply combine_index in J as [J _]. rewrite Nat.sub_0_r in J.
      assert (j = i).
      { apply (proj1 (List.NoDup_nth_error groupByFields) N).
        - apply nth_error_Some. congruence.
        - congruence. }
      subst j. unfold keyPartValue.
      now rewrite nth_error_map, E.
  - destruct groupByFields; [now destruct i | discriminate].
  - intros p P. apply in_map_iff in P as (g & <- & P). now apply L.
Qed.

End WithHost.

(** ** The theorems on the table [sales] *)

(** X28 on [sales] grouped by [r] with the sum of [v]. *)
Lemma key_and_count_witness :
  (kindsAreStrings [("v", Some "sum")] = true ->
   exists rows,
     groupAndAggregate (H := sampleHost) sales ["r"] [("v", Some "sum")]
     = Returned rows)
  /\ (forall rows,
         groupAndAggregate (H := sampleHost) sales ["r"] [("v", Some "sum")]
         = Returned rows ->
         List.map (fun row => (prop_get "_group" row, prop_get "_count" row)) rows
         = List.map (fun '(key, group) =>
                       (Some (One (Str key)),
                        Some (One (Num (Grouper.count _ group)))))
                    (groupByMultiple (H := sampleHost) sales ["r"])).
Proof.
  apply (rows_carry_key_and_count
           (H := sampleHost) sales ["r"] [("v", Some "sum")]);
    [reflexivity | reflexivity |].
  intros name [<- | [<- | []]]; split; discriminate.
Defined.

(** X29 on [sales] grouped by [r] and [c]: the column [c] of the row of
    the group [x|p]. *)
Lemma grouping_fields_witness :
  prop_get "x|p" (groupByMultiple (H := sampleHost) sales ["r"; "c"])
  = Some [ [("r", Str "x"); ("c", Str "p"); ("v", Str "1")] ]
  /\ (kindsAreStrings [("v", Some "sum")] = true ->
      exists row,
        groupRow (H := sampleHost) ["r"; "c"] [("v", Some "sum")] "x|p"
                 [ [("r", Str "x"); ("c", Str "p"); ("v", Str "1")] ]
        = Returned row)
  /\ (forall row,
         groupRow (H := sampleHost) ["r"; "c"] [("v", Some "sum")] "x|p"
                  [ [("r", Str "x"); ("c", Str "p"); ("v", Str "1")] ]
         = Returned row ->
         prop_get "c" row
         = Some (One (if String.eqb
                           (keyPart (H := sampleHost)
                                    [("r", Str "x"); ("c", Str "p"); ("v", Str "1")]
                                    "c")
                           "__null__"
                      then Null
                      else Str (keyPart (H := sampleHost)
                                  [("r", Str "x"); ("c", Str "p"); ("v", Str "1")]
                                  "c")))).
Proof.
  split; [reflexivity |].
  apply (grouping_fields_come_back_as_text
           (H := sampleHost) sales ["r"; "c"] [("v", Some "sum")] "x|p"
           [ [("r", Str "x"); ("c", Str "p"); ("v", Str "1")] ]
           [("r", Str "x"); ("c", Str "p"); ("v", Str "1")] 1 "c").
  - reflexivity.
  - reflexivity.
  - reflexivity.
  - now left.
  - repeat (apply List.NoDup_cons; [cbn; intuition discriminate |]).
    apply List.NoDup_nil.
  - reflexivity.
  - intros g [<- | [<- | []]]; reflexivity.
  - cbn. intuition discriminate.
Defined.

End RowFacts.

(* ================================================================== *)
(** * Facts about the validation engine                                *)
(* ================================================================== *)

Module ValidatorFacts.
Import JS Validator.

Lemma flat_map_nil {A B} (f : A -> list B) (l : list A) :
  List.flat_map f l = [] <-> forall x, In x l -> f x = [].
Proof.
  induction l as [| x l IH]; cbn.
  - split; [intros _ y [] | reflexivity].
  - split.
    + intros E y [<- | I].
      * now apply app_eq_nil in E.
      * apply app_eq_nil in E as [_ E]. now apply IH.
    + intros K. rewrite (K x) by now left. cbn. apply IH.
      intros y I. apply K. now right.
Qed.

Lemma prop_get_In {V} (k : string) (v : V) (o : object V) :
  prop_get k o = Some v -> In (k, v) o.
Proof.
  induction o as [| [k0 v0] o IH]; cbn; [discriminate |].
  destruct (String.eqb_spec k k0) as [-> | N].
  - intros E. injection E as ->. now left.
  - intros E. right. now apply IH.
Qed.

(** The loop of [validate] over a part of the rules. *)
Lemma validate_loop (rules : object (list ValidationRule)) (data : record)
    (l : object (list ValidationRule)) (acc : validation) :
  let step := fun (acc : validation) '((fieldName, _) : string * list ValidationRule) =>
                let result := validateField rules fieldName (field data fieldName) in
                {| isValid := isValid acc && valid result;
                   fieldResults :=
                     if String.eqb fieldName "__proto__" then fieldResults acc
                     else prop_set fieldName result (fieldResults acc) |} in
  isValid (fold_left step l acc)
  = isValid acc
    && forallb (fun '(fieldName, _) =>
                  valid (validateField rules fieldName (field data fieldName))) l
  /\ forall name,
       In name (List.map fst l) -> name <> "__proto__" ->
       prop_get name (fieldResults (fold_left step l acc))
       = Some (validateField rules name (field data name)).
Proof.
  cbn zeta. revert acc. induction l as [| [f rs] l IH]; intros acc.
  - cbn. split; [now rewrite andb_true_r | intros name []].
  - cbn [fold_left forallb List.map fst In].
    match goal with
    | |- context [fold_left ?st l ?a] => destruct (IH a) as [V R]
    end.
    split.
    + rewrite V. cbn [isValid]. now rewrite andb_assoc.
    + intros name I N.
      destruct (in_dec string_dec name (List.map fst l)) as [Later | Last].
      * now apply R.
      * destruct I as [-> | I]; [| contradiction].
        clear R V.
        match goal with
        | |- context [fold_left ?st l ?a] =>
            assert (K : forall acc',
                       prop_get name (fieldResults (fold_left st l acc'))
                       = prop_get name (fieldResults acc'))
        end.
        { clear IH acc. induction l as [| [g rs'] l IH]; intros acc'; [reflexivity |].
          cbn [fold_left]. rewrite IH by (intros I; apply Last; now right).
          cbn [fieldResults]. destruct (String.eqb g "__proto__"); [reflexivity |].
          rewrite GrouperFacts.prop_get_set.
          destruct (String.eqb_spec name g) as [-> | _]; [| reflexivity].
          exfalso. apply Last. now left. }
        rewrite K. cbn [fieldResults].
        destruct (String.eqb_spec name "__proto__"); [contradiction |].
        now rewrite GrouperFacts.prop_get_set, String.eqb_refl.
Qed.

Lemma invalid_has_errors (r : fieldResult) (rules : object (list ValidationRule))
    (name : string) (v : prim) :
  r = validateField rules name v -> valid r = false -> errors r <> [].
Proof.
  intros -> V. unfold validateField in *. cbn [valid errors] in *.
  destruct (List.flat_map _ _); [discriminate | discriminate].
Qed.

Lemma rowErrors_nil (rules : object (list ValidationRule)) (i : nat)
    (data : record) :
  prop_get "__proto__" rules = None ->
  rowErrors rules i data = [] <-> isValid (validate rules data) = true.
Proof.
  intros P. unfold rowErrors.
  destruct (isValid (validate rules data)) eqn:V; [tauto |].
  split; [| discriminate]. intros E. exfalso.
  unfold validate in V, E.
  destruct (validate_loop rules data rules {| isValid := true; fieldResults := [] |})
    as [A R].
  cbn zeta in A, R. rewrite A in V. cbn [isValid andb] in V.
  apply not_true_iff_false in V. rewrite forallb_forall in V.
  apply V. intros [name rs] I.
  destruct (valid (validateField rules name (field data name))) eqn:Bad;
    [reflexivity | exfalso].
  assert (Key : In name (List.map fst rules))
    by (apply in_map_iff; now exists (name, rs)).
  assert (N : name <> "__proto__").
  { intros ->. now apply (proj1 (GrouperMore.prop_get_None _ _) P). }
  specialize (R name Key N). apply prop_get_In in R.
  rewrite flat_map_nil in E. specialize (E _ R). cbn beta iota in E.
  rewrite Bad in E. apply map_eq_nil in E.
  now apply (invalid_has_errors _ rules name (field data name) eq_refl Bad).
Qed.

(** X30: [getErrors] and [validate] agree: on an array of records, and
    with no rule on a field named ['__proto__'], [getErrors] reports
    nothing exactly when [validate] finds every record valid. *)
Theorem no_error_means_every_row_is_valid
    (rules : object (list ValidationRule)) (dataArray : list record) :
  prop_get "__proto__" rules = None ->
  getErrors rules dataArray = []
  <-> forall data, In data dataArray -> isValid (validate rules data) = true.
Proof.
  intros P. unfold getErrors. rewrite flat_map_nil. split.
  - intros E data I. apply In_nth_error in I as [i I].
    apply (rowErrors_nil rules i data P).
    apply (E (i, data)).
    apply (RowFacts.index_combined 0 dataArray i data I).
  - intros V [i data] I. apply (rowErrors_nil rules i data P).
    apply V. now apply in_combine_r in I.
Qed.

(** A rule on the field ['__proto__'] is not reported: [validate]
    finds the record invalid and [getErrors] returns nothing. *)
Lemma proto_field_hides_errors :
  isValid (validate protoRule []) = false
  /\ getErrors protoRule [ [] ] = [].
Proof. split; reflexivity. Qed.

(** X30 on the rule [required] for the field [age]. *)
Lemma no_error_witness :
  getErrors ageRequired [ [("age", Str "18")] ] = []
  <-> forall data, In data [ [("age", Str "18")] ] ->
                   isValid (validate ageRequired data) = true.
Proof.
  apply (no_error_means_every_row_is_valid ageRequired [ [("age", Str "18")] ]).
  reflexivity.
Defined.

End ValidatorFacts.
